(** * OmniVault: the encrypted store, its crypto session and the daemon's
      secret handlers, embedded from the Go sources.

    Sources embedded here:
    - [internal/store/crypto.go]      ([Crypto], key derivation, AES-GCM envelope)
    - the encrypted store ([EncryptedStore]: Initialize, Unlock, Lock, Get, Set,
      Delete, Exists, List, saveMeta, saveData, loadMeta, loadData, ChangePassword)
    - the daemon ([Server.handleSecret], [Server.setSecret], [Server.getSecret],
      [Server.deleteSecret], [Server.handleInit], [Server.handleUnlock],
      [Server.handleLock], [Server.handleSecrets])
    - [vault.Secret] and its methods, [vault.Metadata], [vault.Now],
      [vault.SecretRef], [vault.VaultError]
    - [providers/memory/memory.go]    (the in-memory provider)
    - [resolver.go]                   ([Resolver.Resolve], [ResolveSecret],
      [ResolveString], [IsSecretRef])

    Go values are represented as follows.  A [string] is a sequence of bytes
    (Rocq's [string]); a [[]byte] is a [list byte]; a [map[string]string] is a
    [gmap string string] (a nil map and an empty map read the same and are not
    told apart); a pointer that may be nil is an [option]; the derived-key
    buffers and the caller's [*Secret] objects live in an explicit heap, so that
    in-place writes stay visible to whoever holds the address.  A function that
    returns an [error] is a state transformer whose outcome is a value, an
    error, or a run-time panic. *)

From Stdlib Require Import ZArith NArith Strings.String Strings.Ascii Strings.Byte.
From Stdlib Require Import Hexadecimal HexadecimalPos HexadecimalString.
From stdpp Require Import base option list sorting countable gmap strings fin_maps.

Local Open Scope string_scope.
Local Open Scope Z_scope.

(* ===================================================================== *)
(** ** Errors, outcomes and the state monad *)
(* ===================================================================== *)

(** [errors.New msg] and [fmt.Errorf "ctx: %w" cause]. *)
Inductive error : Type :=
| errors_New (msg : string)
| fmt_Errorf (ctx : string) (cause : error).

(** [err.Error()]: the rendered message. *)
Fixpoint Error (e : error) : string :=
  match e with
  | errors_New msg => msg
  | fmt_Errorf ctx cause => ctx ++ ": " ++ Error cause
  end.

#[global] Instance error_eq_dec : EqDecision error.
Proof. solve_decision. Defined.

(** What a call does: return a value, return a non-nil [error], or panic. *)
Inductive outcome (A : Type) : Type :=
| Ret (a : A)
| Fail (e : error)
| Panic (msg : string).
Arguments Ret {A} a.
Arguments Fail {A} e.
Arguments Panic {A} msg.

Definition M (S A : Type) : Type := S -> outcome A * S.

Definition ret {S A} (a : A) : M S A := fun s => (Ret a, s).
Definition fail {S A} (e : error) : M S A := fun s => (Fail e, s).
Definition panic {S A} (msg : string) : M S A := fun s => (Panic msg, s).

Definition bind {S A B} (m : M S A) (k : A -> M S B) : M S B :=
  fun s =>
    match m s with
    | (Ret a, s') => k a s'
    | (Fail e, s') => (Fail e, s')
    | (Panic p, s') => (Panic p, s')
    end.

(** [if err != nil { handler }]: the handler sees the error; panics pass. *)
Definition catch {S A} (m : M S A) (h : error -> M S A) : M S A :=
  fun s =>
    match m s with
    | (Fail e, s') => h e s'
    | r => r
    end.

(** [if err != nil { return fmt.Errorf("ctx: %w", err) }] *)
Definition wrap {S A} (ctx : string) (m : M S A) : M S A :=
  catch m (fun e => fail (fmt_Errorf ctx e)).

Definition get_state {S} : M S S := fun s => (Ret s, s).
Definition put_state {S} (s : S) : M S unit := fun _ => (Ret tt, s).
Definition modify {S} (f : S -> S) : M S unit := fun s => (Ret tt, f s).

Declare Scope go_scope.
Delimit Scope go_scope with go.
Notation "x <- m ;; k" := (bind m (fun x => k))
  (at level 100, m at next level, right associativity) : go_scope.
Notation "m ;;; k" := (bind m (fun _ => k))
  (at level 100, right associativity) : go_scope.
Local Open Scope go_scope.

(** A nil pointer dereference. *)
Definition nil_deref : string :=
  "runtime error: invalid memory address or nil pointer dereference".

(** [*p] for a pointer held as an [option]. *)
Definition deref {S A} (p : option A) : M S A :=
  match p with
  | Some a => ret a
  | None => panic nil_deref
  end.

(* ===================================================================== *)
(** ** package vault: Secret, Metadata, Timestamp *)
(* ===================================================================== *)

(** A [Timestamp] is an instant, in nanoseconds since the Unix epoch. *)
Definition Timestamp : Type := Z.

Record Metadata : Type := {
  CreatedAt : option Timestamp;
  ModifiedAt : option Timestamp;
  ExpiresAt : option Timestamp;
  Version : string;
  Tags : gmap string string;
  Labels : list string;
  Provider : string;
  Path : string;
  (** [map[string]any]: each value is kept as its JSON text. *)
  Extra : gmap string string
}.

Record Secret : Type := {
  Value : string;
  ValueBytes : list byte;
  Fields : gmap string string;
  SecretMetadata : Metadata
}.

Definition emptyMetadata : Metadata :=
  {| CreatedAt := None; ModifiedAt := None; ExpiresAt := None; Version := "";
     Tags := ∅; Labels := []; Provider := ""; Path := ""; Extra := ∅ |}.

Definition with_CreatedAt (t : option Timestamp) (m : Metadata) : Metadata :=
  {| CreatedAt := t; ModifiedAt := ModifiedAt m; ExpiresAt := ExpiresAt m;
     Version := Version m; Tags := Tags m; Labels := Labels m;
     Provider := Provider m; Path := Path m; Extra := Extra m |}.

Definition with_ModifiedAt (t : option Timestamp) (m : Metadata) : Metadata :=
  {| CreatedAt := CreatedAt m; ModifiedAt := t; ExpiresAt := ExpiresAt m;
     Version := Version m; Tags := Tags m; Labels := Labels m;
     Provider := Provider m; Path := Path m; Extra := Extra m |}.

Definition with_Metadata (m : Metadata) (s : Secret) : Secret :=
  {| Value := Value s; ValueBytes := ValueBytes s; Fields := Fields s;
     SecretMetadata := m |}.

(** [vault.ErrSecretNotFound] *)
Definition ErrSecretNotFound : error := errors_New "secret not found".

(** [Secret.String]: the bytes take precedence over the string value. *)
Definition Secret_String (s : Secret) : string :=
  if (0 <? length (ValueBytes s))%nat then string_of_list_byte (ValueBytes s)
  else Value s.

(* ===================================================================== *)
(** ** package store: Argon2 parameters, vault files *)
(* ===================================================================== *)

Record Argon2Params : Type := {
  a2Time : N;      (* uint32 *)
  a2Memory : N;    (* uint32, KiB *)
  a2Threads : N;   (* uint8 *)
  a2KeyLen : N     (* uint32 *)
}.

Definition DefaultArgon2Params : Argon2Params :=
  {| a2Time := 3; a2Memory := 65536; a2Threads := 4; a2KeyLen := 32 |}.

Record VaultMeta : Type := {
  metaVersion : Z;
  metaCreatedAt : Timestamp;
  metaSalt : option (list byte);   (* a nil slice is [None] *)
  metaArgon2Params : Argon2Params;
  metaVerification : string
}.

Record VaultData : Type := {
  Secrets : gmap string string   (* path -> encrypted secret JSON *)
}.

Definition verificationMagic : string := "omnivault-v1".

#[global] Instance byte_eq_dec : EqDecision byte := Byte.byte_eq_dec.
#[global] Instance byte_countable : Countable byte :=
  inj_countable Byte.to_N Byte.of_N Byte.of_to_N.
#[global] Instance Argon2Params_eq_dec : EqDecision Argon2Params.
Proof. solve_decision. Defined.
#[global] Instance Metadata_eq_dec : EqDecision Metadata.
Proof. solve_decision. Defined.
#[global] Instance Secret_eq_dec : EqDecision Secret.
Proof. solve_decision. Defined.
#[global] Instance VaultMeta_eq_dec : EqDecision VaultMeta.
Proof. solve_decision. Defined.
#[global] Instance VaultData_eq_dec : EqDecision VaultData.
Proof. solve_decision. Defined.

(* ===================================================================== *)
(** ** Library functions the code calls *)
(* ===================================================================== *)

(** Go compares strings byte by byte ([a < b], used by [sort.Strings]). *)
Fixpoint str_ltb (a b : string) : bool :=
  match a, b with
  | _, EmptyString => false
  | EmptyString, String _ _ => true
  | String x a', String y b' =>
      (nat_of_ascii x <? nat_of_ascii y)%nat
      || (Nat.eqb (nat_of_ascii x) (nat_of_ascii y) && str_ltb a' b')
  end.

Definition str_le (a b : string) : Prop := str_ltb b a = false.
Definition str_lt (a b : string) : Prop := str_ltb a b = true.

#[global] Instance str_le_dec : RelDecision str_le.
Proof. intros a b. unfold str_le. apply _. Defined.

(** [strings.HasPrefix(s, prefix)] *)
Definition strings_HasPrefix (s prefix : string) : bool := String.prefix prefix s.

(** The functions of other packages that the store calls.  They are kept
    abstract; what the proofs need of them is stated in [ExternalLaws]. *)
Class Externals : Type := {
  (** [argon2.IDKey(password, salt, time, memory, threads, keyLen)] *)
  argon2_IDKey : list byte -> list byte -> N -> N -> N -> N -> list byte;
  (** AES-GCM under [key]: [Seal] gives ciphertext followed by the tag. *)
  gcm_Seal : list byte -> list byte -> list byte -> list byte;
  gcm_Open : list byte -> list byte -> list byte -> option (list byte);
  base64_EncodeToString : list byte -> string;
  base64_DecodeString : string -> option (list byte);
  json_Marshal_Secret : Secret -> option string;
  json_Unmarshal_Secret : string -> option Secret;
  json_Marshal_VaultData : option VaultData -> string;
  json_Unmarshal_VaultData : string -> option VaultData;
  json_MarshalIndent_VaultMeta : option VaultMeta -> string;
  json_Unmarshal_VaultMeta : string -> option VaultMeta;
  filepath_Dir : string -> string;
  sort_Strings : list string -> list string;
  (** the order in which [for k, v := range m] visits a map *)
  map_range : gmap string string -> list (string * string)
}.

(** [aes.NewCipher] accepts keys of 16, 24 or 32 bytes. *)
Definition aes_key_ok (k : list byte) : bool :=
  let n := length k in
  Nat.eqb n 16 || Nat.eqb n 24 || Nat.eqb n 32.

(** [gcm.NonceSize()] of the standard GCM. *)
Definition NonceSize : nat := 12.

(** A zeroed buffer of the same length. *)
Definition zeroed (b : list byte) : list byte := replicate (length b) Byte.x00.

(* ===================================================================== *)
(** ** The environment: files, memory, randomness, clock *)
(* ===================================================================== *)

(** File-system calls that change the file system. *)
Inductive Syscall : Type :=
| SysMkdirAll (dir : string)
| SysOpenTrunc (name : string)            (* O_WRONLY|O_CREATE|O_TRUNC *)
| SysWrite (name : string) (data : string)
| SysClose (name : string)
| SysRename (oldpath newpath : string).

#[global] Instance Syscall_eq_dec : EqDecision Syscall.
Proof. solve_decision. Defined.

Record World : Type := {
  files : gmap string string;     (* regular files and their contents *)
  wfault : gset string;           (* paths that cannot be created or opened for writing *)
  rfault : gset string;           (* existing paths that cannot be read *)
  syslog : list Syscall;          (* the calls made so far, oldest first *)
  heap : list (list byte);        (* key buffers, by address *)
  objects : list Secret;          (* Secret objects held by callers, by address *)
  entropy : list (list byte);     (* what the next reads of crypto/rand deliver *)
  clock : list Timestamp          (* what the next readings of the clock are *)
}.

Definition set_files (f : gmap string string) (w : World) : World :=
  {| files := f; wfault := wfault w; rfault := rfault w; syslog := syslog w;
     heap := heap w; objects := objects w; entropy := entropy w; clock := clock w |}.
Definition set_syslog (l : list Syscall) (w : World) : World :=
  {| files := files w; wfault := wfault w; rfault := rfault w; syslog := l;
     heap := heap w; objects := objects w; entropy := entropy w; clock := clock w |}.
Definition set_heap (h : list (list byte)) (w : World) : World :=
  {| files := files w; wfault := wfault w; rfault := rfault w; syslog := syslog w;
     heap := h; objects := objects w; entropy := entropy w; clock := clock w |}.
Definition set_objects (o : list Secret) (w : World) : World :=
  {| files := files w; wfault := wfault w; rfault := rfault w; syslog := syslog w;
     heap := heap w; objects := o; entropy := entropy w; clock := clock w |}.
Definition set_entropy (e : list (list byte)) (w : World) : World :=
  {| files := files w; wfault := wfault w; rfault := rfault w; syslog := syslog w;
     heap := heap w; objects := objects w; entropy := e; clock := clock w |}.
Definition set_clock (c : list Timestamp) (w : World) : World :=
  {| files := files w; wfault := wfault w; rfault := rfault w; syslog := syslog w;
     heap := heap w; objects := objects w; entropy := entropy w; clock := c |}.

(** The effect of one call on the files. *)
Definition apply_syscall (c : Syscall) (fs : gmap string string) : gmap string string :=
  match c with
  | SysMkdirAll _ => fs
  | SysOpenTrunc name => <[name := ""]> fs
  | SysWrite name data => <[name := default "" (fs !! name) ++ data]> fs
  | SysClose _ => fs
  | SysRename oldpath newpath =>
      match fs !! oldpath with
      | Some c => <[newpath := c]> (delete oldpath fs)
      | None => fs
      end
  end.

(** The files after a sequence of calls. *)
Definition replay (cs : list Syscall) (fs : gmap string string) : gmap string string :=
  foldl (fun fs c => apply_syscall c fs) fs cs.

Definition do_syscall (c : Syscall) : M World unit :=
  modify (fun w => set_syslog (syslog w ++ [c]) (set_files (apply_syscall c (files w)) w)).

Definition permission_denied (op name : string) : error :=
  fmt_Errorf (op ++ " " ++ name) (errors_New "permission denied").
Definition ErrNotExist (name : string) : error :=
  fmt_Errorf ("open " ++ name) (errors_New "no such file or directory").
Definition io_error (name : string) : error :=
  fmt_Errorf ("read " ++ name) (errors_New "input/output error").

(** [os.IsNotExist(err)] *)
Definition os_IsNotExist (e : error) : bool :=
  match e with
  | fmt_Errorf _ (errors_New msg) => bool_decide (msg = "no such file or directory")
  | _ => false
  end.

(** [_, err := os.Stat(name); err == nil] *)
Definition os_Stat_ok (name : string) : M World bool :=
  fun w => (Ret (bool_decide (is_Some (files w !! name))), w).

Definition os_MkdirAll (dir : string) : M World unit :=
  w <- get_state;;
  if bool_decide (dir ∈ wfault w) then fail (permission_denied "mkdir" dir)
  else do_syscall (SysMkdirAll dir).

(** [os.WriteFile]: open with truncation, write, close.  Each of the three
    is a call of its own; another process may read the file in between. *)
Definition os_WriteFile (name : string) (data : string) : M World unit :=
  w <- get_state;;
  if bool_decide (name ∈ wfault w) then fail (permission_denied "open" name)
  else
    do_syscall (SysOpenTrunc name);;;
    do_syscall (SysWrite name data);;;
    do_syscall (SysClose name).

Definition os_ReadFile (name : string) : M World string :=
  w <- get_state;;
  match files w !! name with
  | None => fail (ErrNotExist name)
  | Some c => if bool_decide (name ∈ rfault w) then fail (io_error name) else ret c
  end.

(** [rand.Read(b)] with [len(b) = n]: the next delivery of the random
    source, which fails when it cannot fill the buffer. *)
Definition rand_Read (n : nat) : M World (list byte) :=
  w <- get_state;;
  match entropy w with
  | [] => fail (errors_New "crypto/rand: no entropy available")
  | r :: rest =>
      put_state (set_entropy rest w);;;
      if (n <=? length r)%nat then ret (take n r)
      else fail (errors_New "crypto/rand: short read")
  end.

(** [time.Now()] *)
Definition time_Now : M World Timestamp :=
  w <- get_state;;
  match clock w with
  | [] => ret 0
  | t :: rest => put_state (set_clock rest w);;; ret t
  end.

(** [vault.Now()]: a fresh [*Timestamp] holding the current time. *)
Definition vault_Now : M World Timestamp := time_Now.

(** A new buffer; its address is returned. *)
Definition alloc_buf (b : list byte) : M World nat :=
  w <- get_state;;
  put_state (set_heap (heap w ++ [b]) w);;;
  ret (length (heap w)).

Definition read_buf (a : nat) : M World (list byte) :=
  w <- get_state;; deref (heap w !! a).

(** [for i := range b { b[i] = 0 }] *)
Definition zero_buf (a : nat) : M World unit :=
  b <- read_buf a;;
  modify (fun w => set_heap (<[a := zeroed b]> (heap w)) w).

Definition new_object (s : Secret) : M World nat :=
  w <- get_state;;
  put_state (set_objects (objects w ++ [s]) w);;;
  ret (length (objects w)).

Definition read_object (p : nat) : M World Secret :=
  w <- get_state;; deref (objects w !! p).

Definition write_object (p : nat) (s : Secret) : M World unit :=
  _ <- read_object p;;
  modify (fun w => set_objects (<[p := s]> (objects w)) w).

(* ===================================================================== *)
(** ** crypto.go: the crypto session *)
(* ===================================================================== *)

Record Crypto : Type := {
  params : Argon2Params;
  salt : list byte;
  key : option nat     (* address of the derived-key buffer; nil when locked *)
}.

#[global] Instance Crypto_eq_dec : EqDecision Crypto.
Proof. solve_decision. Defined.

Definition set_key (k : option nat) (c : Crypto) : Crypto :=
  {| params := params c; salt := salt c; key := k |}.

Definition errLocked : error := errors_New "vault is locked".

Section CryptoSession.
Context `{Ext : Externals}.

(** [NewCrypto(salt, params)]; a nil [salt] asks for a fresh random one. *)
Definition NewCrypto (salt0 : option (list byte)) (ps : Argon2Params) : M World Crypto :=
  s <- match salt0 with
       | None => wrap "failed to generate salt" (rand_Read 32)
       | Some s => ret s
       end;;
  if (length s <? 16)%nat then fail (errors_New "salt must be at least 16 bytes")
  else ret {| params := ps; salt := s; key := None |}.

Definition Crypto_Salt (c : Crypto) : list byte := salt c.
Definition Crypto_Params (c : Crypto) : Argon2Params := params c.

(** [DeriveKey]: [argon2.IDKey] panics when the number of passes or the
    degree of parallelism is below one, and, when it extracts the key, when
    the key length is zero ([blake2b.New(0, nil)] returns a nil digest,
    which is then written to); otherwise it returns a fresh slice. *)
Definition DeriveKey (c : Crypto) (password : string) : M World nat :=
  if (a2Time (params c) <? 1)%N then panic "argon2: number of rounds too small"
  else if (a2Threads (params c) <? 1)%N then panic "argon2: parallelism degree too low"
  else if (a2KeyLen (params c) <? 1)%N then panic nil_deref
  else alloc_buf (argon2_IDKey (list_byte_of_string password) (salt c)
                    (a2Time (params c)) (a2Memory (params c))
                    (a2Threads (params c)) (a2KeyLen (params c))).

Definition Crypto_Unlock (c : Crypto) (password : string) : M World Crypto :=
  a <- DeriveKey c password;;
  ret (set_key (Some a) c).

Definition Crypto_Lock (c : Crypto) : M World Crypto :=
  match key c with
  | Some a => zero_buf a;;; ret (set_key None c)
  | None => ret c
  end.

Definition IsUnlocked (c : Crypto) : bool :=
  match key c with
  | Some _ => true
  | None => false
  end.

(** [aes.NewCipher(c.key)] followed by [cipher.NewGCM(block)]; the latter
    cannot fail on an AES block. *)
Definition new_gcm (k : list byte) : M World unit :=
  if aes_key_ok k then ret tt
  else fail (errors_New "crypto/aes: invalid key size").

Definition Encrypt (c : Crypto) (plaintext : list byte) : M World string :=
  match key c with
  | None => fail errLocked
  | Some a =>
      k <- read_buf a;;
      wrap "failed to create cipher" (new_gcm k);;;
      nonce <- wrap "failed to generate nonce" (rand_Read NonceSize);;
      ret (base64_EncodeToString (nonce ++ gcm_Seal k nonce plaintext))
  end.

Definition Decrypt (c : Crypto) (encoded : string) : M World (list byte) :=
  match key c with
  | None => fail errLocked
  | Some a =>
      k <- read_buf a;;
      match base64_DecodeString encoded with
      | None => fail (fmt_Errorf "failed to decode ciphertext"
                        (errors_New "illegal base64 data"))
      | Some ciphertext =>
          wrap "failed to create cipher" (new_gcm k);;;
          if (length ciphertext <? NonceSize)%nat
          then fail (errors_New "ciphertext too short")
          else
            match gcm_Open k (take NonceSize ciphertext) (drop NonceSize ciphertext) with
            | None => fail (fmt_Errorf "failed to decrypt"
                              (errors_New "cipher: message authentication failed"))
            | Some plaintext => ret plaintext
            end
      end
  end.

Definition EncryptString (c : Crypto) (plaintext : string) : M World string :=
  Encrypt c (list_byte_of_string plaintext).

Definition DecryptString (c : Crypto) (encoded : string) : M World string :=
  plaintext <- Decrypt c encoded;;
  ret (string_of_list_byte plaintext).

(** The body of [VerifyPassword] once the temporary key is derived. *)
Definition verify_with_key (k : list byte) (verificationBlob : string) : bool :=
  match base64_DecodeString verificationBlob with
  | None => false
  | Some ciphertext =>
      if negb (aes_key_ok k) then false
      else if (length ciphertext <? NonceSize)%nat then false
      else
        match gcm_Open k (take NonceSize ciphertext) (drop NonceSize ciphertext) with
        | None => false
        | Some plaintext =>
            (* subtle.ConstantTimeCompare(plaintext, magic) == 1 *)
            bool_decide (plaintext = list_byte_of_string verificationMagic)
        end
  end.

(** [VerifyPassword]: the deferred loop zeroes the temporary key on every
    way out. *)
Definition VerifyPassword (c : Crypto) (password verificationBlob : string) : M World bool :=
  a <- DeriveKey c password;;
  k <- read_buf a;;
  let r := verify_with_key k verificationBlob in
  zero_buf a;;;
  ret r.

Definition CreateVerificationBlob (c : Crypto) : M World string :=
  EncryptString c verificationMagic.

End CryptoSession.

(* ===================================================================== *)
(** ** The encrypted store *)
(* ===================================================================== *)

(** [EncryptedStore]; the mutex is left out: each method body runs under the
    store's exclusive or shared lock and is embedded as one uninterrupted
    transition of the store. *)
Record EncryptedStore : Type := {
  vaultPath : string;
  metaPath : string;
  crypto : option Crypto;
  meta : option VaultMeta;
  data : option VaultData;
  dirty : bool;
  autoSave : bool;
  unlockTime : Timestamp
}.

#[global] Instance EncryptedStore_eq_dec : EqDecision EncryptedStore.
Proof. solve_decision. Defined.

Definition NewEncryptedStore (vaultPath metaPath : string) : EncryptedStore :=
  {| vaultPath := vaultPath; metaPath := metaPath; crypto := None; meta := None;
     data := None; dirty := false; autoSave := true; unlockTime := 0 |}.

Definition set_crypto (c : option Crypto) (s : EncryptedStore) : EncryptedStore :=
  {| vaultPath := vaultPath s; metaPath := metaPath s; crypto := c; meta := meta s;
     data := data s; dirty := dirty s; autoSave := autoSave s; unlockTime := unlockTime s |}.
Definition set_meta (m : option VaultMeta) (s : EncryptedStore) : EncryptedStore :=
  {| vaultPath := vaultPath s; metaPath := metaPath s; crypto := crypto s; meta := m;
     data := data s; dirty := dirty s; autoSave := autoSave s; unlockTime := unlockTime s |}.
Definition set_data (d : option VaultData) (s : EncryptedStore) : EncryptedStore :=
  {| vaultPath := vaultPath s; metaPath := metaPath s; crypto := crypto s; meta := meta s;
     data := d; dirty := dirty s; autoSave := autoSave s; unlockTime := unlockTime s |}.
Definition set_dirty (b : bool) (s : EncryptedStore) : EncryptedStore :=
  {| vaultPath := vaultPath s; metaPath := metaPath s; crypto := crypto s; meta := meta s;
     data := data s; dirty := b; autoSave := autoSave s; unlockTime := unlockTime s |}.
Definition set_unlockTime (t : Timestamp) (s : EncryptedStore) : EncryptedStore :=
  {| vaultPath := vaultPath s; metaPath := metaPath s; crypto := crypto s; meta := meta s;
     data := data s; dirty := dirty s; autoSave := autoSave s; unlockTime := t |}.

(** The store together with the environment it runs in. *)
Record State : Type := {
  store : EncryptedStore;
  world : World
}.

(** A computation on the environment, run from a method of the store. *)
Definition io {A} (m : M World A) : M State A :=
  fun st =>
    let (r, w') := m (world st) in
    (r, {| store := store st; world := w' |}).

Definition the_store : M State EncryptedStore :=
  fun st => (Ret (store st), st).

Definition upd (f : EncryptedStore -> EncryptedStore) : M State unit :=
  fun st => (Ret tt, {| store := f (store st); world := world st |}).

(** [v, err := f()] with both results kept as values. *)
Definition attempt {S A} (m : M S A) : M S (error + A) :=
  fun s =>
    match m s with
    | (Ret a, s') => (Ret (inr a), s')
    | (Fail e, s') => (Ret (inl e), s')
    | (Panic p, s') => (Panic p, s')
    end.

Section Store.
Context `{Ext : Externals}.

Definition VaultExists : M State bool :=
  s <- the_store;;
  io (os_Stat_ok (metaPath s)).

Definition saveMeta : M State unit :=
  s <- the_store;;
  io (os_MkdirAll (filepath_Dir (metaPath s)));;;
  let data := json_MarshalIndent_VaultMeta (meta s) in
  io (os_WriteFile (metaPath s) data).

Definition loadMeta : M State unit :=
  s <- the_store;;
  data <- io (os_ReadFile (metaPath s));;
  match json_Unmarshal_VaultMeta data with
  | None => fail (errors_New "invalid character in vault metadata")
  | Some m => upd (set_meta (Some m))
  end.

Definition saveData : M State unit :=
  s <- the_store;;
  io (os_MkdirAll (filepath_Dir (vaultPath s)));;;
  let data := json_Marshal_VaultData (data s) in
  io (os_WriteFile (vaultPath s) data);;;
  upd (set_dirty false).

Definition loadData : M State unit :=
  s <- the_store;;
  r <- attempt (io (os_ReadFile (vaultPath s)));;
  match r with
  | inl err =>
      if os_IsNotExist err
      then upd (set_data (Some {| Secrets := ∅ |}))   (* new vault, no data yet *)
      else fail err
  | inr data =>
      match json_Unmarshal_VaultData data with
      | None => fail (errors_New "invalid character in vault data")
      | Some vaultData =>
          (* a nil [Secrets] is replaced by an empty map; both are [∅] here *)
          upd (set_data (Some vaultData))
      end
  end.

Definition Initialize (password : string) : M State unit :=
  exists_ <- VaultExists;;
  if exists_ then fail (errors_New "vault already exists")
  else
    crypto <- wrap "failed to create crypto" (io (NewCrypto None DefaultArgon2Params));;
    crypto <- io (Crypto_Unlock crypto password);;
    verification <-
      catch (io (CreateVerificationBlob crypto))
            (fun err => io (Crypto_Lock crypto);;;
                        fail (fmt_Errorf "failed to create verification" err));;
    now <- io time_Now;;
    upd (set_meta (Some {| metaVersion := 1;
                           metaCreatedAt := now;
                           metaSalt := Some (Crypto_Salt crypto);
                           metaArgon2Params := Crypto_Params crypto;
                           metaVerification := verification |}));;;
    upd (set_data (Some {| Secrets := ∅ |}));;;
    upd (set_crypto (Some crypto));;;
    now' <- io time_Now;;
    upd (set_unlockTime now');;;
    wrap "failed to save metadata" saveMeta;;;
    wrap "failed to save data" saveData.

Definition Unlock (password : string) : M State unit :=
  exists_ <- VaultExists;;
  if negb exists_ then fail (errors_New "vault does not exist, run init first")
  else
    wrap "failed to load metadata" loadMeta;;;
    s <- the_store;;
    m <- deref (meta s);;
    crypto <- wrap "failed to create crypto"
                (io (NewCrypto (metaSalt m) (metaArgon2Params m)));;
    ok <- io (VerifyPassword crypto password (metaVerification m));;
    if negb ok then fail (errors_New "invalid password")
    else
      crypto <- io (Crypto_Unlock crypto password);;
      upd (set_crypto (Some crypto));;;
      now <- io time_Now;;
      upd (set_unlockTime now);;;
      catch loadData
            (fun err => io (Crypto_Lock crypto);;;
                        upd (set_crypto None);;;
                        fail (fmt_Errorf "failed to load vault data" err)).

Definition Lock : M State unit :=
  s <- the_store;;
  match crypto s with
  | None => ret tt
  | Some c =>
      (if dirty s then wrap "failed to save data" saveData else ret tt);;;
      io (Crypto_Lock c);;;
      upd (set_crypto None);;;
      upd (set_data None);;;
      upd (set_dirty false)
  end.

Definition isLockedUnsafe (s : EncryptedStore) : bool :=
  match crypto s with
  | None => true
  | Some c => negb (IsUnlocked c)
  end.

Definition IsLocked : M State bool :=
  s <- the_store;; ret (isLockedUnsafe s).

Definition Get (path : string) : M State Secret :=
  s <- the_store;;
  if isLockedUnsafe s then fail errLocked
  else
    d <- deref (data s);;
    match Secrets d !! path with
    | None => fail ErrSecretNotFound
    | Some encrypted =>
        c <- deref (crypto s);;
        decrypted <- wrap "failed to decrypt secret" (io (DecryptString c encrypted));;
        match json_Unmarshal_Secret decrypted with
        | None => fail (fmt_Errorf "failed to unmarshal secret"
                          (errors_New "invalid character in secret"))
        | Some secret => ret secret
        end
    end.

(** The timestamps [Set] writes into the caller's secret. *)
Definition stamp (now : Timestamp) (sec : Secret) : Secret :=
  let md := SecretMetadata sec in
  let md := match CreatedAt md with
            | None => with_CreatedAt (Some now) md
            | Some _ => md
            end in
  with_Metadata (with_ModifiedAt (Some now) md) sec.

(** [Set(ctx, path, secret)]; [secret] is the address of the caller's object. *)
Definition Store_Set (path : string) (secret : nat) : M State unit :=
  s <- the_store;;
  if isLockedUnsafe s then fail errLocked
  else
    now <- io vault_Now;;
    sec <- io (read_object secret);;
    io (write_object secret (stamp now sec));;;
    sec <- io (read_object secret);;
    data_ <- match json_Marshal_Secret sec with
             | None => fail (fmt_Errorf "failed to marshal secret"
                               (errors_New "json: unsupported value"))
             | Some data_ => ret data_
             end;;
    c <- deref (crypto s);;
    encrypted <- wrap "failed to encrypt secret" (io (EncryptString c data_));;
    d <- deref (data s);;
    upd (set_data (Some {| Secrets := <[path := encrypted]> (Secrets d) |}));;;
    upd (set_dirty true);;;
    if autoSave s then saveData else ret tt.

Definition Delete (path : string) : M State unit :=
  s <- the_store;;
  if isLockedUnsafe s then fail errLocked
  else
    d <- deref (data s);;
    upd (set_data (Some {| Secrets := delete path (Secrets d) |}));;;
    upd (set_dirty true);;;
    if autoSave s then saveData else ret tt.

Definition Store_Exists (path : string) : M State bool :=
  s <- the_store;;
  if isLockedUnsafe s then fail errLocked
  else
    d <- deref (data s);;
    ret (bool_decide (is_Some (Secrets d !! path))).

(** The loop of [List]: keep the paths with the prefix, in visiting order. *)
Definition collect_paths (prefix : string) (kvs : list (string * string)) : list string :=
  foldl (fun paths kv =>
           if bool_decide (prefix = "") || strings_HasPrefix (fst kv) prefix
           then (paths ++ [fst kv])%list else paths)
        [] kvs.

Definition Store_List (prefix : string) : M State (list string) :=
  s <- the_store;;
  if isLockedUnsafe s then fail errLocked
  else
    d <- deref (data s);;
    ret (sort_Strings (collect_paths prefix (map_range (Secrets d)))).

Definition SecretCount : M State nat :=
  s <- the_store;;
  match data s with
  | None => ret 0%nat
  | Some d => ret (size (Secrets d))
  end.

Definition Close : M State unit := Lock.

(** The loop of [ChangePassword]: decrypt with the old key, encrypt with the
    new one; on the first failure the new session is locked and the error
    returned. *)
Fixpoint reencrypt (old new : Crypto) (kvs : list (string * string))
         (newSecrets : gmap string string) : M World (gmap string string) :=
  match kvs with
  | [] => ret newSecrets
  | (path, encrypted) :: rest =>
      decrypted <-
        catch (DecryptString old encrypted)
              (fun err => Crypto_Lock new;;;
                          fail (fmt_Errorf ("failed to decrypt secret " ++ path) err));;
      reEncrypted <-
        catch (EncryptString new decrypted)
              (fun err => Crypto_Lock new;;;
                          fail (fmt_Errorf ("failed to re-encrypt secret " ++ path) err));;
      reencrypt old new rest (<[path := reEncrypted]> newSecrets)
  end.

Definition ChangePassword (oldPassword newPassword : string) : M State unit :=
  s <- the_store;;
  m <- deref (meta s);;          (* the argument [s.meta.Verification] *)
  c <- deref (crypto s);;        (* [c.salt] in [DeriveKey], reached first *)
  ok <- io (VerifyPassword c oldPassword (metaVerification m));;
  if negb ok then fail (errors_New "invalid current password")
  else
    newCrypto <- wrap "failed to create crypto" (io (NewCrypto None DefaultArgon2Params));;
    newCrypto <- io (Crypto_Unlock newCrypto newPassword);;
    verification <-
      catch (io (CreateVerificationBlob newCrypto))
            (fun err => io (Crypto_Lock newCrypto);;;
                        fail (fmt_Errorf "failed to create verification" err));;
    d <- deref (data s);;
    newSecrets <- io (reencrypt c newCrypto (map_range (Secrets d)) ∅);;
    upd (set_meta (Some {| metaVersion := metaVersion m;
                           metaCreatedAt := metaCreatedAt m;
                           metaSalt := Some (Crypto_Salt newCrypto);
                           metaArgon2Params := Crypto_Params newCrypto;
                           metaVerification := verification |}));;;
    upd (set_data (Some {| Secrets := newSecrets |}));;;
    io (Crypto_Lock c);;;
    upd (set_crypto (Some newCrypto));;;
    wrap "failed to save metadata" saveMeta;;;
    wrap "failed to save data" saveData.

End Store.

(* ===================================================================== *)
(** ** The daemon: handlers of [/secret/<path>] *)
(* ===================================================================== *)

Record SetSecretRequest : Type := {
  reqValue : string;
  reqFields : gmap string string;
  reqTags : gmap string string
}.

(** [SecretResponse]; a zero [time.Time] is [None]. *)
Record SecretResponse : Type := {
  respPath : string;
  respValue : string;
  respFields : gmap string string;
  respTags : gmap string string;
  respCreatedAt : option Timestamp;
  respUpdatedAt : option Timestamp
}.

Inductive Body : Type :=
| SuccessResponse (success : bool) (message : string)
| ErrorResponse (err : string) (code : string)
| SecretBody (r : SecretResponse).

Record Reply : Type := {
  status : Z;
  body : Body
}.

Definition ErrCodeVaultLocked : string := "VAULT_LOCKED".
Definition ErrCodeSecretNotFound : string := "SECRET_NOT_FOUND".
Definition ErrCodeInvalidRequest : string := "INVALID_REQUEST".
Definition ErrCodeInternalError : string := "INTERNAL_ERROR".

Definition StatusOK : Z := 200.
Definition StatusBadRequest : Z := 400.
Definition StatusForbidden : Z := 403.
Definition StatusNotFound : Z := 404.
Definition StatusMethodNotAllowed : Z := 405.
Definition StatusInternalServerError : Z := 500.

Definition writeJSON (st : Z) (b : Body) : Reply := {| status := st; body := b |}.
Definition writeError (st : Z) (message code : string) : Reply :=
  writeJSON st (ErrorResponse message code).

(** [strings.TrimPrefix(s, prefix)] *)
Definition strings_TrimPrefix (s prefix : string) : string :=
  if strings_HasPrefix s prefix
  then substring (String.length prefix) (String.length s - String.length prefix) s
  else s.

Section Daemon.
Context `{Ext : Externals}.

(** The auto-lock timer that the handlers re-arm is not part of the state
    here; [resetAutoLock] has no effect on the store. *)
Definition getSecret (path : string) : M State Reply :=
  r <- attempt (Get path);;
  match r with
  | inl err =>
      if bool_decide (err = ErrSecretNotFound)
      then ret (writeError StatusNotFound "secret not found" ErrCodeSecretNotFound)
      else ret (writeError StatusInternalServerError (Error err) ErrCodeInternalError)
  | inr secret =>
      ret (writeJSON StatusOK (SecretBody
             {| respPath := path;
                respValue := Secret_String secret;
                respFields := Fields secret;
                respTags := Tags (SecretMetadata secret);
                respCreatedAt := CreatedAt (SecretMetadata secret);
                respUpdatedAt := ModifiedAt (SecretMetadata secret) |}))
  end.

(** [req] is the decoded request body, [None] when decoding fails. *)
Definition setSecret (path : string) (req : option SetSecretRequest) : M State Reply :=
  match req with
  | None => ret (writeError StatusBadRequest "invalid request body" ErrCodeInvalidRequest)
  | Some req =>
      secret <- io (new_object
                      {| Value := reqValue req;
                         ValueBytes := [];
                         Fields := reqFields req;
                         SecretMetadata :=
                           {| CreatedAt := None; ModifiedAt := None; ExpiresAt := None;
                              Version := ""; Tags := reqTags req; Labels := [];
                              Provider := ""; Path := ""; Extra := ∅ |} |});;
      r <- attempt (Store_Set path secret);;
      match r with
      | inl err => ret (writeError StatusInternalServerError (Error err) ErrCodeInternalError)
      | inr _ => ret (writeJSON StatusOK (SuccessResponse true "secret saved"))
      end
  end.

Definition deleteSecret (path : string) : M State Reply :=
  r <- attempt (Delete path);;
  match r with
  | inl err => ret (writeError StatusInternalServerError (Error err) ErrCodeInternalError)
  | inr _ => ret (writeJSON StatusOK (SuccessResponse true "secret deleted"))
  end.

Definition handleSecret (method urlPath : string) (req : option SetSecretRequest)
  : M State Reply :=
  let path := strings_TrimPrefix urlPath "/secret/" in
  if bool_decide (path = "")
  then ret (writeError StatusBadRequest "path is required" ErrCodeInvalidRequest)
  else
    locked <- IsLocked;;
    if locked
    then ret (writeError StatusForbidden "vault is locked" ErrCodeVaultLocked)
    else if bool_decide (method = "GET") then getSecret path
    else if bool_decide (method = "PUT") then setSecret path req
    else if bool_decide (method = "DELETE") then deleteSecret path
    else ret (writeError StatusMethodNotAllowed "method not allowed" "").

End Daemon.

(* ===================================================================== *)
(** ** What the store relies on from the libraries *)
(* ===================================================================== *)

(** [Timestamp.MarshalJSON] formats with [time.RFC3339], which has no
    fractional seconds, and [UnmarshalJSON] parses that text: an instant comes
    back rounded down to the whole second. *)
Definition rfc3339 (t : Timestamp) : Timestamp := t / 1000000000 * 1000000000.

(** What is left of a secret after [json.Marshal] and [json.Unmarshal]. *)
Definition json_view (s : Secret) : Secret :=
  let md := SecretMetadata s in
  with_Metadata
    {| CreatedAt := rfc3339 <$> CreatedAt md;
       ModifiedAt := rfc3339 <$> ModifiedAt md;
       ExpiresAt := rfc3339 <$> ExpiresAt md;
       Version := Version md; Tags := Tags md; Labels := Labels md;
       Provider := Provider md; Path := Path md; Extra := Extra md |} s.

Section Laws.
Context `{Ext : Externals}.

(** [encoding/json] gives this secret back, timestamps to the second.  It
    holds of the secrets whose strings are valid UTF-8 (the encoder replaces
    other bytes). *)
Definition json_roundtrips (s : Secret) : Prop :=
  exists text, json_Marshal_Secret s = Some text
               /\ json_Unmarshal_Secret text = Some (json_view s).

Class ExternalLaws : Prop := {
  argon2_length : forall pw slt t m th kl,
    length (argon2_IDKey pw slt t m th kl) = N.to_nat kl;
  gcm_Open_Seal : forall k nonce plaintext,
    gcm_Open k nonce (gcm_Seal k nonce plaintext) = Some plaintext;
  base64_Decode_Encode : forall b,
    base64_DecodeString (base64_EncodeToString b) = Some b;
  sort_Strings_sorted : forall l, Sorted str_le (sort_Strings l);
  sort_Strings_perm : forall l, sort_Strings l ≡ₚ l;
  map_range_perm : forall m, map_range m ≡ₚ map_to_list m
}.
End Laws.
Arguments ExternalLaws Ext : clear implicits.

(* ===================================================================== *)
(** ** A reference implementation of the library functions

    A small executable stand-in for the libraries, used to run the store on
    concrete inputs: the key is the password followed by the salt, cut or
    padded to the key length; sealing prefixes the key to the plaintext and
    opening checks that prefix; base64 is the identity on bytes; the JSON
    codecs write a value as the hexadecimal digits of its code. *)
(* ===================================================================== *)

Module Ref.

(** A code as text: its hexadecimal digits. *)
Definition pos_to_string (p : positive) : string :=
  NilEmpty.string_of_uint (Pos.to_hex_uint p).

Definition string_to_pos (s : string) : option positive :=
  match NilEmpty.uint_of_string s with
  | Some d => match Pos.of_hex_uint d with
              | Npos p => Some p
              | N0 => None
              end
  | None => None
  end.

Definition Metadata_fields (m : Metadata) : list positive :=
  [encode (CreatedAt m); encode (ModifiedAt m); encode (ExpiresAt m);
   encode (Version m); encode (Tags m); encode (Labels m);
   encode (Provider m); encode (Path m); encode (Extra m)].

Definition Metadata_of_fields (l : list positive) : option Metadata :=
  match l with
  | [a; b; c; d; e; f; g; h; i] =>
      a ← decode a; b ← decode b; c ← decode c; d ← decode d; e ← decode e;
      f ← decode f; g ← decode g; h ← decode h; i ← decode i;
      Some {| CreatedAt := a; ModifiedAt := b; ExpiresAt := c; Version := d;
              Tags := e; Labels := f; Provider := g; Path := h; Extra := i |}
  | _ => None
  end.

Definition Secret_fields (s : Secret) : list positive :=
  [encode (Value s); encode (ValueBytes s); encode (Fields s);
   encode (Metadata_fields (SecretMetadata s))].

Definition Secret_of_fields (l : list positive) : option Secret :=
  match l with
  | [a; b; c; d] =>
      a ← decode a; b ← decode b; c ← decode c; d ← decode d; d ← Metadata_of_fields d;
      Some {| Value := a; ValueBytes := b; Fields := c; SecretMetadata := d |}
  | _ => None
  end.

Definition Secret_to_text (s : Secret) : string :=
  pos_to_string (encode (Secret_fields s)).
Definition Secret_of_text (t : string) : option Secret :=
  p ← string_to_pos t; l ← decode p; Secret_of_fields l.

Definition Params_fields (p : Argon2Params) : list N :=
  [a2Time p; a2Memory p; a2Threads p; a2KeyLen p].
Definition Params_of_fields (l : list N) : option Argon2Params :=
  match l with
  | [a; b; c; d] => Some {| a2Time := a; a2Memory := b; a2Threads := c; a2KeyLen := d |}
  | _ => None
  end.

Definition VaultMeta_fields (m : VaultMeta) : list positive :=
  [encode (metaVersion m); encode (metaCreatedAt m); encode (metaSalt m);
   encode (Params_fields (metaArgon2Params m)); encode (metaVerification m)].
Definition VaultMeta_of_fields (l : list positive) : option VaultMeta :=
  match l with
  | [a; b; c; d; e] =>
      a ← decode a; b ← decode b; c ← decode c; d ← decode d; d ← Params_of_fields d;
      e ← decode e;
      Some {| metaVersion := a; metaCreatedAt := b; metaSalt := c;
              metaArgon2Params := d; metaVerification := e |}
  | _ => None
  end.

(** [json.Unmarshal] of [null] leaves the zero value in place. *)
Definition zeroVaultData : VaultData := {| Secrets := ∅ |}.
Definition zeroVaultMeta : VaultMeta :=
  {| metaVersion := 0; metaCreatedAt := 0; metaSalt := None;
     metaArgon2Params := {| a2Time := 0; a2Memory := 0; a2Threads := 0; a2KeyLen := 0 |};
     metaVerification := "" |}.

Definition VaultMeta_to_text (m : option VaultMeta) : string :=
  pos_to_string (encode (VaultMeta_fields <$> m)).
Definition VaultMeta_of_text (t : string) : option VaultMeta :=
  p ← string_to_pos t; o ← decode p;
  match o with
  | None => Some zeroVaultMeta
  | Some l => VaultMeta_of_fields l
  end.

Definition VaultData_to_text (d : option VaultData) : string :=
  pos_to_string (encode (Secrets <$> d)).
Definition VaultData_of_text (t : string) : option VaultData :=
  p ← string_to_pos t; o ← decode p;
  match o with
  | None => Some zeroVaultData
  | Some m => Some {| Secrets := m |}
  end.

Definition argon2 (password slt : list byte) (t m th kl : N) : list byte :=
  take (N.to_nat kl) (password ++ slt ++ replicate (N.to_nat kl) Byte.x00).

Definition Seal (k nonce plaintext : list byte) : list byte := k ++ plaintext.

Definition Open (k nonce ciphertext : list byte) : option (list byte) :=
  if bool_decide (take (length k) ciphertext = k)
  then Some (drop (length k) ciphertext)
  else None.

(** The parent directory: what precedes the last ["/"]. *)
Fixpoint before_last_slash (s : string) : option string :=
  match s with
  | EmptyString => None
  | String c r =>
      match before_last_slash r with
      | Some d => Some (String c d)
      | None => if Ascii.eqb c "/" then Some "" else None
      end
  end.

Definition Dir (s : string) : string :=
  match before_last_slash s with
  | None => "."
  | Some "" => "/"
  | Some d => d
  end.

#[global] Instance externals : Externals := {|
  argon2_IDKey := argon2;
  gcm_Seal := Seal;
  gcm_Open := Open;
  base64_EncodeToString := string_of_list_byte;
  base64_DecodeString := fun s => Some (list_byte_of_string s);
  json_Marshal_Secret := fun s => Some (Secret_to_text s);
  json_Unmarshal_Secret := fun t => json_view <$> Secret_of_text t;
  json_Marshal_VaultData := VaultData_to_text;
  json_Unmarshal_VaultData := VaultData_of_text;
  json_MarshalIndent_VaultMeta := VaultMeta_to_text;
  json_Unmarshal_VaultMeta := VaultMeta_of_text;
  filepath_Dir := Dir;
  sort_Strings := merge_sort str_le;
  map_range := map_to_list
|}.

End Ref.


(* ===================================================================== *)
(** ** Sample runs

    States obtained by running the store and the daemon's handlers, on the
    reference implementation, from a fresh store. *)
(* ===================================================================== *)

Module Sample.
Import Ref.

Definition vault_enc : string := "/home/u/.omnivault/vault.enc".
Definition vault_meta : string := "/home/u/.omnivault/vault.meta".

(** An environment without the vault files, with random bytes and clock
    readings to come. *)
Definition w_fresh : World :=
  {| files := ∅; wfault := ∅; rfault := ∅; syslog := []; heap := []; objects := [];
     entropy := [replicate 32 "s"%byte; replicate 32 "a"%byte; replicate 32 "b"%byte;
                 replicate 32 "c"%byte; replicate 32 "d"%byte; replicate 32 "t"%byte;
                 replicate 32 "e"%byte; replicate 32 "f"%byte; replicate 32 "g"%byte];
     clock := [1000000000; 2000000000; 3500000000; 4200000000; 5000000000;
               6000000000; 7000000000] |}.

(** The same, except that the data file cannot be written. *)
Definition w_readonly : World :=
  {| files := ∅; wfault := {[vault_enc]}; rfault := ∅; syslog := []; heap := [];
     objects := []; entropy := entropy w_fresh; clock := clock w_fresh |}.

Definition st_fresh : State :=
  {| store := NewEncryptedStore vault_enc vault_meta; world := w_fresh |}.
Definition st_readonly : State :=
  {| store := NewEncryptedStore vault_enc vault_meta; world := w_readonly |}.

Definition put (v : string) : option SetSecretRequest :=
  Some {| reqValue := v; reqFields := ∅; reqTags := ∅ |}.

(** A secret object held by a caller of the store, at address 0. *)
Definition secret0 : Secret :=
  {| Value := "s3cret";
     ValueBytes := ["k"%byte; "e"%byte; "y"%byte];
     Fields := {[ "user" := "admin" ]};
     SecretMetadata :=
       {| CreatedAt := None; ModifiedAt := None; ExpiresAt := None; Version := "";
          Tags := {[ "env" := "prod" ]}; Labels := []; Provider := ""; Path := "";
          Extra := ∅ |} |}.

Definition st_held : State :=
  Eval vm_compute in snd (io (new_object secret0) st_fresh).

(** [init("correcthorse")] with that object around *)
Definition st_init_held : State :=
  Eval vm_compute in snd (Initialize "correcthorse" st_held).

(** [init("correcthorse")] *)
Definition st_init : State :=
  Eval vm_compute in snd (Initialize "correcthorse" st_fresh).

(** then [PUT /secret/db/pw {value: "s3cret"}] *)
Definition st_s1 : State :=
  Eval vm_compute in snd (handleSecret "PUT" "/secret/db/pw" (put "s3cret") st_init).

(** then a second [PUT] to the same path *)
Definition st_s1' : State :=
  Eval vm_compute in snd (handleSecret "PUT" "/secret/db/pw" (put "n3wer") st_s1).

(** [init], then three secrets under [a/] and [b/] *)
Definition st_abc : State :=
  Eval vm_compute in
    snd ((handleSecret "PUT" "/secret/b/1" (put "x");;;
          handleSecret "PUT" "/secret/a/2" (put "y");;;
          handleSecret "PUT" "/secret/a/1" (put "z")) st_init).

(** [init], [PUT], then [lock] *)
Definition st_locked : State :=
  Eval vm_compute in snd (Lock st_s1).

(** With the data file unwritable: [init] (which fails in its last step),
    then a [PUT] (which fails to save and leaves the store dirty). *)
Definition st_ro_init : State :=
  Eval vm_compute in snd (Initialize "correcthorse" st_readonly).
Definition st_ro_dirty : State :=
  Eval vm_compute in snd (handleSecret "PUT" "/secret/db/pw" (put "s3cret") st_ro_init).

End Sample.


(* ===================================================================== *)
(** ** The daemon: the other handlers *)
(* ===================================================================== *)

(** [SecretListItem]; a zero [time.Time] is [None]. *)
Record SecretListItem : Type := {
  itemPath : string;
  itemHasValue : bool;
  itemHasFields : bool;
  itemTags : list string;
  itemUpdatedAt : option Timestamp
}.

(** [ListResponse] *)
Record ListResponse : Type := {
  listSecrets : list SecretListItem;
  listCount : nat
}.

(** The reply of [/secrets]: an error or the list. *)
Inductive ListBody : Type :=
| ListError (err : string) (code : string)
| ListOK (r : ListResponse).

Record ListReply : Type := {
  listStatus : Z;
  listBody : ListBody
}.

Definition ErrCodeVaultNotFound : string := "VAULT_NOT_FOUND".
Definition ErrCodeInvalidPassword : string := "INVALID_PASSWORD".
Definition ErrCodeAlreadyExists : string := "ALREADY_EXISTS".

Definition StatusUnauthorized : Z := 401.
Definition StatusConflict : Z := 409.

(** [strings.Contains(s, substr)] *)
Fixpoint strings_Contains (s substr : string) : bool :=
  String.prefix substr s
  || match s with
     | EmptyString => false
     | String _ rest => strings_Contains rest substr
     end.

Section DaemonHandlers.
Context `{Ext : Externals}.

(** [handleInit]; [req] is the password of the decoded body, [None] when
    decoding fails. *)
Definition handleInit (method : string) (req : option string) : M State Reply :=
  if negb (bool_decide (method = "POST"))
  then ret (writeError StatusMethodNotAllowed "method not allowed" "")
  else
    match req with
    | None => ret (writeError StatusBadRequest "invalid request body" ErrCodeInvalidRequest)
    | Some password =>
        if (String.length password <? 8)%nat
        then ret (writeError StatusBadRequest "password must be at least 8 characters"
                    ErrCodeInvalidRequest)
        else
          exists_ <- VaultExists;;
          if exists_
          then ret (writeError StatusConflict "vault already exists" ErrCodeAlreadyExists)
          else
            r <- attempt (Initialize password);;
            match r with
            | inl err => ret (writeError StatusInternalServerError (Error err)
                                ErrCodeInternalError)
            | inr _ => ret (writeJSON StatusOK (SuccessResponse true "vault initialized"))
            end
    end.

(** [handleUnlock] *)
Definition handleUnlock (method : string) (req : option string) : M State Reply :=
  if negb (bool_decide (method = "POST"))
  then ret (writeError StatusMethodNotAllowed "method not allowed" "")
  else
    match req with
    | None => ret (writeError StatusBadRequest "invalid request body" ErrCodeInvalidRequest)
    | Some password =>
        exists_ <- VaultExists;;
        if negb exists_
        then ret (writeError StatusNotFound "vault does not exist, run init first"
                    ErrCodeVaultNotFound)
        else
          r <- attempt (Unlock password);;
          match r with
          | inl err =>
              if strings_Contains (Error err) "invalid password"
              then ret (writeError StatusUnauthorized "invalid password"
                          ErrCodeInvalidPassword)
              else ret (writeError StatusInternalServerError (Error err)
                          ErrCodeInternalError)
          | inr _ => ret (writeJSON StatusOK (SuccessResponse true "vault unlocked"))
          end
    end.

(** [handleLock] *)
Definition handleLock (method : string) : M State Reply :=
  if negb (bool_decide (method = "POST"))
  then ret (writeError StatusMethodNotAllowed "method not allowed" "")
  else
    r <- attempt Lock;;
    match r with
    | inl err => ret (writeError StatusInternalServerError (Error err) ErrCodeInternalError)
    | inr _ => ret (writeJSON StatusOK (SuccessResponse true "vault locked"))
    end.

(** The item [handleSecrets] builds for a secret it could read. *)
Definition list_item (path : string) (secret : Secret) : SecretListItem :=
  {| itemPath := path;
     itemHasValue := negb (bool_decide (Value secret = ""))
                     || (0 <? length (ValueBytes secret))%nat;
     itemHasFields := (0 <? size (Fields secret))%nat;
     itemTags := (map_range (Tags (SecretMetadata secret))).*1;
     itemUpdatedAt := ModifiedAt (SecretMetadata secret) |}.

(** The loop of [handleSecrets]: a path whose secret cannot be read is
    skipped ([continue]). *)
Fixpoint list_items (paths : list string) (items : list SecretListItem)
  : M State (list SecretListItem) :=
  match paths with
  | [] => ret items
  | path :: rest =>
      r <- attempt (Get path);;
      match r with
      | inl _ => list_items rest items
      | inr secret => list_items rest (items ++ [list_item path secret])%list
      end
  end.

(** [handleSecrets]; [prefix] is the query parameter, [""] when absent. *)
Definition handleSecrets (method prefix : string) : M State ListReply :=
  if negb (bool_decide (method = "GET"))
  then ret {| listStatus := StatusMethodNotAllowed;
              listBody := ListError "method not allowed" "" |}
  else
    locked <- IsLocked;;
    if locked
    then ret {| listStatus := StatusForbidden;
                listBody := ListError "vault is locked" ErrCodeVaultLocked |}
    else
      r <- attempt (Store_List prefix);;
      match r with
      | inl err => ret {| listStatus := StatusInternalServerError;
                          listBody := ListError (Error err) ErrCodeInternalError |}
      | inr paths =>
          items <- list_items paths [];;
          ret {| listStatus := StatusOK;
                 listBody := ListOK {| listSecrets := items;
                                       listCount := length items |} |}
      end.

End DaemonHandlers.

(* ===================================================================== *)
(** ** package vault: fields of a secret, secret references *)
(* ===================================================================== *)

(** [Secret.GetField]: the empty name and ["value"] name the main value; a
    field that is not there reads as the empty string. *)
Definition Secret_GetField (s : Secret) (name : string) : string :=
  if bool_decide (name = "") || bool_decide (name = "value") then Value s
  else
    match Fields s !! name with
    | Some v => v
    | None => ""
    end.

(** [Secret.SetField]: the secret after the call. *)
Definition Secret_SetField (name value : string) (s : Secret) : Secret :=
  if bool_decide (name = "") || bool_decide (name = "value")
  then {| Value := value; ValueBytes := ValueBytes s; Fields := Fields s;
          SecretMetadata := SecretMetadata s |}
  else {| Value := Value s; ValueBytes := ValueBytes s;
          Fields := <[name := value]> (Fields s);
          SecretMetadata := SecretMetadata s |}.

(** [Secret.Bytes] *)
Definition Secret_Bytes (s : Secret) : list byte :=
  if (0 <? length (ValueBytes s))%nat then ValueBytes s
  else list_byte_of_string (Value s).

(** [for i, c := range s { if c == ch { return s[:i] } }]: what precedes
    the first [ch], when [ch] occurs.  The loop decodes runes, but [ch] is an
    ASCII character here, and no byte of a longer or of an invalid UTF-8
    sequence equals one; [i] is the byte offset. *)
Fixpoint before_first (ch : ascii) (s : string) : option string :=
  match s with
  | EmptyString => None
  | String c rest =>
      if Ascii.eqb c ch then Some EmptyString
      else String c <$> before_first ch rest
  end.

(** [SecretRef.Scheme] *)
Definition SecretRef_Scheme (r : string) : string :=
  match before_first ":" r with
  | Some scheme => scheme
  | None => ""
  end.

(** [s[n:]] for [n <= len(s)] *)
Fixpoint string_drop (n : nat) (s : string) : string :=
  match n, s with
  | O, _ => s
  | S n', String _ rest => string_drop n' rest
  | S _, EmptyString => EmptyString
  end.

(** The loop of [SecretRef.Path]: [s[i+3:]] for the first [i] with
    [s[i] == ':' && s[i+1] == '/' && s[i+2] == '/'], where [i < len(s)-2]. *)
Fixpoint after_separator (s : string) : option string :=
  match s with
  | EmptyString => None
  | String c rest =>
      if Ascii.eqb c ":" && String.prefix "//" rest then Some (string_drop 2 rest)
      else after_separator rest
  end.

(** [SecretRef.Path]: what follows ["://"], up to the first ['#']; the
    whole reference when there is no ["://"]. *)
Definition SecretRef_Path (r : string) : string :=
  match after_separator r with
  | Some path =>
      match before_first "#" path with
      | Some p => p
      | None => path
      end
  | None => r
  end.

(** [for i := len(s)-1; i >= 0; i-- { if s[i] == ch { return s[i+1:] } }]:
    what follows the last [ch], when [ch] occurs. *)
Fixpoint after_last (ch : ascii) (s : string) : option string :=
  match s with
  | EmptyString => None
  | String c rest =>
      match after_last ch rest with
      | Some t => Some t
      | None => if Ascii.eqb c ch then Some rest else None
      end
  end.

(** [SecretRef.Fragment] *)
Definition SecretRef_Fragment (r : string) : string :=
  match after_last "#" r with
  | Some fragment => fragment
  | None => ""
  end.

(** [IsSecretRef] (resolver.go) *)
Definition IsSecretRef (s : string) : bool :=
  negb (bool_decide (SecretRef_Scheme s = ""))
  && (String.length (SecretRef_Scheme s) + 3 <? String.length s)%nat.

(* ===================================================================== *)
(** ** package vault: structured errors *)
(* ===================================================================== *)

Definition ErrClosed : error := errors_New "vault is closed".
Definition ErrReadOnly : error := errors_New "vault is read-only".

(** [VaultError] *)
Record VaultError : Type := {
  veOp : string;
  vePath : string;
  veProvider : string;
  veErr : error
}.

Definition NewVaultError (op path provider : string) (err : error) : VaultError :=
  {| veOp := op; vePath := path; veProvider := provider; veErr := err |}.

(** [VaultError.Error] *)
Definition VaultError_Error (e : VaultError) : string :=
  if negb (bool_decide (vePath e = ""))
  then veProvider e ++ ": " ++ veOp e ++ " " ++ vePath e ++ ": " ++ Error (veErr e)
  else veProvider e ++ ": " ++ veOp e ++ ": " ++ Error (veErr e).

(** [errors.Is(err, target)] along a chain built with [errors.New] and
    [%w]; errors are told apart by their text, which is enough for the
    sentinel errors of the package. *)
Fixpoint errors_Is (e target : error) : bool :=
  bool_decide (e = target)
  || match e with
     | fmt_Errorf _ cause => errors_Is cause target
     | errors_New _ => false
     end.

(** [VaultError.Is] *)
Definition VaultError_Is (e : VaultError) (target : error) : bool :=
  errors_Is (veErr e) target.

(* ===================================================================== *)
(** ** providers/memory: the in-memory provider *)
(* ===================================================================== *)

(** [Provider]; [memSecrets] is [None] for a nil map.  The map holds
    pointers to secrets that only the provider refers to; they are kept as
    values.  A copy made by [copySecret] still shares [Metadata.Extra] and
    the timestamps with its original: the statements below are about what
    the provider does, not about later writes through those. *)
Record MemProvider : Type := {
  memSecrets : option (gmap string Secret);
  memClosed : bool
}.

(** What a call of the provider does: return a value, return a
    [*VaultError], or panic. *)
Inductive vresult (A : Type) : Type :=
| VOk (a : A)
| VErr (e : VaultError)
| VPanic (msg : string).
Arguments VOk {A} a.
Arguments VErr {A} e.
Arguments VPanic {A} msg.

(** [memory.New] *)
Definition Mem_New : MemProvider := {| memSecrets := Some ∅; memClosed := false |}.

Definition Mem_Name : string := "memory".

(** [copySecret] of a secret that is not nil: field by field. *)
Definition copySecret (secret : Secret) : Secret :=
  let md := SecretMetadata secret in
  {| Value := Value secret;
     ValueBytes := if (0 <? length (ValueBytes secret))%nat then ValueBytes secret else [];
     Fields := Fields secret;
     SecretMetadata :=
       {| CreatedAt := CreatedAt md; ModifiedAt := ModifiedAt md; ExpiresAt := ExpiresAt md;
          Version := Version md; Tags := Tags md; Labels := Labels md;
          Provider := Provider md; Path := Path md; Extra := Extra md |} |}.

(** The reading of the clock as a value. *)
Definition read_clock (w : World) : Timestamp * World :=
  match time_Now w with
  | (Ret t, w') => (t, w')
  | (_, w') => (0, w')
  end.

(** [Provider.Get] *)
Definition Mem_Get (path : string) (p : MemProvider) : vresult Secret :=
  if memClosed p then VErr (NewVaultError "Get" path Mem_Name ErrClosed)
  else
    match default ∅ (memSecrets p) !! path with
    | None => VErr (NewVaultError "Get" path Mem_Name ErrSecretNotFound)
    | Some secret => VOk (copySecret secret)
    end.

(** [Provider.Set]; [secret] is what the caller's pointer refers to, [None]
    for a nil pointer. *)
Definition Mem_Set (path : string) (secret : option Secret) (p : MemProvider) (w : World)
  : vresult unit * MemProvider * World :=
  if memClosed p then (VErr (NewVaultError "Set" path Mem_Name ErrClosed), p, w)
  else
    match secret with
    | None => (VPanic nil_deref, p, w)       (* [stored.Metadata] with [stored == nil] *)
    | Some secret =>
        let stored := copySecret secret in
        let '(created, w1) :=
          match CreatedAt (SecretMetadata stored) with
          | None => let (t, w1) := read_clock w in (Some t, w1)
          | Some t => (Some t, w)
          end in
        let '(modified, w2) := read_clock w1 in
        let md := SecretMetadata stored in
        let stored :=
          {| Value := Value stored; ValueBytes := ValueBytes stored; Fields := Fields stored;
             SecretMetadata :=
               {| CreatedAt := created; ModifiedAt := Some modified;
                  ExpiresAt := ExpiresAt md; Version := Version md; Tags := Tags md;
                  Labels := Labels md; Provider := Mem_Name; Path := path;
                  Extra := Extra md |} |} in
        match memSecrets p with
        | None => (VPanic "assignment to entry in nil map", p, w2)
        | Some m =>
            (VOk tt, {| memSecrets := Some (<[path := stored]> m); memClosed := memClosed p |}, w2)
        end
    end.

(** [Provider.Delete] *)
Definition Mem_Delete (path : string) (p : MemProvider) : vresult unit * MemProvider :=
  if memClosed p then (VErr (NewVaultError "Delete" path Mem_Name ErrClosed), p)
  else (VOk tt, {| memSecrets := delete path <$> memSecrets p; memClosed := memClosed p |}).

(** [Provider.Exists] *)
Definition Mem_Exists (path : string) (p : MemProvider) : vresult bool :=
  if memClosed p then VErr (NewVaultError "Exists" path Mem_Name ErrClosed)
  else VOk (bool_decide (is_Some (default ∅ (memSecrets p) !! path))).

(** The order in which [for path := range p.secrets] visits the map. *)
Class SecretRange : Type :=
  secret_range : gmap string Secret -> list (string * Secret).

(** [Provider.List] *)
Definition Mem_List `{SecretRange} (prefix : string) (p : MemProvider)
  : vresult (list string) :=
  if memClosed p then VErr (NewVaultError "List" prefix Mem_Name ErrClosed)
  else
    VOk (foldl (fun results kv =>
                  if strings_HasPrefix (fst kv) prefix
                  then (results ++ [fst kv])%list else results)
               [] (secret_range (default ∅ (memSecrets p)))).

(** [Provider.Close] *)
Definition Mem_Close (p : MemProvider) : MemProvider :=
  {| memSecrets := None; memClosed := true |}.

(** [Provider.Clear] *)
Definition Mem_Clear (p : MemProvider) : MemProvider :=
  {| memSecrets := Some ∅; memClosed := memClosed p |}.

(** [Provider.Count] *)
Definition Mem_Count (p : MemProvider) : nat :=
  size (default ∅ (memSecrets p)).

(* ===================================================================== *)
(** ** resolver.go: resolving secret references *)
(* ===================================================================== *)

(** The errors of the resolver over the errors [E] of the providers. *)
Inductive ResolveError (E : Type) : Type :=
| InvalidSecretRef (uri : string)           (* ["%w: %s", ErrInvalidSecretRef, uri] *)
| ProviderNotRegistered (scheme : string)   (* ["%w: %s", ErrProviderNotRegistered, scheme] *)
| ProviderFailed (e : E).                   (* the provider's error, returned as it is *)
Arguments InvalidSecretRef {E} uri.
Arguments ProviderNotRegistered {E} scheme.
Arguments ProviderFailed {E} e.

Inductive rresult (E A : Type) : Type :=
| ROk (a : A)
| RErr (e : ResolveError E)
| RPanic (msg : string).
Arguments ROk {E A} a.
Arguments RErr {E A} e.
Arguments RPanic {E A} msg.

Section Resolver.
(** The registered providers are values of [V]; their state is kept in
    [S].  [vault_Get v path] is [v.Get(ctx, path)]: it returns an error of
    the provider or a pointer to a secret, which may be nil. *)
Context {V S E : Type} (vault_Get : V -> string -> S -> (E + option Secret) * S).

(** [Resolver.Register], [Resolver.Unregister], [Resolver.Get] on the map
    [r.providers]. *)
Definition Resolver_Register (scheme : string) (v : V) (r : gmap string V)
  : gmap string V := <[scheme := v]> r.
Definition Resolver_Unregister (scheme : string) (r : gmap string V)
  : gmap string V := delete scheme r.
Definition Resolver_Get (scheme : string) (r : gmap string V) : option V :=
  r !! scheme.

(** [Resolver.ResolveSecret] *)
Definition ResolveSecret (r : gmap string V) (uri : string) (st : S)
  : rresult E (option Secret) * S :=
  let scheme := SecretRef_Scheme uri in
  if bool_decide (scheme = "") then (RErr (InvalidSecretRef uri), st)
  else
    match r !! scheme with
    | None => (RErr (ProviderNotRegistered scheme), st)
    | Some v =>
        match vault_Get v (SecretRef_Path uri) st with
        | (inl err, st') => (RErr (ProviderFailed err), st')
        | (inr secret, st') =>
            let fragment := SecretRef_Fragment uri in
            match secret with
            | Some sec =>
                if negb (bool_decide (fragment = ""))
                then (ROk (Some {| Value := Secret_GetField sec fragment;
                                   ValueBytes := [];
                                   Fields := ∅;
                                   SecretMetadata := SecretMetadata sec |}), st')
                else (ROk (Some sec), st')
            | None => (ROk None, st')
            end
        end
    end.

(** [Resolver.Resolve]; [secret.String()] on a nil secret panics. *)
Definition Resolve (r : gmap string V) (uri : string) (st : S) : rresult E string * S :=
  match ResolveSecret r uri st with
  | (ROk (Some sec), st') => (ROk (Secret_String sec), st')
  | (ROk None, st') => (RPanic nil_deref, st')
  | (RErr e, st') => (RErr e, st')
  | (RPanic msg, st') => (RPanic msg, st')
  end.

(** [Resolver.ResolveString] *)
Definition ResolveString (r : gmap string V) (s : string) (st : S)
  : rresult E string * S :=
  if negb (IsSecretRef s) then (ROk s, st) else Resolve r s st.
End Resolver.

(* ===================================================================== *)
(** ** [encoding/json] and text that is not UTF-8

    [json.Marshal] writes a Go string as JSON text.  Bytes that do not start
    a valid UTF-8 encoding are replaced, each by U+FFFD (the encoder's
    [appendString] asks [utf8.DecodeRuneInString] and writes the escape of
    U+FFFD for a [RuneError] of width 1), and [json.Unmarshal] gives the replaced text
    back.  The reference implementation above keeps every byte; the one
    below differs from it in this respect only. *)
(* ===================================================================== *)

Module Utf8.

(** U+FFFD, encoded. *)
Definition replacement : string :=
  string_of_list_byte [Byte.xef; Byte.xbf; Byte.xbd].

(** The first byte of an encoding of more than one byte: the width of the
    encoding and the bounds of its second byte ([utf8.first] and
    [utf8.acceptRanges]). *)
Definition lead (b : N) : option (nat * (N * N)) :=
  if (b <? 194)%N then None                                 (* 80..C1 *)
  else if (b <=? 223)%N then Some (2%nat, (128, 191)%N)     (* C2..DF *)
  else if (b =? 224)%N then Some (3%nat, (160, 191)%N)      (* E0 *)
  else if (b =? 237)%N then Some (3%nat, (128, 159)%N)      (* ED *)
  else if (b <=? 239)%N then Some (3%nat, (128, 191)%N)     (* E1..EC, EE, EF *)
  else if (b =? 240)%N then Some (4%nat, (144, 191)%N)      (* F0 *)
  else if (b <=? 243)%N then Some (4%nat, (128, 191)%N)     (* F1..F3 *)
  else if (b =? 244)%N then Some (4%nat, (128, 143)%N)      (* F4 *)
  else None.                                                (* F5..FF *)

Definition between (bounds : N * N) (c : ascii) : bool :=
  (fst bounds <=? N_of_ascii c)%N && (N_of_ascii c <=? snd bounds)%N.

(** A continuation byte, [80..BF]. *)
Definition continuation (c : ascii) : bool := between (128, 191)%N c.

(** A string as it comes back from [json.Marshal] and [json.Unmarshal]. *)
Fixpoint ToValid (s : string) : string :=
  match s with
  | EmptyString => EmptyString
  | String b0 r1 =>
      if (N_of_ascii b0 <? 128)%N then String b0 (ToValid r1)
      else
        match lead (N_of_ascii b0), r1 with
        | Some (2%nat, bounds), String b1 r2 =>
            if between bounds b1
            then String b0 (String b1 (ToValid r2))
            else replacement ++ ToValid r1
        | Some (3%nat, bounds), String b1 (String b2 r3) =>
            if between bounds b1 && continuation b2
            then String b0 (String b1 (String b2 (ToValid r3)))
            else replacement ++ ToValid r1
        | Some (4%nat, bounds), String b1 (String b2 (String b3 r4)) =>
            if between bounds b1 && continuation b2 && continuation b3
            then String b0 (String b1 (String b2 (String b3 (ToValid r4))))
            else replacement ++ ToValid r1
        | _, _ => replacement ++ ToValid r1
        end
  end.

(** A [map[string]string]: the encoder writes the entries in the order of
    their keys, and the decoder keeps the last entry of a key. *)
Definition valid_map (m : gmap string string) : gmap string string :=
  foldl (fun acc k => <[ToValid k := ToValid (default "" (m !! k))]> acc) ∅
        (merge_sort str_le (map_to_list m).*1).

Definition valid_Secret (s : Secret) : Secret :=
  let md := SecretMetadata s in
  {| Value := ToValid (Value s);
     ValueBytes := ValueBytes s;
     Fields := valid_map (Fields s);
     SecretMetadata :=
       {| CreatedAt := CreatedAt md; ModifiedAt := ModifiedAt md;
          ExpiresAt := ExpiresAt md; Version := ToValid (Version md);
          Tags := valid_map (Tags md); Labels := ToValid <$> Labels md;
          Provider := ToValid (Provider md); Path := ToValid (Path md);
          Extra := valid_map (Extra md) |} |}.

Definition valid_VaultData (d : VaultData) : VaultData :=
  {| Secrets := valid_map (Secrets d) |}.

Definition externals : Externals := {|
  argon2_IDKey := Ref.argon2;
  gcm_Seal := Ref.Seal;
  gcm_Open := Ref.Open;
  base64_EncodeToString := string_of_list_byte;
  base64_DecodeString := fun s => Some (list_byte_of_string s);
  json_Marshal_Secret := fun s => Some (Ref.Secret_to_text (valid_Secret s));
  json_Unmarshal_Secret := fun t => json_view <$> Ref.Secret_of_text t;
  json_Marshal_VaultData := fun d => Ref.VaultData_to_text (valid_VaultData <$> d);
  json_Unmarshal_VaultData := Ref.VaultData_of_text;
  json_MarshalIndent_VaultMeta := Ref.VaultMeta_to_text;
  json_Unmarshal_VaultMeta := Ref.VaultMeta_of_text;
  filepath_Dir := Ref.Dir;
  sort_Strings := merge_sort str_le;
  map_range := map_to_list
|}.

(** A secret whose value is the single byte [FF], held by a caller of a new
    store at address 0. *)
Definition secret_ff : Secret :=
  {| Value := string_of_list_byte [Byte.xff];
     ValueBytes := [];
     Fields := ∅;
     SecretMetadata := emptyMetadata |}.

Definition st_held : State :=
  Eval vm_compute in snd (io (new_object secret_ff) Sample.st_fresh).

End Utf8.

(* ===================================================================== *)
(** ** Notions used in the statements *)
(* ===================================================================== *)

(** The reading the clock gives next. *)
Definition next_time (w : World) : Timestamp := hd 0 (clock w).

(** [argon2.IDKey] does not panic on these parameters. *)
Definition valid_params (ps : Argon2Params) : Prop :=
  (1 <= a2Time ps)%N /\ (1 <= a2Threads ps)%N /\ (1 <= a2KeyLen ps)%N.

(** The address a session holds points into the heap. *)
Definition key_allocated (c : Crypto) (w : World) : Prop :=
  match key c with
  | Some a => is_Some (heap w !! a)
  | None => True
  end.

Section Envelope.
Context `{Ext : Externals}.

(** The key [DeriveKey] computes for a password. *)
Definition derived_key (c : Crypto) (password : string) : list byte :=
  argon2_IDKey (list_byte_of_string password) (salt c)
    (a2Time (params c)) (a2Memory (params c))
    (a2Threads (params c)) (a2KeyLen (params c)).

(** What [Encrypt] returns for a key, a nonce and a plaintext. *)
Definition envelope (k nonce plaintext : list byte) : string :=
  base64_EncodeToString (nonce ++ gcm_Seal k nonce plaintext).
End Envelope.

Section Matching.
Context `{Ext : Externals}.

(** The verification blob opens, under key [k], to the magic string. *)
Definition opens_to_magic (k : list byte) (blob : string) : Prop :=
  exists ciphertext,
    base64_DecodeString blob = Some ciphertext
    /\ aes_key_ok k = true
    /\ (NonceSize <= length ciphertext)%nat
    /\ gcm_Open k (take NonceSize ciphertext) (drop NonceSize ciphertext)
       = Some (list_byte_of_string verificationMagic).

(** A password matches a blob when the key derived from it opens the blob. *)
Definition password_matches (c : Crypto) (password blob : string) : Prop :=
  opens_to_magic (derived_key c password) blob.
End Matching.

(** The session [Initialize] creates: default parameters, the salt drawn
    from the random source, the key at a fresh address. *)
Definition init_crypto (r1 : list byte) (a : nat) : Crypto :=
  {| params := DefaultArgon2Params; salt := take 32 r1; key := Some a |}.

(** The store holds a usable key: a session whose key buffer is allocated
    and has an AES key size, and the secrets map is loaded. *)
Record unlocked_with (st : State) (c : Crypto) (a : nat) (k : list byte)
       (d : VaultData) : Prop := {
  uw_crypto : crypto (store st) = Some c;
  uw_key : key c = Some a;
  uw_buf : heap (world st) !! a = Some k;
  uw_aes : aes_key_ok k = true;
  uw_data : data (store st) = Some d
}.

(** Writing the metadata file or the data file fails. *)
Definition write_blocked `{Ext : Externals} (s : EncryptedStore) (w : World) : Prop :=
  filepath_Dir (metaPath s) ∈ wfault w \/ metaPath s ∈ wfault w
  \/ filepath_Dir (vaultPath s) ∈ wfault w \/ vaultPath s ∈ wfault w.

(** Both files and their directories can be written. *)
Definition writable `{Ext : Externals} (s : EncryptedStore) (w : World) : Prop :=
  (filepath_Dir (metaPath s) ∉ wfault w) /\ (metaPath s ∉ wfault w)
  /\ (filepath_Dir (vaultPath s) ∉ wfault w) /\ (vaultPath s ∉ wfault w).


(** The two errors [ChangePassword] and [Initialize] return when writing the
    files fails. *)
Definition is_save_error (e : error) : bool :=
  match e with
  | fmt_Errorf ctx _ =>
      bool_decide (ctx = "failed to save metadata") || bool_decide (ctx = "failed to save data")
  | errors_New _ => false
  end.

(** Every byte of the buffer is zero. *)
Definition all_zero (b : list byte) : Prop := b = zeroed b.

(** The file-system calls made between two states of the environment. *)
Definition issued (before after : World) : list Syscall :=
  drop (length (syslog before)) (syslog after).

(** The states of the files another process can see while [calls] are made
    one after the other: before the first call, between two calls, after the
    last. *)
Definition observable (calls : list Syscall) (fs : gmap string string)
  : list (gmap string string) :=
  (fun n => replay (take n calls) fs) <$> seq 0 (S (length calls)).

(** The calls replace [target] by writing a temporary file and renaming it
    over [target], and never open or write [target] itself. *)
Definition temp_then_rename (target : string) (calls : list Syscall) : Prop :=
  exists tmp text pre post,
    tmp <> target
    /\ calls = (pre ++ SysRename tmp target :: post)%list
    /\ SysWrite tmp text ∈ pre
    /\ SysOpenTrunc target ∉ calls.

(** The calls of [os.MkdirAll] followed by [os.WriteFile]. *)
Definition write_calls (dir target text : string) : list Syscall :=
  [SysMkdirAll dir; SysOpenTrunc target; SysWrite target text; SysClose target].

(** The secret the [PUT] handler builds from a request body. *)
Definition request_secret (req : SetSecretRequest) : Secret :=
  {| Value := reqValue req;
     ValueBytes := [];
     Fields := reqFields req;
     SecretMetadata :=
       {| CreatedAt := None; ModifiedAt := None; ExpiresAt := None;
          Version := ""; Tags := reqTags req; Labels := [];
          Provider := ""; Path := ""; Extra := ∅ |} |}.

(** The [created_at] and [updated_at] of a [GET /secret/<path>] reply. *)
Definition reply_created_at (r : outcome Reply) : option Timestamp :=
  match r with
  | Ret {| body := SecretBody b |} => respCreatedAt b
  | _ => None
  end.

Definition reply_updated_at (r : outcome Reply) : option Timestamp :=
  match r with
  | Ret {| body := SecretBody b |} => respUpdatedAt b
  | _ => None
  end.

(** The status of a reply, and the value a [Get] returns, if any. *)
Definition reply_status (r : outcome Reply) : option Z :=
  match r with
  | Ret r => Some (status r)
  | _ => None
  end.

Definition value_of (r : outcome Secret) : option string :=
  match r with
  | Ret s => Some (Value s)
  | _ => None
  end.

(** The session of the store, if any, holds an allocated key buffer. *)
Definition store_key_allocated (st : State) : Prop :=
  match crypto (store st) with
  | Some c => key_allocated c (world st)
  | None => True
  end.

(** [Lock] has nothing to save, or can write the data file. *)
Definition lock_can_save `{Ext : Externals} (st : State) : Prop :=
  dirty (store st) = false
  \/ ((filepath_Dir (vaultPath (store st)) ∉ wfault (world st))
      /\ (vaultPath (store st) ∉ wfault (world st))).

(** *** States the store can be in *)

(** The calls of the store's interface. *)
Inductive Call : Type :=
| CallInitialize (password : string)
| CallUnlock (password : string)
| CallLock
| CallGet (path : string)
| CallSet (path : string) (secret : nat)
| CallDelete (path : string)
| CallExists (path : string)
| CallList (prefix : string)
| CallSecretCount
| CallIsLocked
| CallClose
| CallChangePassword (oldPassword newPassword : string).

(** The state a call leaves, whatever it returns. *)
Definition after `{Ext : Externals} (c : Call) (st : State) : State :=
  match c with
  | CallInitialize password => snd (Initialize password st)
  | CallUnlock password => snd (Unlock password st)
  | CallLock => snd (Lock st)
  | CallGet path => snd (Get path st)
  | CallSet path secret => snd (Store_Set path secret st)
  | CallDelete path => snd (Delete path st)
  | CallExists path => snd (Store_Exists path st)
  | CallList prefix => snd (Store_List prefix st)
  | CallSecretCount => snd (SecretCount st)
  | CallIsLocked => snd (IsLocked st)
  | CallClose => snd (Close st)
  | CallChangePassword oldPassword newPassword =>
      snd (ChangePassword oldPassword newPassword st)
  end.

(** The states reached from a new store by calls of the interface, while the
    environment (files, faults, random source, clock, the callers' objects)
    changes at will between the calls; the key buffers are the store's own. *)
Inductive reachable `{Ext : Externals} : State -> Prop :=
| reach_new vaultPath metaPath w :
    reachable {| store := NewEncryptedStore vaultPath metaPath; world := w |}
| reach_call c st :
    reachable st -> reachable (after c st)
| reach_env st w :
    reachable st -> heap w = heap (world st) ->
    reachable {| store := store st; world := w |}.

(** A session with parameters [argon2] accepts and an allocated key of an AES
    size. *)
Definition session_ready (c : Crypto) (w : World) : Prop :=
  valid_params (params c)
  /\ exists a k, key c = Some a /\ heap w !! a = Some k /\ aes_key_ok k = true.

(** If the store has a session, the session is ready and the metadata and the
    secrets map are loaded. *)
Definition store_ready (st : State) : Prop :=
  match crypto (store st) with
  | None => True
  | Some c =>
      session_ready c (world st)
      /\ is_Some (meta (store st)) /\ is_Some (data (store st))
  end.

(** What a call can do to the session: keep it (memory only grows), drop it,
    or install a ready one. *)
Definition effect (st st' : State) : Prop :=
  (crypto (store st') = crypto (store st)
   /\ (is_Some (meta (store st)) -> is_Some (meta (store st')))
   /\ (is_Some (data (store st)) -> is_Some (data (store st')))
   /\ exists zs, heap (world st') = (heap (world st) ++ zs)%list)
  \/ crypto (store st') = None
  \/ (exists c, crypto (store st') = Some c
                /\ session_ready c (world st')
                /\ is_Some (meta (store st')) /\ is_Some (data (store st'))).

(** Proof steps: unfold the monad, compute projections of explicit states. *)
Ltac go_proj :=
  cbv beta iota delta
      [world store
       files wfault rfault syslog heap objects entropy clock
       vaultPath metaPath crypto meta data dirty autoSave unlockTime
       params salt key
       set_files set_syslog set_heap set_objects set_entropy set_clock
       set_crypto set_meta set_data set_dirty set_unlockTime set_key] in *.

Ltac go_unf :=
  cbv beta iota zeta delta
    [bind ret fail panic catch wrap attempt get_state put_state modify deref
     io the_store upd negb].

Ltac go_red :=
  cbv beta iota zeta delta
    [bind ret fail panic catch wrap attempt get_state put_state modify io the_store upd deref
     os_Stat_ok os_MkdirAll os_WriteFile os_ReadFile do_syscall rand_Read time_Now vault_Now
     alloc_buf read_buf zero_buf new_object read_object write_object
     NewCrypto Crypto_Salt Crypto_Params DeriveKey Crypto_Unlock Crypto_Lock new_gcm
     Encrypt Decrypt EncryptString DecryptString VerifyPassword CreateVerificationBlob
     IsUnlocked isLockedUnsafe negb
     VaultExists saveMeta loadMeta saveData loadData Initialize Unlock Lock IsLocked
     Get Store_Set Delete Store_Exists Store_List SecretCount Close
     set_files set_syslog set_heap set_objects set_entropy set_clock
     set_crypto set_meta set_data set_dirty set_unlockTime set_key
     files wfault rfault syslog heap objects entropy clock
     store world vaultPath metaPath crypto meta data dirty autoSave unlockTime
     params salt key] in *.

Ltac inj_records :=
  match goal with
  | H : Build_World _ _ _ _ _ _ _ _ = Build_World _ _ _ _ _ _ _ _ |- _ =>
      injection H; clear H; intros; subst
  | H : Build_EncryptedStore _ _ _ _ _ _ _ _ = Build_EncryptedStore _ _ _ _ _ _ _ _ |- _ =>
      injection H; clear H; intros; subst
  end.

(** Follow every path of a method on an explicit state. *)
Ltac go_run :=
  repeat (go_red; first [inj_records | progress simplify_eq | case_match]).

(* ===================================================================== *)
(** ** Notions for the vault on disk *)
(* ===================================================================== *)

Section OnDisk.
Context `{Ext : Externals}.

(** The metadata file of the store can be read and parses to [m], which
    holds the salt [slt], of at least 16 bytes, and parameters [argon2]
    accepts. *)
Definition meta_on_disk (st : State) (m : VaultMeta) (slt : list byte) : Prop :=
  exists text,
    files (world st) !! metaPath (store st) = Some text
    /\ (metaPath (store st) ∉ rfault (world st))
    /\ json_Unmarshal_VaultMeta text = Some m
    /\ metaSalt m = Some slt /\ (16 <= length slt)%nat
    /\ valid_params (metaArgon2Params m).

(** The data file of the store can be read and parses to [d]. *)
Definition data_on_disk (st : State) (d : VaultData) : Prop :=
  exists text,
    files (world st) !! vaultPath (store st) = Some text
    /\ (vaultPath (store st) ∉ rfault (world st))
    /\ json_Unmarshal_VaultData text = Some d.

(** The data file exists but cannot be read, or does not parse. *)
Definition data_unusable (st : State) : Prop :=
  exists text,
    files (world st) !! vaultPath (store st) = Some text
    /\ (vaultPath (store st) ∈ rfault (world st)
        \/ json_Unmarshal_VaultData text = None).
End OnDisk.

(** The locked session [Unlock] builds from the metadata. *)
Definition session_of (m : VaultMeta) (slt : list byte) : Crypto :=
  {| params := metaArgon2Params m; salt := slt; key := None |}.

(** Follow every branch of a computation that is already unfolded. *)
Ltac go_cases := repeat (first [progress simplify_eq | case_match]).

(** Compute the projections of explicit states in one hypothesis. *)
Ltac go_proj_in H :=
  cbv beta iota delta
      [world store
       files wfault rfault syslog heap objects entropy clock
       vaultPath metaPath crypto meta data dirty autoSave unlockTime
       params salt key
       set_files set_syslog set_heap set_objects set_entropy set_clock
       set_crypto set_meta set_data set_dirty set_unlockTime set_key] in H.

Ltac go_unf_in H :=
  cbv beta iota zeta delta
    [bind ret fail panic catch wrap attempt get_state put_state modify deref
     io the_store upd negb] in H.

(** A call ended in a run-time panic. *)
Definition panics {A S : Type} (r : outcome A * S) : Prop :=
  exists msg, fst r = Panic msg.

(** [Get] returns a secret for the path. *)
Definition readable `{Ext : Externals} (st : State) (path : string) : bool :=
  match fst (Get path st) with
  | Ret _ => true
  | _ => false
  end.

(** The store answers "locked". *)
Definition locked (st : State) : Prop := isLockedUnsafe (store st) = true.

(** The character occurs in the string; the text occurs in the string. *)
Definition occurs (ch : ascii) (s : string) : Prop :=
  exists pre post, s = pre ++ String ch post.

Definition occurs_in (text s : string) : Prop :=
  exists pre post, s = pre ++ text ++ post.

(** Two field names that [GetField] and [SetField] take for the same slot:
    equal names, or two names of the main value. *)
Definition main_value_name (name : string) : Prop := name = "" \/ name = "value".

Definition same_slot (n1 n2 : string) : Prop :=
  n1 = n2 \/ (main_value_name n1 /\ main_value_name n2).
(* ===================================================================== *)
(** ** String order *)
(* ===================================================================== *)

Lemma str_ltb_irrefl a : str_ltb a a = false.
Proof.
  induction a as [|x a IH]; simpl; [reflexivity|].
  rewrite Nat.ltb_irrefl, Nat.eqb_refl, IH. reflexivity.
Qed.

Lemma str_ltb_trichotomy a b :
  str_ltb a b = false -> str_ltb b a = false -> a = b.
Proof.
  revert b. induction a as [|x a IH]; intros [|y b]; simpl; try congruence.
  rewrite !orb_false_iff, !andb_false_iff, !Nat.ltb_ge, !Nat.eqb_neq.
  intros [H1 H2] [H3 H4].
  assert (nat_of_ascii x = nat_of_ascii y) as E by lia.
  assert (x = y) as -> by
    (rewrite <- (ascii_nat_embedding x), <- (ascii_nat_embedding y), E; reflexivity).
  f_equal. apply IH.
  - destruct H2 as [H2|H2]; [congruence | exact H2].
  - destruct H4 as [H4|H4]; [congruence | exact H4].
Qed.

Lemma str_le_trans a b c : str_le a b -> str_le b c -> str_le a c.
Proof.
  unfold str_le. revert b c.
  induction a as [|x a IH]; intros [|y b] [|z c]; simpl; try congruence.
  rewrite !orb_false_iff, !andb_false_iff, !Nat.ltb_ge, !Nat.eqb_neq.
  intros [H1 H2] [H3 H4]. split; [lia|].
  destruct (decide (nat_of_ascii z = nat_of_ascii x)) as [E|E]; [right | left; exact E].
  assert (nat_of_ascii y = nat_of_ascii x) as E1 by lia.
  assert (nat_of_ascii z = nat_of_ascii y) as E2 by lia.
  destruct H2 as [H2|H2]; [congruence|].
  destruct H4 as [H4|H4]; [congruence|].
  exact (IH b c H2 H4).
Qed.

Lemma str_le_total a b : str_le a b \/ str_le b a.
Proof.
  unfold str_le. revert b.
  induction a as [|x a IH]; intros [|y b]; simpl; auto.
  rewrite !orb_false_iff, !andb_false_iff, !Nat.ltb_ge, !Nat.eqb_neq.
  destruct (lt_eq_lt_dec (nat_of_ascii x) (nat_of_ascii y)) as [[L|E]|G].
  - left. split; [lia | left; lia].
  - destruct (IH b) as [H|H]; [left | right]; (split; [lia | right; exact H]).
  - right. split; [lia | left; lia].
Qed.

#[global] Instance str_le_Transitive : Transitive str_le.
Proof. intros a b c. apply str_le_trans. Qed.

#[global] Instance str_le_Total : Total str_le.
Proof. intros a b. apply str_le_total. Qed.

Lemma str_le_neq_lt a b : str_le a b -> a <> b -> str_lt a b.
Proof.
  unfold str_le, str_lt. intros H N.
  destruct (str_ltb a b) eqn:E; [reflexivity|].
  exfalso. apply N. apply str_ltb_trichotomy; assumption.
Qed.

(** A list sorted for [<=] and free of repetitions is strictly increasing. *)
Lemma Sorted_le_NoDup_lt (l : list string) :
  Sorted str_le l -> NoDup l -> StronglySorted str_lt l.
Proof.
  intros S%Sorted_StronglySorted; [|apply _].
  induction S as [|x l S IH F]; intros N; [constructor|].
  apply NoDup_cons in N as [Nx N].
  constructor; [apply IH, N|].
  rewrite Forall_forall in *. intros y Hy.
  apply str_le_neq_lt; [apply F, Hy|].
  intros ->. apply Nx, Hy.
Qed.

(* ===================================================================== *)
(** ** The reference implementation satisfies the laws *)
(* ===================================================================== *)

Lemma Ref_string_to_pos_to p : Ref.string_to_pos (Ref.pos_to_string p) = Some p.
Proof.
  unfold Ref.string_to_pos, Ref.pos_to_string.
  rewrite NilEmpty.usu, Unsigned.of_to. reflexivity.
Qed.

Lemma Ref_Metadata_of_fields_to m :
  Ref.Metadata_of_fields (Ref.Metadata_fields m) = Some m.
Proof.
  destruct m. unfold Ref.Metadata_of_fields, Ref.Metadata_fields.
  cbn [mbind option_bind]. rewrite !decode_encode. reflexivity.
Qed.

Lemma Ref_Secret_of_text_to s : Ref.Secret_of_text (Ref.Secret_to_text s) = Some s.
Proof.
  unfold Ref.Secret_of_text, Ref.Secret_to_text.
  rewrite Ref_string_to_pos_to. cbn [mbind option_bind option_ret].
  rewrite decode_encode. cbn [mbind option_bind].
  destruct s. unfold Ref.Secret_of_fields, Ref.Secret_fields.
  cbn [mbind option_bind Value ValueBytes Fields SecretMetadata].
  rewrite !decode_encode. cbn [mbind option_bind].
  rewrite Ref_Metadata_of_fields_to. reflexivity.
Qed.

Lemma Ref_json_roundtrips s : @json_roundtrips Ref.externals s.
Proof.
  exists (Ref.Secret_to_text s). split; [reflexivity|].
  cbn. rewrite Ref_Secret_of_text_to. reflexivity.
Qed.

Lemma Ref_laws : ExternalLaws Ref.externals.
Proof.
  split;
    cbn [argon2_IDKey gcm_Open gcm_Seal base64_DecodeString base64_EncodeToString
         sort_Strings map_range Ref.externals].
  - intros pw slt t m th kl. unfold Ref.argon2.
    rewrite length_take, !length_app, length_replicate. lia.
  - intros k nonce plaintext. unfold Ref.Open, Ref.Seal.
    rewrite take_app_length, bool_decide_eq_true_2 by reflexivity.
    rewrite drop_app_length. reflexivity.
  - intros b. rewrite list_byte_of_string_of_list_byte. reflexivity.
  - intros l. apply Sorted_merge_sort. apply _.
  - intros l. apply merge_sort_Permutation.
  - reflexivity.
Qed.


(* ===================================================================== *)
(** ** The implementation that replaces invalid UTF-8 satisfies the laws *)
(* ===================================================================== *)

Lemma Utf8_laws : ExternalLaws Utf8.externals.
Proof.
  split;
    cbn [argon2_IDKey gcm_Open gcm_Seal base64_DecodeString base64_EncodeToString
         sort_Strings map_range Utf8.externals].
  - intros pw slt t m th kl. unfold Ref.argon2.
    rewrite length_take, !length_app, length_replicate. lia.
  - intros k nonce plaintext. unfold Ref.Open, Ref.Seal.
    rewrite take_app_length, bool_decide_eq_true_2 by reflexivity.
    rewrite drop_app_length. reflexivity.
  - intros b. rewrite list_byte_of_string_of_list_byte. reflexivity.
  - intros l. apply Sorted_merge_sort. apply _.
  - intros l. apply merge_sort_Permutation.
  - reflexivity.
Qed.

(** It gives back the secrets that the replacement leaves as they are. *)
Lemma Utf8_json_roundtrips s :
  Utf8.valid_Secret s = s -> @json_roundtrips Utf8.externals s.
Proof.
  intros H. exists (Ref.Secret_to_text s). split.
  - cbn [json_Marshal_Secret Utf8.externals]. rewrite H. reflexivity.
  - cbn [json_Unmarshal_Secret Utf8.externals]. rewrite Ref_Secret_of_text_to. reflexivity.
Qed.

(* ===================================================================== *)
(** ** Running the primitives *)
(* ===================================================================== *)

Lemma snoc_lookup {A} (l : list A) (x : A) : (l ++ [x])%list !! length l = Some x.
Proof. apply list_lookup_middle. reflexivity. Qed.

Lemma time_Now_run (w : World) :
  time_Now w = (Ret (next_time w), set_clock (tail (clock w)) w).
Proof. destruct w as [? ? ? ? ? ? ? [|t c]]; reflexivity. Qed.

Lemma rand_Read_run (n : nat) (w : World) r rest :
  entropy w = r :: rest -> (n <= length r)%nat ->
  rand_Read n w = (Ret (take n r), set_entropy rest w).
Proof.
  intros He Hn. unfold rand_Read, bind, get_state, put_state, ret, fail.
  rewrite He. apply Nat.leb_le in Hn. rewrite Hn. reflexivity.
Qed.

Lemma rand_Read_short (n : nat) (w : World) r rest :
  entropy w = r :: rest -> (length r < n)%nat ->
  exists e, rand_Read n w = (Fail e, set_entropy rest w).
Proof.
  intros He Hn. unfold rand_Read, bind, get_state, put_state, ret, fail.
  rewrite He. apply Nat.leb_gt in Hn. rewrite Hn. eauto.
Qed.

Lemma os_MkdirAll_run dir (w : World) :
  dir ∉ wfault w ->
  os_MkdirAll dir w
  = (Ret tt, set_syslog (syslog w ++ [SysMkdirAll dir]) w).
Proof.
  intros H. unfold os_MkdirAll, bind, get_state, do_syscall, modify.
  rewrite bool_decide_eq_false_2 by assumption.
  destruct w; reflexivity.
Qed.

Lemma os_MkdirAll_blocked dir (w : World) :
  dir ∈ wfault w ->
  os_MkdirAll dir w = (Fail (permission_denied "mkdir" dir), w).
Proof.
  intros H. unfold os_MkdirAll, bind, get_state.
  rewrite bool_decide_eq_true_2 by assumption. reflexivity.
Qed.

Lemma os_WriteFile_run name text (w : World) :
  name ∉ wfault w ->
  os_WriteFile name text w
  = (Ret tt,
     set_syslog (syslog w ++ [SysOpenTrunc name; SysWrite name text; SysClose name])
       (set_files (<[name := text]> (files w)) w)).
Proof.
  intros H. unfold os_WriteFile, bind, get_state, do_syscall, modify.
  rewrite bool_decide_eq_false_2 by assumption.
  destruct w. cbn. rewrite lookup_insert_eq, insert_insert_eq. cbn.
  rewrite <- !app_assoc. reflexivity.
Qed.

Lemma os_WriteFile_blocked name text (w : World) :
  name ∈ wfault w ->
  os_WriteFile name text w = (Fail (permission_denied "open" name), w).
Proof.
  intros H. unfold os_WriteFile, bind, get_state.
  rewrite bool_decide_eq_true_2 by assumption. reflexivity.
Qed.

Lemma os_ReadFile_run name text (w : World) :
  files w !! name = Some text -> name ∉ rfault w ->
  os_ReadFile name w = (Ret text, w).
Proof.
  intros H1 H2. unfold os_ReadFile, bind, get_state. rewrite H1.
  rewrite bool_decide_eq_false_2 by assumption. reflexivity.
Qed.

Lemma zero_buf_run a b (w : World) :
  heap w !! a = Some b ->
  zero_buf a w = (Ret tt, set_heap (<[a := zeroed b]> (heap w)) w).
Proof.
  intros H. unfold zero_buf, read_buf. go_unf. rewrite H. reflexivity.
Qed.

Section CryptoRuns.
Context `{Ext : Externals}.

Lemma NewCrypto_fresh_run ps (w : World) r rest :
  entropy w = r :: rest -> (32 <= length r)%nat ->
  NewCrypto None ps w
  = (Ret {| params := ps; salt := take 32 r; key := None |}, set_entropy rest w).
Proof.
  intros He Hn. unfold NewCrypto, bind, wrap, catch.
  rewrite (rand_Read_run 32 w r rest He Hn).
  rewrite length_take, Nat.min_l by assumption. reflexivity.
Qed.

Lemma NewCrypto_given_run slt ps (w : World) :
  (16 <= length slt)%nat ->
  NewCrypto (Some slt) ps w = (Ret {| params := ps; salt := slt; key := None |}, w).
Proof.
  intros Hn. unfold NewCrypto, bind, ret.
  apply Nat.ltb_ge in Hn. rewrite Hn. reflexivity.
Qed.

Lemma DeriveKey_run c password (w : World) :
  valid_params (params c) ->
  DeriveKey c password w
  = (Ret (length (heap w)), set_heap (heap w ++ [derived_key c password]) w).
Proof.
  intros (Ht & Hth & Hkl). unfold DeriveKey.
  apply N.ltb_ge in Ht, Hth, Hkl. rewrite Ht, Hth, Hkl. reflexivity.
Qed.

(** A key length of zero in the parameters makes [argon2.IDKey] panic. *)
Lemma DeriveKey_zero_length c password (w : World) :
  (1 <= a2Time (params c))%N -> (1 <= a2Threads (params c))%N ->
  a2KeyLen (params c) = 0%N ->
  DeriveKey c password w = (Panic nil_deref, w).
Proof.
  intros Ht Hth Hkl. unfold DeriveKey.
  apply N.ltb_ge in Ht, Hth. rewrite Ht, Hth, Hkl. reflexivity.
Qed.

Lemma Crypto_Unlock_run c password (w : World) :
  valid_params (params c) ->
  Crypto_Unlock c password w
  = (Ret (set_key (Some (length (heap w))) c),
     set_heap (heap w ++ [derived_key c password]) w).
Proof.
  intros Hv. unfold Crypto_Unlock, bind. rewrite DeriveKey_run by assumption.
  reflexivity.
Qed.

Lemma Crypto_Lock_run c a b (w : World) :
  key c = Some a -> heap w !! a = Some b ->
  Crypto_Lock c w = (Ret (set_key None c), set_heap (<[a := zeroed b]> (heap w)) w).
Proof.
  intros Hk Hb. unfold Crypto_Lock, bind. rewrite Hk.
  rewrite (zero_buf_run a b w Hb). reflexivity.
Qed.

Lemma Crypto_Lock_locked c (w : World) :
  key c = None -> Crypto_Lock c w = (Ret c, w).
Proof. intros Hk. unfold Crypto_Lock. rewrite Hk. reflexivity. Qed.

Lemma Encrypt_locked c plaintext (w : World) :
  key c = None -> Encrypt c plaintext w = (Fail errLocked, w).
Proof. intros Hk. unfold Encrypt. rewrite Hk. reflexivity. Qed.

Lemma Decrypt_locked c encoded (w : World) :
  key c = None -> Decrypt c encoded w = (Fail errLocked, w).
Proof. intros Hk. unfold Decrypt. rewrite Hk. reflexivity. Qed.

Lemma Encrypt_run c a k plaintext (w : World) r rest :
  key c = Some a -> heap w !! a = Some k -> aes_key_ok k = true ->
  entropy w = r :: rest -> (NonceSize <= length r)%nat ->
  Encrypt c plaintext w
  = (Ret (envelope k (take NonceSize r) plaintext), set_entropy rest w).
Proof.
  intros Hk Hb Hok He Hn.
  unfold Encrypt. rewrite Hk. unfold read_buf, new_gcm. go_unf.
  rewrite Hb. go_unf. rewrite Hok. go_unf.
  rewrite (rand_Read_run NonceSize w r rest He Hn). reflexivity.
Qed.

Lemma VerifyPassword_run c password blob (w : World) :
  valid_params (params c) ->
  VerifyPassword c password blob w
  = (Ret (verify_with_key (derived_key c password) blob),
     set_heap (heap w ++ [zeroed (derived_key c password)]) w).
Proof.
  intros Hv. unfold VerifyPassword, zero_buf, read_buf. go_unf.
  rewrite DeriveKey_run by assumption. destruct w as [? ? ? ? h ? ? ?].
  go_proj. rewrite snoc_lookup. go_unf. go_proj. rewrite snoc_lookup. go_unf.
  replace (length h) with (length h + 0)%nat at 1 by lia.
  rewrite insert_app_r. reflexivity.
Qed.

Section WithLaws.
Context (Laws : ExternalLaws Ext).

Lemma default_key_ok c password :
  a2KeyLen (params c) = 32%N -> aes_key_ok (derived_key c password) = true.
Proof.
  intros H. unfold aes_key_ok, derived_key. rewrite argon2_length, H. reflexivity.
Qed.

Lemma Decrypt_envelope c a k nonce plaintext (w : World) :
  key c = Some a -> heap w !! a = Some k -> aes_key_ok k = true ->
  length nonce = NonceSize ->
  Decrypt c (envelope k nonce plaintext) w = (Ret plaintext, w).
Proof.
  intros Hk Hb Hok Hn.
  unfold Decrypt, envelope. rewrite Hk. unfold read_buf, new_gcm. go_unf.
  rewrite Hb. go_unf. rewrite base64_Decode_Encode, Hok. go_unf.
  rewrite length_app, Hn.
  replace (NonceSize + _ <? NonceSize)%nat with false
    by (symmetry; apply Nat.ltb_ge; lia).
  rewrite <- Hn, take_app_length, drop_app_length, gcm_Open_Seal.
  reflexivity.
Qed.

Lemma verify_with_key_envelope k nonce :
  aes_key_ok k = true -> length nonce = NonceSize ->
  verify_with_key k (envelope k nonce (list_byte_of_string verificationMagic)) = true.
Proof.
  intros Hok Hn. unfold verify_with_key, envelope.
  rewrite base64_Decode_Encode, Hok. cbn [negb].
  rewrite length_app, Hn.
  replace (NonceSize + _ <? NonceSize)%nat with false
    by (symmetry; apply Nat.ltb_ge; lia).
  rewrite <- Hn, take_app_length, drop_app_length, gcm_Open_Seal.
  apply bool_decide_eq_true_2. reflexivity.
Qed.
End WithLaws.
End CryptoRuns.

Section StoreRuns.
Context `{Ext : Externals}.

Lemma saveMeta_run (s : EncryptedStore) (w : World) :
  filepath_Dir (metaPath s) ∉ wfault w -> metaPath s ∉ wfault w ->
  saveMeta {| store := s; world := w |}
  = (Ret tt,
     {| store := s;
        world :=
          set_syslog (syslog w ++ [SysMkdirAll (filepath_Dir (metaPath s));
                                   SysOpenTrunc (metaPath s);
                                   SysWrite (metaPath s) (json_MarshalIndent_VaultMeta (meta s));
                                   SysClose (metaPath s)])
            (set_files (<[metaPath s := json_MarshalIndent_VaultMeta (meta s)]> (files w)) w) |}).
Proof.
  intros H1 H2. unfold saveMeta. go_unf. go_proj.
  rewrite os_MkdirAll_run by assumption.
  rewrite os_WriteFile_run by (destruct w; exact H2).
  destruct w, s. go_proj. rewrite <- app_assoc. reflexivity.
Qed.

Lemma saveData_run (s : EncryptedStore) (w : World) :
  filepath_Dir (vaultPath s) ∉ wfault w -> vaultPath s ∉ wfault w ->
  saveData {| store := s; world := w |}
  = (Ret tt,
     {| store := set_dirty false s;
        world :=
          set_syslog (syslog w ++ [SysMkdirAll (filepath_Dir (vaultPath s));
                                   SysOpenTrunc (vaultPath s);
                                   SysWrite (vaultPath s) (json_Marshal_VaultData (data s));
                                   SysClose (vaultPath s)])
            (set_files (<[vaultPath s := json_Marshal_VaultData (data s)]> (files w)) w) |}).
Proof.
  intros H1 H2. unfold saveData. go_unf. go_proj.
  rewrite os_MkdirAll_run by assumption.
  rewrite os_WriteFile_run by (destruct w; exact H2).
  destruct w, s. go_proj. rewrite <- app_assoc. reflexivity.
Qed.

(** A blocked save returns an error and leaves store, files and memory as
    they are (the directory call may have been logged). *)
Lemma saveMeta_blocked (s : EncryptedStore) (w : World) :
  filepath_Dir (metaPath s) ∈ wfault w \/ metaPath s ∈ wfault w ->
  exists e l,
    saveMeta {| store := s; world := w |}
    = (Fail e, {| store := s; world := set_syslog (syslog w ++ l) w |}).
Proof.
  intros H. unfold saveMeta. go_unf. go_proj.
  destruct (decide (filepath_Dir (metaPath s) ∈ wfault w)) as [Hd|Hd].
  - rewrite os_MkdirAll_blocked by assumption. eexists _, [].
    rewrite app_nil_r. destruct w; reflexivity.
  - destruct H as [H|H]; [contradiction|].
    rewrite os_MkdirAll_run by assumption.
    rewrite os_WriteFile_blocked by (destruct w; exact H).
    eexists _, [_]. reflexivity.
Qed.

Lemma saveData_blocked (s : EncryptedStore) (w : World) :
  filepath_Dir (vaultPath s) ∈ wfault w \/ vaultPath s ∈ wfault w ->
  exists e l,
    saveData {| store := s; world := w |}
    = (Fail e, {| store := s; world := set_syslog (syslog w ++ l) w |}).
Proof.
  intros H. unfold saveData. go_unf. go_proj.
  destruct (decide (filepath_Dir (vaultPath s) ∈ wfault w)) as [Hd|Hd].
  - rewrite os_MkdirAll_blocked by assumption. eexists _, [].
    rewrite app_nil_r. destruct w; reflexivity.
  - destruct H as [H|H]; [contradiction|].
    rewrite os_MkdirAll_run by assumption.
    rewrite os_WriteFile_blocked by (destruct w; exact H).
    eexists _, [_]. reflexivity.
Qed.
End StoreRuns.


Section InitializeSpec.
Context `{Ext : Externals} (Laws : ExternalLaws Ext).

Lemma valid_default_params : valid_params DefaultArgon2Params.
Proof. repeat split; discriminate. Qed.

(** [Initialize] up to the point where it starts to write files. *)
Lemma Initialize_upto_save (st : State) (password : string)
      (r1 r2 : list byte) (rest : list (list byte)) :
  files (world st) !! metaPath (store st) = None ->
  entropy (world st) = r1 :: r2 :: rest ->
  (32 <= length r1)%nat -> (NonceSize <= length r2)%nat ->
  let c := init_crypto r1 (length (heap (world st))) in
  let k := derived_key c password in
  let w1 := set_clock (tail (tail (clock (world st))))
              (set_entropy rest (set_heap (heap (world st) ++ [k]) (world st))) in
  let m := {| metaVersion := 1;
              metaCreatedAt := next_time (world st);
              metaSalt := Some (take 32 r1);
              metaArgon2Params := DefaultArgon2Params;
              metaVerification :=
                envelope k (take NonceSize r2) (list_byte_of_string verificationMagic) |} in
  let s1 := set_unlockTime (hd 0 (tail (clock (world st))))
              (set_crypto (Some c) (set_data (Some {| Secrets := ∅ |})
                 (set_meta (Some m) (store st)))) in
  Initialize password st
  = (wrap "failed to save metadata" saveMeta;;;
     wrap "failed to save data" saveData) {| store := s1; world := w1 |}.
Proof.
  destruct st as [s w]. destruct s as [vp mp c0 m0 d0 di au ut].
  destruct w as [fs wf rf sl hp ob en ck]. go_proj.
  intros Hf -> H1 H2. 
  unfold Initialize at 1, VaultExists, os_Stat_ok. go_unf. go_proj.
  rewrite Hf, bool_decide_eq_false_2 by (intros [? ?]; discriminate).
  rewrite (NewCrypto_fresh_run _ _ r1 (r2 :: rest)) by (try reflexivity; assumption).
  go_proj.
  rewrite Crypto_Unlock_run by apply valid_default_params. go_proj.
  unfold CreateVerificationBlob, EncryptString.
  erewrite Encrypt_run;
    [ | reflexivity | go_proj; apply snoc_lookup
      | apply (default_key_ok Laws); reflexivity | reflexivity | assumption ].
  go_proj. rewrite !time_Now_run. go_proj. unfold next_time. go_proj.
  reflexivity.
Qed.
End InitializeSpec.

Section SetGet.
Context `{Ext : Externals}.

(** A successful [Set]: what it leaves behind. *)
Lemma Store_Set_run (st : State) c a k d (path : string) (p : nat)
      (sec : Secret) (text : string) (r : list byte) (rest : list (list byte)) :
  unlocked_with st c a k d ->
  objects (world st) !! p = Some sec ->
  json_Marshal_Secret (stamp (next_time (world st)) sec) = Some text ->
  entropy (world st) = r :: rest -> (NonceSize <= length r)%nat ->
  (filepath_Dir (vaultPath (store st)) ∉ wfault (world st)) ->
  (vaultPath (store st) ∉ wfault (world st)) ->
  exists st',
    Store_Set path p st = (Ret tt, st')
    /\ crypto (store st') = Some c
    /\ data (store st')
       = Some {| Secrets := <[path := envelope k (take NonceSize r) (list_byte_of_string text)]>
                              (Secrets d) |}
    /\ meta (store st') = meta (store st)
    /\ vaultPath (store st') = vaultPath (store st)
    /\ metaPath (store st') = metaPath (store st)
    /\ autoSave (store st') = autoSave (store st)
    /\ heap (world st') = heap (world st)
    /\ objects (world st') = <[p := stamp (next_time (world st)) sec]> (objects (world st))
    /\ entropy (world st') = rest
    /\ clock (world st') = tail (clock (world st))
    /\ wfault (world st') = wfault (world st)
    /\ rfault (world st') = rfault (world st).
Proof.
  intros [Hc Hk Hb Hok Hd] Ho Hj He Hn Hw1 Hw2.
  destruct st as [s w]. destruct s as [vp mp c0 m0 d0 di au ut].
  destruct w as [fs wf rf sl hp ob en ck]. unfold next_time in *. go_proj. subst c0 d0 en.
  unfold Store_Set, isLockedUnsafe, IsUnlocked, vault_Now. go_unf. go_proj.
  rewrite Hk. go_unf. rewrite time_Now_run. unfold next_time. go_proj.
  unfold write_object, read_object. go_unf. go_proj.
  rewrite Ho. go_unf. go_proj. rewrite Ho. go_unf. go_proj.
  rewrite list_lookup_insert_eq by (eapply lookup_lt_Some; eassumption).
  go_unf. rewrite Hj. go_unf.
  unfold EncryptString.
  erewrite Encrypt_run; [ | eassumption | eassumption | assumption | reflexivity | assumption ].
  go_proj. destruct au.
  - match goal with
    | |- context [saveData {| store := ?s; world := ?w |}] =>
        rewrite (saveData_run s w Hw1 Hw2)
    end.
    go_proj. eexists. split; [reflexivity|]. repeat split; reflexivity.
  - eexists. split; [reflexivity|]. repeat split; reflexivity.
Qed.

(** Reading back an envelope the store holds for [path]. *)
Lemma Get_run (Laws : ExternalLaws Ext) (st : State) c a k d (path : string)
      (nonce : list byte) (text : string) (sec : Secret) :
  unlocked_with st c a k d ->
  Secrets d !! path = Some (envelope k nonce (list_byte_of_string text)) ->
  length nonce = NonceSize ->
  json_Unmarshal_Secret text = Some sec ->
  Get path st = (Ret sec, st).
Proof.
  intros [Hc Hk Hb Hok Hd] Hs Hn Hj.
  destruct st as [s w]. destruct s as [vp mp c0 m0 d0 di au ut]. go_proj. subst c0 d0.
  unfold Get, isLockedUnsafe, IsUnlocked, DecryptString. go_unf. go_proj.
  rewrite Hk. go_unf. rewrite Hs. go_unf.
  rewrite (Decrypt_envelope Laws c a k nonce _ w Hk Hb Hok Hn).
  rewrite string_of_list_byte_of_string, Hj. reflexivity.
Qed.
End SetGet.
(* ===================================================================== *)
(** ** List *)
(* ===================================================================== *)

Lemma HasPrefix_empty p : strings_HasPrefix p "" = true.
Proof. destruct p; reflexivity. Qed.

Lemma collect_paths_filter prefix (kvs : list (string * string)) :
  collect_paths prefix kvs
  = filter (fun p => strings_HasPrefix p prefix = true) (kvs.*1).
Proof.
  unfold collect_paths.
  enough (forall acc,
    foldl (fun paths kv =>
             if bool_decide (prefix = "") || strings_HasPrefix (fst kv) prefix
             then (paths ++ [fst kv])%list else paths) acc kvs
    = (acc ++ filter (fun p => strings_HasPrefix p prefix = true) (kvs.*1))%list)
    as G by apply (G []).
  induction kvs as [|[k v] kvs IH]; intros acc; simpl.
  - rewrite app_nil_r. reflexivity.
  - rewrite IH, filter_cons. simpl.
    assert (bool_decide (prefix = "") || strings_HasPrefix k prefix
            = strings_HasPrefix k prefix) as ->.
    { case_bool_decide as E; [subst; rewrite HasPrefix_empty|]; reflexivity. }
    destruct (strings_HasPrefix k prefix) eqn:E.
    + rewrite decide_True by reflexivity. rewrite <- app_assoc. reflexivity.
    + rewrite decide_False by discriminate. reflexivity.
Qed.

Section ListSpec.
Context `{Ext : Externals} (Laws : ExternalLaws Ext).

Lemma listed_paths_perm prefix (m : gmap string string) :
  sort_Strings (collect_paths prefix (map_range m))
  ≡ₚ filter (fun p => strings_HasPrefix p prefix = true) ((map_to_list m).*1).
Proof.
  rewrite sort_Strings_perm, collect_paths_filter.
  apply filter_Permutation, fmap_Permutation, map_range_perm.
Qed.

(** C8.  On an unlocked store, [List(prefix)] returns without changing
    anything, and the list returned holds exactly the stored paths that start
    with [prefix] (all of them when [prefix] is empty), each once, in strictly
    ascending bytewise order. *)
Theorem C8_List_exact_sorted (st : State) (prefix : string) (d : VaultData) :
  isLockedUnsafe (store st) = false ->
  data (store st) = Some d ->
  exists paths,
    Store_List prefix st = (Ret paths, st)
    /\ (forall p, p ∈ paths <->
                  is_Some (Secrets d !! p) /\ strings_HasPrefix p prefix = true)
    /\ (prefix = "" -> forall p, p ∈ paths <-> is_Some (Secrets d !! p))
    /\ NoDup paths
    /\ Sorted str_le paths
    /\ StronglySorted str_lt paths.
Proof.
  intros Hunl Hd.
  exists (sort_Strings (collect_paths prefix (map_range (Secrets d)))).
  assert (forall p,
    p ∈ sort_Strings (collect_paths prefix (map_range (Secrets d))) <->
    is_Some (Secrets d !! p) /\ strings_HasPrefix p prefix = true) as Hmem.
  { intros p. rewrite listed_paths_perm, list_elem_of_filter.
    rewrite <- elem_of_dom, dom_alt, elem_of_list_to_set. tauto. }
  assert (NoDup (sort_Strings (collect_paths prefix (map_range (Secrets d))))) as Hnd.
  { rewrite listed_paths_perm. apply NoDup_filter, NoDup_fst_map_to_list. }
  split; [|split; [exact Hmem|split; [|split; [exact Hnd|split]]]].
  - unfold Store_List, bind, the_store. rewrite Hunl, Hd. destruct st; reflexivity.
  - intros -> p. rewrite Hmem, HasPrefix_empty. tauto.
  - apply sort_Strings_sorted.
  - apply Sorted_le_NoDup_lt; [apply sort_Strings_sorted | exact Hnd].
Qed.
End ListSpec.

Section RoundTrip.
Context `{Ext : Externals} (Laws : ExternalLaws Ext).

(** A successful [Initialize]: the store it leaves. *)
Lemma Initialize_run (st : State) (password : string)
      (r1 r2 : list byte) (rest : list (list byte)) :
  files (world st) !! metaPath (store st) = None ->
  writable (store st) (world st) ->
  entropy (world st) = r1 :: r2 :: rest ->
  (32 <= length r1)%nat -> (NonceSize <= length r2)%nat ->
  let c := init_crypto r1 (length (heap (world st))) in
  exists st',
    Initialize password st = (Ret tt, st')
    /\ unlocked_with st' c (length (heap (world st))) (derived_key c password)
         {| Secrets := ∅ |}
    /\ vaultPath (store st') = vaultPath (store st)
    /\ metaPath (store st') = metaPath (store st)
    /\ autoSave (store st') = autoSave (store st)
    /\ dirty (store st') = false
    /\ objects (world st') = objects (world st)
    /\ entropy (world st') = rest
    /\ clock (world st') = tail (tail (clock (world st)))
    /\ wfault (world st') = wfault (world st)
    /\ rfault (world st') = rfault (world st).
Proof.
  intros Hf (Hw1 & Hw2 & Hw3 & Hw4) He H1 H2 c.
  rewrite (Initialize_upto_save Laws st password r1 r2 rest Hf He H1 H2).
  destruct st as [s w]. destruct s as [vp mp c0 m0 d0 di au ut].
  destruct w as [fs wf rf sl hp ob en ck]. subst c. go_proj. go_unf.
  match goal with
  | |- context [saveMeta {| store := ?s; world := ?w |}] =>
      rewrite (saveMeta_run s w Hw1 Hw2)
  end.
  go_proj.
  match goal with
  | |- context [saveData {| store := ?s; world := ?w |}] =>
      rewrite (saveData_run s w Hw3 Hw4)
  end.
  go_proj. eexists. split; [reflexivity|].
  split; [|repeat split; reflexivity].
  split; go_proj; try reflexivity.
  - apply snoc_lookup.
  - apply (default_key_ok Laws). reflexivity.
Qed.

Lemma json_view_payload (s : Secret) :
  Value (json_view s) = Value s
  /\ ValueBytes (json_view s) = ValueBytes s
  /\ Fields (json_view s) = Fields s
  /\ Tags (SecretMetadata (json_view s)) = Tags (SecretMetadata s).
Proof. repeat split. Qed.

Lemma stamp_payload now (s : Secret) :
  Value (stamp now s) = Value s
  /\ ValueBytes (stamp now s) = ValueBytes s
  /\ Fields (stamp now s) = Fields s
  /\ Tags (SecretMetadata (stamp now s)) = Tags (SecretMetadata s).
Proof.
  unfold stamp. destruct s as [v vb f [ca ma ea ve ta la pr pa ex]].
  destruct ca; repeat split.
Qed.

Lemma stamp_times now (s : Secret) :
  ModifiedAt (SecretMetadata (stamp now s)) = Some now
  /\ CreatedAt (SecretMetadata (stamp now s))
     = Some (default now (CreatedAt (SecretMetadata s))).
Proof.
  unfold stamp. destruct s as [v vb f [ca ma ea ve ta la pr pa ex]].
  destruct ca; split; reflexivity.
Qed.

(** [Get] after a successful [Set] of the same path. *)
Lemma Get_after_Set (st : State) c a k d path p sec r rest :
  unlocked_with st c a k d ->
  objects (world st) !! p = Some sec ->
  json_roundtrips (stamp (next_time (world st)) sec) ->
  entropy (world st) = r :: rest -> (NonceSize <= length r)%nat ->
  (filepath_Dir (vaultPath (store st)) ∉ wfault (world st)) ->
  (vaultPath (store st) ∉ wfault (world st)) ->
  exists st',
    Store_Set path p st = (Ret tt, st')
    /\ Get path st' = (Ret (json_view (stamp (next_time (world st)) sec)), st')
    /\ objects (world st') = <[p := stamp (next_time (world st)) sec]> (objects (world st))
    /\ crypto (store st') = Some c.
Proof.
  intros Hu Ho (text & Hm & Hum) He Hn Hw1 Hw2.
  destruct (Store_Set_run st c a k d path p sec text r rest Hu Ho Hm He Hn Hw1 Hw2)
    as (st2 & Hset & Hc2 & Hd2 & _ & _ & _ & _ & Hh2 & Ho2 & _).
  exists st2. split; [exact Hset|]. split; [|split; [exact Ho2 | exact Hc2]].
  destruct Hu as [Hc Hk Hb Hok Hd].
  eapply (Get_run Laws st2 c a k _ path (take NonceSize r) text).
  - split; [exact Hc2 | exact Hk | rewrite Hh2; exact Hb | exact Hok | exact Hd2].
  - cbn [Secrets]. apply lookup_insert_eq.
  - rewrite length_take. lia.
  - exact Hum.
Qed.

(** C5.  Round trip.  On a store whose vault does not exist yet and whose
    files can be written, with the random source delivering the salt and two
    nonces: [Initialize(password)], then [Set(path, secret)], then
    [Get(path)] all succeed, and the secret read back has the value, the
    bytes, the fields and the tags of the one stored.  Its [ModifiedAt] is
    the time of the [Set]; its [CreatedAt] is the one given, or the time of
    the [Set] when none was given.  (Timestamps come back in whole seconds.
    The password's length plays no part in the store; the 8-byte minimum is
    checked by the daemon's [/init] handler.)  The JSON encoding is assumed
    to give the stamped secret back. *)
Theorem C5_init_set_get_roundtrip (st : State) (password path : string) (p : nat)
        (sec : Secret) (r1 r2 r3 : list byte) (rest : list (list byte)) :
  files (world st) !! metaPath (store st) = None ->
  writable (store st) (world st) ->
  entropy (world st) = r1 :: r2 :: r3 :: rest ->
  (32 <= length r1)%nat -> (NonceSize <= length r2)%nat -> (NonceSize <= length r3)%nat ->
  objects (world st) !! p = Some sec ->
  let now := hd 0 (tail (tail (clock (world st)))) in
  json_roundtrips (stamp now sec) ->
  exists st1 st2 got,
    Initialize password st = (Ret tt, st1)
    /\ Store_Set path p st1 = (Ret tt, st2)
    /\ Get path st2 = (Ret got, st2)
    /\ Value got = Value sec
    /\ ValueBytes got = ValueBytes sec
    /\ Fields got = Fields sec
    /\ Tags (SecretMetadata got) = Tags (SecretMetadata sec)
    /\ ModifiedAt (SecretMetadata got) = Some (rfc3339 now)
    /\ CreatedAt (SecretMetadata got)
       = Some (rfc3339 (default now (CreatedAt (SecretMetadata sec)))).
Proof.
  intros Hf Hw He H1 H2 H3 Ho now Hj.
  destruct (Initialize_run st password r1 r2 (r3 :: rest) Hf Hw He H1 H2)
    as (st1 & Hinit & Hu & Hvp & Hmp & _ & _ & Hob & Hen & Hck & Hwf & _).
  destruct Hw as (_ & _ & Hw3 & Hw4).
  assert (next_time (world st1) = now) as Hnow.
  { unfold next_time, now. rewrite Hck. reflexivity. }
  edestruct (Get_after_Set st1 _ _ _ _ path p sec r3 rest Hu)
    as (st2 & Hset & Hget & _).
  - rewrite Hob. exact Ho.
  - rewrite Hnow. exact Hj.
  - exact Hen.
  - exact H3.
  - rewrite Hvp, Hwf. exact Hw3.
  - rewrite Hvp, Hwf. exact Hw4.
  - rewrite Hnow in Hget.
    exists st1, st2, (json_view (stamp now sec)).
    destruct (json_view_payload (stamp now sec)) as (E1 & E2 & E3 & E4).
    destruct (stamp_payload now sec) as (F1 & F2 & F3 & F4).
    destruct (stamp_times now sec) as (T1 & T2).
    split; [exact Hinit|]. split; [exact Hset|]. split; [exact Hget|].
    split; [congruence|]. split; [congruence|]. split; [congruence|].
    split; [congruence|].
    split; cbn [json_view with_Metadata SecretMetadata ModifiedAt CreatedAt].
    + rewrite T1. reflexivity.
    + rewrite T2. reflexivity.
Qed.
End RoundTrip.

Section InitializeClaim.
Context `{Ext : Externals} (Laws : ExternalLaws Ext).

(** C10.  [Initialize] does not roll back when its final writes fail.  If
    the vault does not exist yet, the random source delivers the salt and
    the nonce, and the metadata file or the data file cannot be written,
    then [Initialize] returns an error ("failed to save metadata" or "failed
    to save data"), and the store is left unlocked: the new session with the
    derived key still in memory, the new metadata and an empty secrets map. *)
Theorem C10_Initialize_no_rollback (st : State) (password : string)
        (r1 r2 : list byte) (rest : list (list byte)) :
  files (world st) !! metaPath (store st) = None ->
  entropy (world st) = r1 :: r2 :: rest ->
  (32 <= length r1)%nat -> (NonceSize <= length r2)%nat ->
  write_blocked (store st) (world st) ->
  let c := init_crypto r1 (length (heap (world st))) in
  exists e st',
    Initialize password st = (Fail e, st')
    /\ (exists cause, e = fmt_Errorf "failed to save metadata" cause
                      \/ e = fmt_Errorf "failed to save data" cause)
    /\ isLockedUnsafe (store st') = false
    /\ crypto (store st') = Some c
    /\ heap (world st') !! length (heap (world st)) = Some (derived_key c password)
    /\ (exists m, meta (store st') = Some m
                  /\ metaSalt m = Some (take 32 r1)
                  /\ metaArgon2Params m = DefaultArgon2Params)
    /\ data (store st') = Some {| Secrets := ∅ |}.
Proof.
  intros Hf He H1 H2 Hb c.
  rewrite (Initialize_upto_save Laws st password r1 r2 rest Hf He H1 H2).
  destruct st as [s w]. destruct s as [vp mp c0 m0 d0 di au ut].
  destruct w as [fs wf rf sl hp ob en ck].
  unfold write_blocked in Hb. subst c. go_proj. go_unf.
  destruct (decide (filepath_Dir mp ∈ wf \/ mp ∈ wf)) as [Hm|Hm].
  - match goal with
    | |- context [saveMeta {| store := ?s; world := ?w |}] =>
        destruct (saveMeta_blocked s w Hm) as (e & l & ->)
    end.
    go_proj. eexists _, _. split; [reflexivity|].
    split; [eauto|]. split; [reflexivity|]. split; [reflexivity|].
    split; [apply snoc_lookup|]. split; [|reflexivity].
    eexists. split; [reflexivity|]. split; reflexivity.
  - assert ((filepath_Dir mp ∉ wf) /\ (mp ∉ wf)) as [Hm1 Hm2] by tauto.
    assert (filepath_Dir vp ∈ wf \/ vp ∈ wf) as Hd by tauto.
    match goal with
    | |- context [saveMeta {| store := ?s; world := ?w |}] =>
        rewrite (saveMeta_run s w Hm1 Hm2)
    end.
    go_proj.
    match goal with
    | |- context [saveData {| store := ?s; world := ?w |}] =>
        destruct (saveData_blocked s w Hd) as (e & l & ->)
    end.
    go_proj. eexists _, _. split; [reflexivity|].
    split; [eauto|]. split; [reflexivity|]. split; [reflexivity|].
    split; [apply snoc_lookup|]. split; [|reflexivity].
    eexists. split; [reflexivity|]. split; reflexivity.
Qed.
End InitializeClaim.

Lemma C10_witness :
  exists e st',
    Initialize (Ext := Ref.externals) "correcthorse" Sample.st_readonly = (Fail e, st')
    /\ isLockedUnsafe (store st') = false
    /\ data (store st') = Some {| Secrets := ∅ |}.
Proof.
  destruct (C10_Initialize_no_rollback Ref_laws Sample.st_readonly "correcthorse"
              (replicate 32 "s"%byte) (replicate 32 "a"%byte)
              (drop 2 (entropy Sample.w_fresh)))
    as (e & st' & H & _ & Hl & _ & _ & _ & Hd).
  - reflexivity.
  - reflexivity.
  - vm_compute. lia.
  - vm_compute. lia.
  - right. right. right. vm_compute. set_solver.
  - exists e, st'. auto.
Defined.

(* ===================================================================== *)
(** ** Reading leaves the state alone *)
(* ===================================================================== *)

Section ReadFrames.
Context `{Ext : Externals}.

Lemma Decrypt_pure c encoded (w : World) : snd (Decrypt c encoded w) = w.
Proof.
  unfold Decrypt, read_buf, new_gcm. go_unf. go_cases; reflexivity.
Qed.

Lemma Decrypt_heap c encoded (w1 w2 : World) :
  heap w1 = heap w2 -> fst (Decrypt c encoded w1) = fst (Decrypt c encoded w2).
Proof.
  intros Hh. unfold Decrypt, read_buf, new_gcm.
  destruct (key c) as [a|]; [|reflexivity]. go_unf. rewrite Hh.
  destruct (heap w2 !! a) as [k|]; [|reflexivity].
  go_cases; reflexivity.
Qed.

Lemma Get_pure path (st : State) : snd (Get path st) = st.
Proof.
  destruct st as [s w]. unfold Get, DecryptString. go_unf. cbn [store world].
  destruct (isLockedUnsafe s); [reflexivity|].
  destruct (data s) as [d|]; [|reflexivity].
  destruct (Secrets d !! path) as [enc|]; [|reflexivity].
  destruct (crypto s) as [c|]; [|reflexivity]. go_unf. cbn [store world].
  pose proof (Decrypt_pure c enc w) as HD.
  destruct (Decrypt c enc w) as [r w']. cbn [snd] in HD. subst w'.
  destruct r; [|reflexivity..].
  destruct (json_Unmarshal_Secret _); reflexivity.
Qed.

(** What [Get] returns depends on the session, on the key buffers and on
    the entry of the path only. *)
Lemma Get_agree path (st1 st2 : State) :
  crypto (store st1) = crypto (store st2) ->
  heap (world st1) = heap (world st2) ->
  (data (store st1) = None <-> data (store st2) = None) ->
  (forall d1 d2, data (store st1) = Some d1 -> data (store st2) = Some d2 ->
                 Secrets d1 !! path = Secrets d2 !! path) ->
  fst (Get path st1) = fst (Get path st2).
Proof.
  destruct st1 as [s1 w1], st2 as [s2 w2]. cbn [store world].
  intros Hc Hh Hn Hd. unfold Get, DecryptString, isLockedUnsafe. go_unf. cbn [store world].
  rewrite <- Hc. destruct (crypto s1) as [c|]; [|reflexivity].
  destruct (IsUnlocked c); [|reflexivity].
  destruct (data s1) as [d1|], (data s2) as [d2|]; cbn [fst].
  - rewrite <- (Hd d1 d2 eq_refl eq_refl).
    destruct (Secrets d1 !! path) as [enc|]; [|reflexivity].
    go_unf. cbn [store world].
    pose proof (Decrypt_heap c enc w1 w2 Hh) as HD.
    destruct (Decrypt c enc w1) as [r1 w1'], (Decrypt c enc w2) as [r2 w2'].
    cbn [fst] in HD. subst r2. destruct r1; [|reflexivity..].
    destruct (json_Unmarshal_Secret _); reflexivity.
  - destruct Hn as [_ Hn]. specialize (Hn eq_refl). discriminate.
  - destruct Hn as [Hn _]. specialize (Hn eq_refl). discriminate.
  - reflexivity.
Qed.
End ReadFrames.

(* ===================================================================== *)
(** ** Set writes into the caller's secret *)
(* ===================================================================== *)

Section SetInPlace.
Context `{Ext : Externals}.

(** C9.  [Set] works on the caller's object, not on a copy.  After a
    successful call the object at the address passed in has been overwritten
    in place: its [ModifiedAt] is the time of the write and its [CreatedAt]
    is that time too when it was nil before (and is kept otherwise); no other
    object was touched and none was allocated. *)
Theorem C9_Set_mutates_argument (st st' : State) (path : string) (p : nat) :
  Store_Set path p st = (Ret tt, st') ->
  let now := next_time (world st) in
  exists sec,
    objects (world st) !! p = Some sec
    /\ objects (world st') = <[p := stamp now sec]> (objects (world st))
    /\ objects (world st') !! p = Some (stamp now sec)
    /\ ModifiedAt (SecretMetadata (stamp now sec)) = Some now
    /\ CreatedAt (SecretMetadata (stamp now sec))
       = Some (default now (CreatedAt (SecretMetadata sec))).
Proof.
  intros H now.
  assert (exists sec, objects (world st) !! p = Some sec
            /\ objects (world st') = <[p := stamp now sec]> (objects (world st)))
    as (sec & H1 & H2).
  { subst now. destruct st as [[] []]. unfold next_time. go_run.
    all: eexists; split; [eassumption | reflexivity]. }
  exists sec. split; [exact H1|]. split; [exact H2|]. split.
  - rewrite H2. apply list_lookup_insert_eq. eapply lookup_lt_Some, H1.
  - apply stamp_times.
Qed.
End SetInPlace.

Lemma C9_witness :
  exists sec,
    objects (world Sample.st_init_held) !! 0%nat = Some sec
    /\ objects (world (snd (Store_Set (Ext := Ref.externals) "db/pw" 0 Sample.st_init_held)))
         !! 0%nat
       = Some (stamp 3500000000 sec).
Proof.
  destruct (C9_Set_mutates_argument (Ext := Ref.externals) Sample.st_init_held
              (snd (Store_Set (Ext := Ref.externals) "db/pw" 0 Sample.st_init_held))
              "db/pw" 0)
    as (sec & H1 & _ & H3 & _).
  - vm_compute. reflexivity.
  - exists sec. split; [exact H1 | exact H3].
Defined.

Lemma C5_witness :
  exists st1 st2 got,
    Initialize (Ext := Ref.externals) "correcthorse" Sample.st_held = (Ret tt, st1)
    /\ Store_Set "db/pw" 0 st1 = (Ret tt, st2)
    /\ Get "db/pw" st2 = (Ret got, st2)
    /\ Value got = "s3cret"
    /\ ValueBytes got = ["k"%byte; "e"%byte; "y"%byte]
    /\ Fields got = {[ "user" := "admin" ]}
    /\ Tags (SecretMetadata got) = {[ "env" := "prod" ]}.
Proof.
  destruct (C5_init_set_get_roundtrip Ref_laws Sample.st_held "correcthorse" "db/pw" 0
              Sample.secret0
              (replicate 32 "s"%byte) (replicate 32 "a"%byte) (replicate 32 "b"%byte)
              (drop 3 (entropy Sample.w_fresh)))
    as (st1 & st2 & got & H1 & H2 & H3 & H4 & H5 & H6 & H7 & _).
  - reflexivity.
  - vm_compute. repeat split; set_solver.
  - reflexivity.
  - vm_compute. lia.
  - vm_compute. lia.
  - vm_compute. lia.
  - reflexivity.
  - apply Ref_json_roundtrips.
  - exists st1, st2, got. auto 10.
Defined.

(** C5, as stated for every secret, fails for one whose text is not valid
    UTF-8.  The store keeps a secret as JSON, and [encoding/json] replaces
    the bytes that are not valid: [Initialize], then [Set] of a secret whose
    value is the byte [FF], then [Get] all succeed, and the value read back
    is U+FFFD (the bytes [EF BF BD]). *)
Lemma C5_counterexample :
  exists st1 st2 got,
    objects (world Utf8.st_held) !! 0%nat = Some Utf8.secret_ff
    /\ Value Utf8.secret_ff = string_of_list_byte [Byte.xff]
    /\ Initialize (Ext := Utf8.externals) "correcthorse" Utf8.st_held = (Ret tt, st1)
    /\ Store_Set (Ext := Utf8.externals) "db/pw" 0 st1 = (Ret tt, st2)
    /\ Get (Ext := Utf8.externals) "db/pw" st2 = (Ret got, st2)
    /\ Value got = string_of_list_byte [Byte.xef; Byte.xbf; Byte.xbd]
    /\ Value got <> Value Utf8.secret_ff
    /\ ValueBytes got = ValueBytes Utf8.secret_ff
    /\ Fields got = Fields Utf8.secret_ff.
Proof.
  eexists _, _, _.
  split; [reflexivity|]. split; [reflexivity|].
  split; [vm_compute; reflexivity|].
  split; [vm_compute; reflexivity|].
  split; [vm_compute; reflexivity|].
  split; [reflexivity|]. split; [discriminate|].
  split; reflexivity.
Qed.

Lemma C8_witness :
  exists paths,
    Store_List (Ext := Ref.externals) "a/" Sample.st_abc = (Ret paths, Sample.st_abc)
    /\ paths = ["a/1"; "a/2"].
Proof.
  destruct (C8_List_exact_sorted Ref_laws Sample.st_abc "a/"
              (default {| Secrets := ∅ |} (data (store Sample.st_abc))))
    as (paths & H & _).
  - reflexivity.
  - reflexivity.
  - exists paths. split; [exact H|].
    assert (Store_List (Ext := Ref.externals) "a/" Sample.st_abc
            = (Ret ["a/1"; "a/2"], Sample.st_abc)) as E by (vm_compute; reflexivity).
    congruence.
Defined.

(* ===================================================================== *)
(** ** Lock *)
(* ===================================================================== *)

Section LockSpec.
Context `{Ext : Externals}.

(** Every operation that needs the key answers "vault is locked" on a store
    without a session, and changes nothing. *)
Lemma locked_store_refuses (st : State) :
  crypto (store st) = None ->
  (forall path, Get path st = (Fail errLocked, st))
  /\ (forall path p, Store_Set path p st = (Fail errLocked, st))
  /\ (forall path, Delete path st = (Fail errLocked, st))
  /\ (forall path, Store_Exists path st = (Fail errLocked, st))
  /\ (forall prefix, Store_List prefix st = (Fail errLocked, st)).
Proof.
  intros H. destruct st as [s w]. destruct s. go_proj. subst.
  repeat split; intros; reflexivity.
Qed.

Lemma Lock_locked (st : State) :
  crypto (store st) = None -> Lock st = (Ret tt, st).
Proof. intros H. destruct st as [s w]. destruct s. go_proj. subst. reflexivity. Qed.

(** The crypto session: [Lock] zeroes the key buffer and drops it; after
    that [Encrypt] and [Decrypt] fail with "vault is locked" and touch
    nothing; locking again changes nothing. *)
Lemma Crypto_Lock_zeroizes (c : Crypto) (w : World) :
  key_allocated c w ->
  exists c' w',
    Crypto_Lock c w = (Ret c', w')
    /\ key c' = None
    /\ (forall a k, key c = Some a -> heap w !! a = Some k ->
                    heap w' !! a = Some (zeroed k))
    /\ (forall plaintext w2, Encrypt c' plaintext w2 = (Fail errLocked, w2))
    /\ (forall encoded w2, Decrypt c' encoded w2 = (Fail errLocked, w2))
    /\ Crypto_Lock c' w' = (Ret c', w').
Proof.
  unfold key_allocated. intros Ha. destruct (key c) as [a|] eqn:Hk.
  - destruct Ha as [k Hb].
    exists (set_key None c), (set_heap (<[a := zeroed k]> (heap w)) w).
    split; [apply Crypto_Lock_run; assumption|]. split; [reflexivity|]. split.
    + intros a' k' [= <-] Hb'. rewrite Hb in Hb'. injection Hb' as <-.
      destruct w. go_proj. apply list_lookup_insert_eq. eapply lookup_lt_Some, Hb.
    + split; [|split].
      * intros. apply Encrypt_locked. reflexivity.
      * intros. apply Decrypt_locked. reflexivity.
      * apply Crypto_Lock_locked. reflexivity.
  - exists c, w. split; [apply Crypto_Lock_locked; assumption|].
    split; [assumption|]. split; [intros; discriminate|].
    split; [|split].
    + intros. apply Encrypt_locked. assumption.
    + intros. apply Decrypt_locked. assumption.
    + apply Crypto_Lock_locked. assumption.
Qed.

(** [Lock] on an unlocked, dirty store that cannot save: the error of
    [saveData] comes back wrapped, and nothing but the log of system calls
    has changed. *)
Lemma Lock_dirty_blocked (st : State) :
  isLockedUnsafe (store st) = false ->
  dirty (store st) = true ->
  filepath_Dir (vaultPath (store st)) ∈ wfault (world st)
  \/ vaultPath (store st) ∈ wfault (world st) ->
  exists cause st',
    Lock st = (Fail (fmt_Errorf "failed to save data" cause), st')
    /\ store st' = store st
    /\ isLockedUnsafe (store st') = false
    /\ heap (world st') = heap (world st)
    /\ files (world st') = files (world st)
    /\ objects (world st') = objects (world st)
    /\ (forall path, fst (Get path st') = fst (Get path st)).
Proof.
  intros Hl Hd Hw. destruct st as [s w]. cbn [store world] in *.
  destruct (saveData_blocked s w Hw) as (e & l & Hsave).
  exists e, {| store := s; world := set_syslog (syslog w ++ l) w |}.
  assert (Lock {| store := s; world := w |}
          = (Fail (fmt_Errorf "failed to save data" e),
             {| store := s; world := set_syslog (syslog w ++ l) w |})) as HL.
  { unfold Lock, isLockedUnsafe in *. destruct s as [vp mp c0 m0 d0 di au ut].
    cbn [crypto dirty] in *. subst di. destruct c0 as [c|]; [|discriminate].
    go_unf. go_proj. revert Hsave. go_unf. go_proj. intros ->. reflexivity. }
  split; [exact HL|]. split; [reflexivity|]. split; [exact Hl|].
  split; [destruct w; reflexivity|]. split; [destruct w; reflexivity|].
  split; [destruct w; reflexivity|].
  intros path. apply Get_agree; cbn [store world];
    [reflexivity | destruct w; reflexivity | reflexivity | congruence].
Qed.

(** C7 (as amended).  [Crypto.Lock] in any state, and [EncryptedStore.Lock]
    whenever it has nothing to save or can write the data file: the call
    succeeds, every byte of the key buffer held before is zero afterwards,
    the session is gone, every later operation that needs the key returns
    "vault is locked" without effect, and a second lock succeeds and changes
    nothing.  On an unlocked store that is dirty and whose data file (or its
    directory) cannot be written, [EncryptedStore.Lock] returns the error
    of the save, wrapped in "failed to save data", and leaves the store as
    it was: unlocked and dirty, with its session, its secrets and every key
    buffer untouched, so that [Get] answers as before. *)
Theorem C7_lock_zeroizes (st : State) :
  store_key_allocated st ->
  (forall c w, key_allocated c w ->
     exists c' w',
       Crypto_Lock c w = (Ret c', w')
       /\ key c' = None
       /\ (forall a k, key c = Some a -> heap w !! a = Some k ->
                       heap w' !! a = Some (zeroed k))
       /\ (forall plaintext w2, Encrypt c' plaintext w2 = (Fail errLocked, w2))
       /\ (forall encoded w2, Decrypt c' encoded w2 = (Fail errLocked, w2))
       /\ Crypto_Lock c' w' = (Ret c', w'))
  /\ (lock_can_save st ->
      exists st',
        Lock st = (Ret tt, st')
        /\ crypto (store st') = None
        /\ (crypto (store st) <> None -> data (store st') = None)
        /\ (forall c a k, crypto (store st) = Some c -> key c = Some a ->
                          heap (world st) !! a = Some k ->
                          heap (world st') !! a = Some (zeroed k))
        /\ (forall path, Get path st' = (Fail errLocked, st'))
        /\ (forall path p, Store_Set path p st' = (Fail errLocked, st'))
        /\ (forall path, Delete path st' = (Fail errLocked, st'))
        /\ (forall path, Store_Exists path st' = (Fail errLocked, st'))
        /\ (forall prefix, Store_List prefix st' = (Fail errLocked, st'))
        /\ Lock st' = (Ret tt, st'))
  /\ (isLockedUnsafe (store st) = false ->
      dirty (store st) = true ->
      filepath_Dir (vaultPath (store st)) ∈ wfault (world st)
      \/ vaultPath (store st) ∈ wfault (world st) ->
      exists cause st',
        Lock st = (Fail (fmt_Errorf "failed to save data" cause), st')
        /\ store st' = store st
        /\ isLockedUnsafe (store st') = false
        /\ heap (world st') = heap (world st)
        /\ files (world st') = files (world st)
        /\ objects (world st') = objects (world st)
        /\ (forall path, fst (Get path st') = fst (Get path st))).
Proof.
  intros Ha. split; [apply Crypto_Lock_zeroizes|]. split; [|apply Lock_dirty_blocked].
  intros Hs.
  assert (exists st',
            Lock st = (Ret tt, st') /\ crypto (store st') = None
            /\ (crypto (store st) <> None -> data (store st') = None)
            /\ (forall c a k, crypto (store st) = Some c -> key c = Some a ->
                              heap (world st) !! a = Some k ->
                              heap (world st') !! a = Some (zeroed k)))
    as (st' & HL & Hc & Hd & Hz).
  { destruct st as [s w]. destruct s as [vp mp c0 m0 d0 di au ut].
    unfold store_key_allocated, lock_can_save in *. go_proj.
    destruct c0 as [c|].
    2:{ eexists. split; [reflexivity|]. split; [reflexivity|].
        split; [congruence|]. intros ? ? ? [=]. }
    assert (forall s1 w1, heap w1 = heap w ->
      exists st',
        (io (Crypto_Lock c);;; upd (set_crypto None);;; upd (set_data None);;;
         upd (set_dirty false)) {| store := s1; world := w1 |} = (Ret tt, st')
        /\ crypto (store st') = None /\ data (store st') = None
        /\ (forall a k, key c = Some a -> heap w !! a = Some k ->
                        heap (world st') !! a = Some (zeroed k))) as Htail.
    { intros s1 w1 Hh.
      destruct (Crypto_Lock_zeroizes c w1) as (c' & w2 & HcL & _ & Hzero & _).
      { unfold key_allocated in *. rewrite Hh. exact Ha. }
      go_unf. go_proj. rewrite HcL. eexists. split; [reflexivity|].
      destruct s1. go_proj. split; [reflexivity|]. split; [reflexivity|].
      intros a k Hk Hb. apply Hzero; [exact Hk | rewrite Hh; exact Hb]. }
    unfold Lock. go_unf. go_proj. destruct di.
    - destruct Hs as [Hs|[Hs1 Hs2]]; [discriminate|].
      match goal with
      | |- context [saveData {| store := ?s; world := ?w |}] =>
          rewrite (saveData_run s w Hs1 Hs2)
      end.
      go_proj.
      match goal with
      | |- context [Crypto_Lock c ?w1] =>
          destruct (Htail (Build_EncryptedStore vp mp (Some c) m0 d0 false au ut) w1)
            as (st' & HL & Hc & Hd & Hz); [destruct w; reflexivity|]
      end.
      revert HL. go_unf. go_proj. intros HL.
      exists st'. split; [exact HL|]. split; [exact Hc|]. split; [intros _; exact Hd|].
      intros c2 a k [= <-]. apply Hz.
    - destruct (Htail (Build_EncryptedStore vp mp (Some c) m0 d0 false au ut) w)
        as (st' & HL & Hc & Hd & Hz); [reflexivity|].
      revert HL. go_unf. go_proj. intros HL.
      exists st'. split; [exact HL|]. split; [exact Hc|]. split; [intros _; exact Hd|].
      intros c2 a k [= <-]. apply Hz. }
  exists st'. split; [exact HL|]. split; [exact Hc|]. split; [exact Hd|].
  split; [exact Hz|].
  destruct (locked_store_refuses st' Hc) as (G1 & G2 & G3 & G4 & G5).
  repeat (split; [assumption|]). apply Lock_locked, Hc.
Qed.
End LockSpec.

(** C7, as stated, fails on a dirty store whose data file cannot be written:
    [Lock] returns the save error, the store stays unlocked, the key buffer
    keeps the derived key, and [Get] still decrypts. *)
Lemma C7_counterexample :
  exists e st',
    Lock (Ext := Ref.externals) Sample.st_ro_dirty = (Fail e, st')
    /\ isLockedUnsafe (store st') = false
    /\ (exists c a k, crypto (store st') = Some c /\ key c = Some a
                      /\ heap (world st') !! a = Some k /\ k <> zeroed k)
    /\ (exists sec, Get (Ext := Ref.externals) "db/pw" st' = (Ret sec, st')).
Proof.
  eexists _, _. split; [vm_compute; reflexivity|].
  split; [reflexivity|]. split.
  - eexists _, _, _. split; [reflexivity|]. split; [reflexivity|].
    split; [reflexivity|]. vm_compute. discriminate.
  - eexists. vm_compute. reflexivity.
Qed.

Lemma C7_witness :
  exists st',
    Lock (Ext := Ref.externals) Sample.st_s1 = (Ret tt, st')
    /\ crypto (store st') = None
    /\ heap (world st') !! 0%nat = Some (replicate 32 Byte.x00)
    /\ Get (Ext := Ref.externals) "db/pw" st' = (Fail errLocked, st')
    /\ Lock (Ext := Ref.externals) st' = (Ret tt, st').
Proof.
  destruct (C7_lock_zeroizes (Ext := Ref.externals) Sample.st_s1) as (_ & H & _).
  - vm_compute. eauto.
  - destruct H as (st' & HL & Hc & _ & Hz & HG & _ & _ & _ & _ & HL2);
      [left; reflexivity|].
    exists st'. split; [exact HL|]. split; [exact Hc|]. split.
    + exact (Hz _ 0%nat _ eq_refl eq_refl eq_refl).
    + split; [apply HG | exact HL2].
Defined.

(* ===================================================================== *)
(** ** Unlock with a wrong password *)
(* ===================================================================== *)

Section WrongPassword.
Context `{Ext : Externals}.

Lemma verify_with_key_true_iff (k : list byte) (blob : string) :
  verify_with_key k blob = true <-> opens_to_magic k blob.
Proof.
  unfold verify_with_key, opens_to_magic. split.
  - destruct (base64_DecodeString blob) as [ct|]; [|discriminate].
    destruct (aes_key_ok k); [|discriminate]. cbn [negb].
    destruct (length ct <? NonceSize)%nat eqn:Hl; [discriminate|].
    apply Nat.ltb_ge in Hl.
    destruct (gcm_Open k (take NonceSize ct) (drop NonceSize ct)) as [pt|] eqn:Ho;
      [|discriminate].
    intros Hpt%bool_decide_eq_true. subst pt.
    exists ct. repeat split; [exact Hl | exact Ho].
  - intros (ct & -> & -> & Hl & ->). cbn [negb].
    apply Nat.ltb_ge in Hl. rewrite Hl. apply bool_decide_eq_true_2. reflexivity.
Qed.

Lemma verify_with_key_mismatch (c : Crypto) (password blob : string) :
  ~ password_matches c password blob ->
  verify_with_key (derived_key c password) blob = false.
Proof.
  intros H. destruct (verify_with_key _ _) eqn:E; [|reflexivity].
  exfalso. apply H. apply verify_with_key_true_iff, E.
Qed.

(** C4.  Wrong password.  [VerifyPassword] on a password that does not match
    the blob returns [false]; it neither fails nor panics, and the key it
    derived is zeroed.  On a locked store whose vault exists (the metadata
    file is readable and holds a salt of at least 16 bytes and parameters
    [argon2] accepts), [Unlock] with such a password returns the error
    "invalid password"; the store still has no session, its secrets map is
    as before, the files are untouched, and the only new buffer in memory is
    the zeroed temporary key. *)
Theorem C4_wrong_password (st : State) (password text : string) (m : VaultMeta)
        (slt : list byte) :
  crypto (store st) = None ->
  files (world st) !! metaPath (store st) = Some text ->
  (metaPath (store st) ∉ rfault (world st)) ->
  json_Unmarshal_VaultMeta text = Some m ->
  metaSalt m = Some slt -> (16 <= length slt)%nat ->
  valid_params (metaArgon2Params m) ->
  let c := {| params := metaArgon2Params m; salt := slt; key := None |} in
  ~ password_matches c password (metaVerification m) ->
  (forall w,
     VerifyPassword c password (metaVerification m) w
     = (Ret false, set_heap (heap w ++ [zeroed (derived_key c password)]) w))
  /\ exists st',
       Unlock password st = (Fail (errors_New "invalid password"), st')
       /\ crypto (store st') = None
       /\ isLockedUnsafe (store st') = true
       /\ data (store st') = data (store st)
       /\ heap (world st') = (heap (world st) ++ [zeroed (derived_key c password)])%list
       /\ files (world st') = files (world st)
       /\ syslog (world st') = syslog (world st).
Proof.
  intros Hc Hf Hr Hj Hs Hl Hv c Hm.
  assert (forall w,
     VerifyPassword c password (metaVerification m) w
     = (Ret false, set_heap (heap w ++ [zeroed (derived_key c password)]) w)) as HV.
  { intros w. rewrite VerifyPassword_run by exact Hv.
    rewrite verify_with_key_mismatch by exact Hm. reflexivity. }
  split; [exact HV|].
  destruct st as [s w]. destruct s as [vp mp c0 m0 d0 di au ut]. go_proj. subst c0.
  unfold Unlock, VaultExists, os_Stat_ok, loadMeta. go_unf. go_proj.
  rewrite Hf, bool_decide_eq_true_2 by eauto. go_unf.
  rewrite (os_ReadFile_run mp text w Hf Hr). rewrite Hj. go_unf. go_proj.
  rewrite Hs. rewrite NewCrypto_given_run by exact Hl.
  fold c. rewrite HV. go_unf.
  eexists. split; [reflexivity|]. destruct w. go_proj.
  repeat split; reflexivity.
Qed.
End WrongPassword.

Lemma C4_witness :
  exists st',
    Unlock (Ext := Ref.externals) "wronghorse" Sample.st_locked
    = (Fail (errors_New "invalid password"), st')
    /\ crypto (store st') = None
    /\ heap (world st') = [replicate 32 Byte.x00; replicate 32 Byte.x00].
Proof.
  pose (text := default "" (files (world Sample.st_locked) !! Sample.vault_meta)).
  pose (m := default Ref.zeroVaultMeta (Ref.VaultMeta_of_text text)).
  destruct (C4_wrong_password (Ext := Ref.externals) Sample.st_locked "wronghorse" text m
              (replicate 32 "s"%byte))
    as (_ & st' & HU & Hc & _ & _ & Hh & _).
  - reflexivity.
  - reflexivity.
  - change (Sample.vault_meta ∉ (∅ : gset string)). set_solver.
  - vm_compute. reflexivity.
  - reflexivity.
  - vm_compute. lia.
  - vm_compute. repeat split; discriminate.
  - intros H%verify_with_key_true_iff. vm_compute in H. discriminate.
  - exists st'. split; [exact HU|]. split; [exact Hc|]. rewrite Hh. reflexivity.
Defined.

(* ===================================================================== *)
(** ** ChangePassword *)
(* ===================================================================== *)

Lemma set_entropy_id (w : World) : set_entropy (entropy w) w = w.
Proof. destruct w; reflexivity. Qed.

Lemma set_entropy_twice e1 e2 (w : World) :
  set_entropy e2 (set_entropy e1 w) = set_entropy e2 w.
Proof. destruct w; reflexivity. Qed.

Lemma rand_Read_frame (n : nat) (w : World) :
  exists r en, rand_Read n w = (r, set_entropy en w) /\ forall p, r <> Panic p.
Proof.
  unfold rand_Read. go_unf. destruct (entropy w) as [|x rest] eqn:He.
  - eexists _, (entropy w). rewrite set_entropy_id. split; [reflexivity | discriminate].
  - destruct (n <=? length x)%nat; eexists _, rest; (split; [reflexivity | discriminate]).
Qed.

Section ChangePasswordSpec.
Context `{Ext : Externals}.

Lemma NewCrypto_fresh_frame ps (w : World) :
  exists r en,
    NewCrypto None ps w = (r, set_entropy en w)
    /\ match r with
       | Ret c => params c = ps /\ key c = None
       | Fail e => is_save_error e = false
       | Panic _ => False
       end.
Proof.
  unfold NewCrypto. go_unf.
  destruct (rand_Read_frame 32 w) as (r & en & -> & Hp).
  destruct r as [s|e|p]; [|eexists _, en; split; [reflexivity|reflexivity]
                          |exfalso; eapply Hp; reflexivity].
  destruct (length s <? 16)%nat; eexists _, en; (split; [reflexivity|]).
  - reflexivity.
  - split; reflexivity.
Qed.

Lemma Encrypt_frame c a k plaintext (w : World) :
  key c = Some a -> heap w !! a = Some k ->
  exists r en,
    Encrypt c plaintext w = (r, set_entropy en w)
    /\ (forall p, r <> Panic p)
    /\ (forall ct, r = Ret ct -> aes_key_ok k = true).
Proof.
  intros Hk Hb. unfold Encrypt. rewrite Hk. unfold read_buf, new_gcm. go_unf.
  rewrite Hb. go_unf. destruct (aes_key_ok k).
  - destruct (rand_Read_frame NonceSize w) as (r & en & -> & Hp).
    destruct r as [s|e|p]; eexists _, en; (split; [reflexivity|]);
      (split; [|reflexivity]); try discriminate.
    exfalso; eapply Hp; reflexivity.
  - eexists _, (entropy w). rewrite set_entropy_id. split; [reflexivity|].
    split; discriminate.
Qed.

Lemma Decrypt_frame c a k encoded (w : World) :
  key c = Some a -> heap w !! a = Some k ->
  exists r, Decrypt c encoded w = (r, w) /\ forall p, r <> Panic p.
Proof.
  intros Hk Hb. unfold Decrypt. rewrite Hk. unfold read_buf, new_gcm. go_unf.
  rewrite Hb. go_unf.
  destruct (base64_DecodeString encoded) as [ct|];
    [|eexists; split; [reflexivity|discriminate]].
  destruct (aes_key_ok k); go_unf;
    [|eexists; split; [reflexivity|discriminate]].
  destruct (length ct <? NonceSize)%nat;
    [eexists; split; [reflexivity|discriminate]|].
  destruct (gcm_Open k (take NonceSize ct) (drop NonceSize ct));
    eexists; (split; [reflexivity|discriminate]).
Qed.

Lemma decrypt_ctx_not_save path cause :
  is_save_error (fmt_Errorf ("failed to decrypt secret " ++ path) cause) = false.
Proof.
  cbn [is_save_error]. rewrite !bool_decide_eq_false_2; [reflexivity| |];
    cbn; intros [=].
Qed.

Lemma reencrypt_ctx_not_save path cause :
  is_save_error (fmt_Errorf ("failed to re-encrypt secret " ++ path) cause) = false.
Proof.
  cbn [is_save_error]. rewrite !bool_decide_eq_false_2; [reflexivity| |];
    cbn; intros [=].
Qed.

(** The re-encryption loop.  It never panics.  When it succeeds it has only
    consumed random bytes, and the new map has a ciphertext for every path
    visited.  When it fails, the only other change is that the new
    session's key buffer is zeroed. *)
Lemma reencrypt_frame old ao ko new an kn kvs acc (w : World) :
  key old = Some ao -> heap w !! ao = Some ko ->
  key new = Some an -> heap w !! an = Some kn ->
  exists r en,
    match r with
    | Ret newSecrets =>
        reencrypt old new kvs acc w = (Ret newSecrets, set_entropy en w)
        /\ dom newSecrets = dom acc ∪ list_to_set (kvs.*1)
    | Fail e =>
        reencrypt old new kvs acc w
        = (Fail e, set_entropy en (set_heap (<[an := zeroed kn]> (heap w)) w))
        /\ is_save_error e = false
    | Panic _ => False
    end.
Proof.
  intros Hko Hbo Hkn Hbn. revert acc w Hbo Hbn.
  induction kvs as [|[path encrypted] kvs IH]; intros acc w Hbo Hbn.
  - exists (Ret acc), (entropy w). rewrite set_entropy_id. split; [reflexivity|].
    cbn. rewrite (right_id_L ∅ (∪)). reflexivity.
  - cbn [reencrypt]. unfold DecryptString, EncryptString. go_unf.
    destruct (Decrypt_frame old ao ko encrypted w Hko Hbo) as (rd & -> & Hpd).
    destruct rd as [pt|e|p]; [| |exfalso; eapply Hpd; reflexivity].
    + destruct (Encrypt_frame new an kn
                  (list_byte_of_string (string_of_list_byte pt)) w Hkn Hbn)
        as (re & en1 & -> & Hpe & _).
      destruct re as [ct|e|p]; [| |exfalso; eapply Hpe; reflexivity].
      * destruct (IH (<[path := ct]> acc) (set_entropy en1 w)) as (r & en2 & Hr).
        { destruct w; exact Hbo. }
        { destruct w; exact Hbn. }
        exists r, en2. destruct r as [m|e|p]; [| |exact Hr].
        -- destruct Hr as (-> & Hdom). rewrite set_entropy_twice.
           split; [reflexivity|]. rewrite Hdom, dom_insert_L. cbn.
           rewrite (comm_L (∪) {[path]} (dom acc)), <- (assoc_L (∪)). reflexivity.
        -- destruct Hr as (-> & Hs). split; [|exact Hs].
           destruct w; reflexivity.
      * rewrite (Crypto_Lock_run new an kn (set_entropy en1 w) Hkn)
          by (destruct w; exact Hbn).
        eexists (Fail _), en1. split; [destruct w; reflexivity|].
        apply reencrypt_ctx_not_save.
    + rewrite (Crypto_Lock_run new an kn w Hkn Hbn).
      eexists (Fail _), (entropy w). split.
      * destruct w; reflexivity.
      * apply decrypt_ctx_not_save.
Qed.

Lemma saveMeta_outcome (s : EncryptedStore) (w : World) :
  exists r w',
    saveMeta {| store := s; world := w |} = (r, {| store := s; world := w' |})
    /\ heap w' = heap w /\ forall p, r <> Panic p.
Proof.
  destruct (decide (filepath_Dir (metaPath s) ∈ wfault w \/ metaPath s ∈ wfault w))
    as [H|H].
  - destruct (saveMeta_blocked s w H) as (e & l & ->).
    eexists _, _. split; [reflexivity|]. split; [destruct w; reflexivity|discriminate].
  - rewrite saveMeta_run by tauto. eexists _, _. split; [reflexivity|].
    split; [destruct w; reflexivity|discriminate].
Qed.

Lemma saveData_outcome (s : EncryptedStore) (w : World) :
  exists r s' w',
    saveData {| store := s; world := w |} = (r, {| store := s'; world := w' |})
    /\ data s' = data s /\ (forall p, r <> Panic p)
    /\ crypto s' = crypto s /\ meta s' = meta s /\ heap w' = heap w.
Proof.
  destruct (decide (filepath_Dir (vaultPath s) ∈ wfault w \/ vaultPath s ∈ wfault w))
    as [H|H].
  - destruct (saveData_blocked s w H) as (e & l & ->).
    eexists _, _, _. split; [reflexivity|]. split; [reflexivity|].
    split; [discriminate|]. destruct w; repeat split.
  - rewrite saveData_run by tauto. eexists _, _, _. split; [reflexivity|].
    split; [destruct s; reflexivity|]. split; [discriminate|].
    destruct s, w; repeat split.
Qed.

Section WithLaws.
Context (Laws : ExternalLaws Ext).

Lemma range_dom (m : gmap string string) :
  list_to_set ((map_range m).*1) = dom m.
Proof.
  apply set_eq. intros x.
  rewrite elem_of_list_to_set, (map_range_perm m).
  rewrite dom_alt, elem_of_list_to_set. reflexivity.
Qed.

(** The two ways [ChangePassword] ends on an unlocked store: either it
    fails before touching the store (only random bytes are consumed and
    zeroed buffers are left behind), or every secret was re-encrypted and
    the store was switched to the new session before the files are
    written. *)
Lemma ChangePassword_cases (st : State) (oldPassword newPassword : string)
      c a k m d :
  crypto (store st) = Some c -> key c = Some a -> heap (world st) !! a = Some k ->
  meta (store st) = Some m -> data (store st) = Some d ->
  valid_params (params c) ->
  exists r st',
    ChangePassword oldPassword newPassword st = (r, st')
    /\ ((exists e en zs,
           r = Fail e /\ is_save_error e = false
           /\ store st' = store st
           /\ world st' = set_entropy en (set_heap (heap (world st) ++ zs) (world st))
           /\ Forall all_zero zs
           /\ (~ password_matches c oldPassword (metaVerification m) ->
               e = errors_New "invalid current password"))
        \/ (password_matches c oldPassword (metaVerification m)
            /\ (r = Ret tt \/ exists e, r = Fail e /\ is_save_error e = true)
            /\ (exists newSecrets,
                  data (store st') = Some {| Secrets := newSecrets |}
                  /\ dom newSecrets = dom (Secrets d))
            /\ exists c',
                 crypto (store st') = Some c'
                 /\ session_ready c' (world st')
                 /\ is_Some (meta (store st')))).
Proof.
  intros Hc Hk Hb Hm Hd Hv.
  destruct st as [s w]. destruct s as [vp mp c0 m0 d0 di au ut]. go_proj.
  subst c0 m0 d0.
  unfold ChangePassword. go_unf. go_proj.
  rewrite VerifyPassword_run by exact Hv.
  set (zt := zeroed (derived_key c oldPassword)).
  assert (all_zero zt) as Hzt.
  { unfold all_zero, zt, zeroed. rewrite length_replicate. reflexivity. }
  destruct (verify_with_key (derived_key c oldPassword) (metaVerification m)) eqn:Hver.
  2:{ (* the old password does not verify *)
      go_unf. eexists _, _. split; [reflexivity|]. left.
      eexists _, (entropy w), [zt]. split; [reflexivity|]. split; [reflexivity|].
      split; [reflexivity|]. split; [destruct w; reflexivity|].
      split; [repeat constructor; exact Hzt | reflexivity]. }
  apply verify_with_key_true_iff in Hver. go_unf.
  assert (forall e, ~ password_matches c oldPassword (metaVerification m) ->
                    e = errors_New "invalid current password") as Hno
    by (intros e Hn; contradiction).
  match goal with
  | |- context [NewCrypto None ?ps ?w1] =>
      destruct (NewCrypto_fresh_frame ps w1) as (rn & en1 & -> & Hrn)
  end.
  destruct rn as [nc|e|p]; [| |contradiction].
  2:{ (* no fresh salt *)
      eexists _, _. split; [reflexivity|]. left.
      eexists _, en1, [zt]. split; [reflexivity|]. split; [reflexivity|].
      split; [reflexivity|]. split; [destruct w; reflexivity|].
      split; [repeat constructor; exact Hzt | apply Hno]. }
  destruct Hrn as [Hps Hnk]. destruct nc as [ps ns nk]. go_proj. subst ps nk.
  rewrite Crypto_Unlock_run by apply valid_default_params.
  set (nc := {| params := DefaultArgon2Params; salt := ns; key := None |}).
  set (kn := derived_key nc newPassword).
  assert (all_zero (zeroed kn)) as Hzn.
  { unfold all_zero, zeroed. rewrite length_replicate. reflexivity. }
  destruct w as [fs wf rf sl hp ob en ck]. go_proj.
  rewrite length_app. cbn [length].
  set (an := (length hp + 1)%nat).
  assert (((hp ++ [zt]) ++ [kn])%list !! an = Some kn) as Hbn.
  { subst an. rewrite <- app_assoc. cbn [app].
    rewrite lookup_app_r by lia. replace (length hp + 1 - length hp)%nat with 1%nat by lia.
    reflexivity. }
  assert (<[an := zeroed kn]> ((hp ++ [zt]) ++ [kn])%list
          = (hp ++ [zt; zeroed kn])%list) as Hins.
  { subst an. rewrite <- app_assoc. cbn [app]. rewrite insert_app_r. reflexivity. }
  assert (((hp ++ [zt]) ++ [kn])%list !! a = Some k) as Hbo.
  { rewrite <- app_assoc. apply lookup_app_l_Some. exact Hb. }
  unfold CreateVerificationBlob, EncryptString.
  match goal with
  | |- context [Encrypt ?c1 ?pt ?w1] =>
      destruct (Encrypt_frame c1 an kn pt w1 eq_refl Hbn)
        as (rv & en2 & -> & Hrv & Hok)
  end.
  go_proj.
  destruct rv as [verification|e|p]; [| |exfalso; eapply Hrv; reflexivity].
  2:{ (* no verification blob *)
      erewrite Crypto_Lock_run; [|reflexivity|exact Hbn]. go_proj. rewrite Hins.
      eexists _, _. split; [reflexivity|]. left.
      eexists _, en2, [zt; zeroed kn]. split; [reflexivity|]. split; [reflexivity|].
      split; [reflexivity|]. split; [reflexivity|].
      split; [repeat constructor; assumption | apply Hno]. }
  match goal with
  | |- context [reencrypt ?c1 ?c2 ?kvs ?acc ?w1] =>
      destruct (reencrypt_frame c1 a k c2 an kn kvs acc w1 Hk Hbo eq_refl Hbn)
        as (rr & en3 & Hrr)
  end.
  destruct rr as [newSecrets|e|p]; [| |contradiction].
  2:{ (* a secret could not be re-encrypted *)
      destruct Hrr as (-> & Hns). go_proj. rewrite Hins.
      eexists _, _. split; [reflexivity|]. left.
      eexists _, en3, [zt; zeroed kn]. split; [reflexivity|]. split; [exact Hns|].
      split; [reflexivity|]. split; [reflexivity|].
      split; [repeat constructor; assumption | apply Hno]. }
  (* every secret re-encrypted: the store is switched over, then saved *)
  destruct Hrr as (-> & Hdom). go_proj.
  erewrite Crypto_Lock_run; [|exact Hk|exact Hbo]. go_proj.
  rewrite dom_empty_L, (left_id_L ∅ (∪)), range_dom in Hdom.
  match goal with
  | |- context [saveMeta {| store := ?s1; world := ?w1 |}] =>
      destruct (saveMeta_outcome s1 w1) as (rm & w2 & -> & Hh2 & Hrm)
  end.
  assert (a <> an) as Hne.
  { apply lookup_lt_Some in Hb. subst an. lia. }
  assert (forall w', heap w' = <[a := zeroed k]> ((hp ++ [zt]) ++ [kn])%list ->
                     session_ready (set_key (Some an) nc) w') as Hready.
  { intros w' Hw'. split; [apply valid_default_params|].
    exists an, kn. split; [reflexivity|]. split; [|eapply Hok; reflexivity].
    rewrite Hw', list_lookup_insert_ne by exact Hne. exact Hbn. }
  destruct rm as [[]|e|p]; [| |exfalso; eapply Hrm; reflexivity].
  2:{ eexists _, _. split; [reflexivity|]. right. split; [exact Hver|].
      split; [right; eexists; split; reflexivity|].
      split; [exists newSecrets; split; [reflexivity|exact Hdom]|].
      eexists. split; [reflexivity|]. split; [apply Hready, Hh2|eexists; reflexivity]. }
  match goal with
  | |- context [saveData {| store := ?s1; world := ?w1 |}] =>
      destruct (saveData_outcome s1 w1)
        as (rd & s3 & w3 & -> & Hds & Hrd & Hcs & Hms & Hh3)
  end.
  assert (exists c', crypto s3 = Some c' /\ session_ready c' w3 /\ is_Some (meta s3))
    as Hsession.
  { eexists. split; [exact Hcs|]. split; [apply Hready; rewrite Hh3, Hh2; reflexivity|].
    rewrite Hms. eexists; reflexivity. }
  destruct rd as [[]|e|p]; [| |exfalso; eapply Hrd; reflexivity].
  - eexists _, _. split; [reflexivity|]. right. split; [exact Hver|].
    split; [left; reflexivity|].
    split; [exists newSecrets; split; [exact Hds|exact Hdom]|exact Hsession].
  - eexists _, _. split; [reflexivity|]. right. split; [exact Hver|].
    split; [right; eexists; split; reflexivity|].
    split; [exists newSecrets; split; [exact Hds|exact Hdom]|exact Hsession].
Qed.
End WithLaws.
End ChangePasswordSpec.

Section ChangePasswordClaims.
Context `{Ext : Externals} (Laws : ExternalLaws Ext).

End ChangePasswordClaims.


(* ===================================================================== *)
(** ** ChangePassword on a locked store *)
(* ===================================================================== *)

Section ChangePasswordLocked.
Context `{Ext : Externals}.

(** C3.  On a locked store ([s.crypto] is nil) [ChangePassword] does not
    return: it panics with a nil pointer dereference, because
    [VerifyPassword] reads [c.salt] through the nil session (or, before
    that, [s.meta.Verification] through nil metadata).  [Get], [Set],
    [Delete], [Exists] and [List] return "vault is locked" in that state. *)
Theorem C3_ChangePassword_locked_panics (st : State) (oldPassword newPassword : string) :
  crypto (store st) = None ->
  ChangePassword oldPassword newPassword st = (Panic nil_deref, st)
  /\ (forall path, Get path st = (Fail errLocked, st))
  /\ (forall path p, Store_Set path p st = (Fail errLocked, st)).
Proof.
  intros Hc. split.
  - destruct st as [s w]. destruct s as [vp mp c0 m0 d0 di au ut]. go_proj. subst c0.
    unfold ChangePassword. go_unf. go_proj. destruct m0; reflexivity.
  - destruct (locked_store_refuses st Hc) as (G1 & G2 & _). split; assumption.
Qed.
End ChangePasswordLocked.

Lemma C3_witness :
  ChangePassword (Ext := Ref.externals) "correcthorse" "tr0ub4dor" Sample.st_locked
  = (Panic nil_deref, Sample.st_locked).
Proof.
  apply (C3_ChangePassword_locked_panics (Ext := Ref.externals) Sample.st_locked).
  reflexivity.
Defined.

(* ===================================================================== *)
(** ** saveData writes the data file in place *)
(* ===================================================================== *)

Lemma issued_app (w : World) (l : list Syscall) (w' : World) :
  syslog w' = (syslog w ++ l)%list -> issued w w' = l.
Proof. intros H. unfold issued. rewrite H. apply drop_app_length. Qed.

Lemma write_calls_no_rename dir target text :
  ~ temp_then_rename target (write_calls dir target text)
  /\ forall oldpath newpath, SysRename oldpath newpath ∉ write_calls dir target text.
Proof.
  split.
  - intros (tmp & t & pre & post & _ & _ & _ & Hno). apply Hno.
    unfold write_calls. apply elem_of_cons. right. apply list_elem_of_here.
  - intros o n' Hin. unfold write_calls in Hin.
    repeat (apply elem_of_cons in Hin as [Hin|Hin]; [discriminate|]).
    inversion Hin.
Qed.

Lemma write_calls_replay dir target text (fs : gmap string string) :
  replay (write_calls dir target text) fs = <[target := text]> fs.
Proof.
  unfold write_calls, replay. cbv [foldl apply_syscall].
  rewrite lookup_insert_eq, insert_insert_eq. reflexivity.
Qed.

(** After the second call the target is empty, and that state can be seen. *)
Lemma write_calls_empty_between dir target text (fs : gmap string string) :
  replay (take 2 (write_calls dir target text)) fs
    ∈ observable (write_calls dir target text) fs
  /\ replay (take 2 (write_calls dir target text)) fs !! target = Some "".
Proof.
  split.
  - unfold observable. apply list_elem_of_fmap. exists 2%nat.
    split; [reflexivity|]. apply elem_of_seq. unfold write_calls. cbn [length]. lia.
  - unfold write_calls, replay. cbv [take foldl apply_syscall]. apply lookup_insert_eq.
Qed.

Section SaveInPlace.
Context `{Ext : Externals}.

Lemma saveData_issued (st : State) :
  (filepath_Dir (vaultPath (store st)) ∉ wfault (world st)) ->
  (vaultPath (store st) ∉ wfault (world st)) ->
  exists st',
    saveData st = (Ret tt, st')
    /\ issued (world st) (world st')
       = write_calls (filepath_Dir (vaultPath (store st))) (vaultPath (store st))
           (json_Marshal_VaultData (data (store st)))
    /\ files (world st')
       = <[vaultPath (store st) := json_Marshal_VaultData (data (store st))]>
           (files (world st))
    /\ dirty (store st') = false.
Proof.
  intros H1 H2. destruct st as [s w].
  rewrite (saveData_run s w H1 H2). eexists. split; [reflexivity|].
  destruct s as [vp mp c0 m0 d0 di au ut], w as [fs wf rf sl hp ob en ck]. go_proj.
  split; [apply issued_app; reflexivity|]. split; reflexivity.
Qed.

(** C1 (as amended).  Whenever the directory and the data file can be
    written, [saveData] succeeds by these calls, in this order: create the
    directory, open the data file itself with truncation, write the whole
    serialized vault into it, close it.  Afterwards the file holds the
    serialized vault and the store is clean.  No file is renamed and no
    temporary file is written; between the second and the third call the
    data file is empty, and a reader can see it so. *)
Theorem C1_saveData_writes_in_place (st : State) :
  (filepath_Dir (vaultPath (store st)) ∉ wfault (world st)) ->
  (vaultPath (store st) ∉ wfault (world st)) ->
  let target := vaultPath (store st) in
  let text := json_Marshal_VaultData (data (store st)) in
  let calls := [SysMkdirAll (filepath_Dir target); SysOpenTrunc target;
                SysWrite target text; SysClose target] in
  exists st',
    saveData st = (Ret tt, st')
    /\ issued (world st) (world st') = calls
    /\ files (world st') = replay calls (files (world st))
    /\ files (world st') !! target = Some text
    /\ dirty (store st') = false
    /\ ~ temp_then_rename target calls
    /\ (forall oldpath newpath, SysRename oldpath newpath ∉ calls)
    /\ replay (take 2 calls) (files (world st)) ∈ observable calls (files (world st))
    /\ replay (take 2 calls) (files (world st)) !! target = Some "".
Proof.
  intros H1 H2 target text calls.
  destruct (saveData_issued st H1 H2) as (st' & Hs & Hi & Hf & Hd).
  exists st'. fold target text in Hi, Hf.
  change calls with (write_calls (filepath_Dir target) target text).
  split; [exact Hs|]. split; [exact Hi|].
  split; [rewrite write_calls_replay; exact Hf|].
  split; [rewrite Hf; apply lookup_insert_eq|]. split; [exact Hd|].
  split; [apply write_calls_no_rename|]. split; [apply write_calls_no_rename|].
  apply write_calls_empty_between.
Qed.
End SaveInPlace.

(** C1, as stated, fails: saving the vault of the sample store issues no
    rename and writes no temporary file, and a reader can find the data file
    empty, which is neither its old nor its new contents. *)
Lemma C1_counterexample :
  exists st' calls,
    saveData (Ext := Ref.externals) Sample.st_s1 = (Ret tt, st')
    /\ issued (world Sample.st_s1) (world st') = calls
    /\ ~ temp_then_rename Sample.vault_enc calls
    /\ (forall oldpath newpath, SysRename oldpath newpath ∉ calls)
    /\ exists fs,
         fs ∈ observable calls (files (world Sample.st_s1))
         /\ fs !! Sample.vault_enc = Some ""
         /\ files (world Sample.st_s1) !! Sample.vault_enc <> Some ""
         /\ files (world st') !! Sample.vault_enc <> Some "".
Proof.
  destruct (saveData_issued (Ext := Ref.externals) Sample.st_s1)
    as (st' & Hs & Hi & Hf & _).
  - change ("/home/u/.omnivault" ∉ (∅ : gset string)). set_solver.
  - change (Sample.vault_enc ∉ (∅ : gset string)). set_solver.
  - exists st', (issued (world Sample.st_s1) (world st')).
    split; [exact Hs|]. split; [reflexivity|]. rewrite Hi.
    split; [apply write_calls_no_rename|]. split; [apply write_calls_no_rename|].
    eexists. split; [apply write_calls_empty_between|].
    split; [apply write_calls_empty_between|]. split.
    + vm_compute. discriminate.
    + rewrite Hf, lookup_insert_eq. vm_compute. discriminate.
Qed.

Lemma C1_witness :
  exists st',
    saveData (Ext := Ref.externals) Sample.st_s1 = (Ret tt, st')
    /\ issued (world Sample.st_s1) (world st')
       = [SysMkdirAll "/home/u/.omnivault"; SysOpenTrunc Sample.vault_enc;
          SysWrite Sample.vault_enc (Ref.VaultData_to_text (data (store Sample.st_s1)));
          SysClose Sample.vault_enc].
Proof.
  destruct (C1_saveData_writes_in_place (Ext := Ref.externals) Sample.st_s1)
    as (st' & H1 & H2 & _).
  - change ("/home/u/.omnivault" ∉ (∅ : gset string)). set_solver.
  - change (Sample.vault_enc ∉ (∅ : gset string)). set_solver.
  - exists st'. split; [exact H1 | exact H2].
Defined.

(* ===================================================================== *)
(** ** PUT /secret/<path> and the timestamps *)
(* ===================================================================== *)

Lemma substring_all (s : string) : substring 0 (String.length s) s = s.
Proof. induction s as [|c s IH]; cbn; [reflexivity | rewrite IH; reflexivity]. Qed.

Lemma TrimPrefix_secret (path : string) :
  strings_TrimPrefix ("/secret/" ++ path) "/secret/" = path.
Proof.
  unfold strings_TrimPrefix, strings_HasPrefix. cbv [String.append]. cbn.
  replace (String.prefix "" path) with true by (destruct path; reflexivity).
  rewrite Nat.sub_0_r. apply substring_all.
Qed.

Section PutSpec.
Context `{Ext : Externals} (Laws : ExternalLaws Ext).

(** C6 (as amended).  On an unlocked store, a [PUT /secret/<path>] that can
    draw its nonce and write the data file answers 200, and the secret then
    stored under the path carries the time of this write both as
    [created_at] and as [modified_at] (in whole seconds), whatever was stored
    under the path before: [GET /secret/<path>] reports that time twice. *)
Theorem C6_put_stamps_both_times (st : State) c a k d (path : string)
        (req : SetSecretRequest) (r : list byte) (rest : list (list byte)) :
  unlocked_with st c a k d ->
  path <> "" ->
  entropy (world st) = r :: rest -> (NonceSize <= length r)%nat ->
  (filepath_Dir (vaultPath (store st)) ∉ wfault (world st)) ->
  (vaultPath (store st) ∉ wfault (world st)) ->
  let now := next_time (world st) in
  json_roundtrips (stamp now (request_secret req)) ->
  exists st' got,
    handleSecret "PUT" ("/secret/" ++ path) (Some req) st
    = (Ret (writeJSON StatusOK (SuccessResponse true "secret saved")), st')
    /\ Get path st' = (Ret got, st')
    /\ CreatedAt (SecretMetadata got) = Some (rfc3339 now)
    /\ ModifiedAt (SecretMetadata got) = Some (rfc3339 now)
    /\ reply_created_at (fst (handleSecret "GET" ("/secret/" ++ path) None st'))
       = Some (rfc3339 now)
    /\ reply_updated_at (fst (handleSecret "GET" ("/secret/" ++ path) None st'))
       = Some (rfc3339 now).
Proof.
  intros Hu Hp He Hn Hw1 Hw2 now Hj.
  pose (st1 := {| store := store st;
                  world := set_objects (objects (world st) ++ [request_secret req])
                             (world st) |}).
  assert (unlocked_with st1 c a k d) as Hu1.
  { destruct Hu as [Hc Hk Hb Hok Hd]. destruct st as [s w]. destruct w.
    split; assumption. }
  destruct (Get_after_Set Laws st1 c a k d path (length (objects (world st)))
              (request_secret req) r rest Hu1)
    as (st' & Hset & Hget & _ & Hc').
  { destruct st as [s w]. destruct w. apply snoc_lookup. }
  { destruct st as [s w]. destruct w. exact Hj. }
  { destruct st as [s w]. destruct w. exact He. }
  { exact Hn. }
  { destruct st as [s w]. destruct w. exact Hw1. }
  { destruct st as [s w]. destruct w. exact Hw2. }
  assert (next_time (world st1) = now) as Hnow
    by (destruct st as [s w]; destruct w; reflexivity).
  rewrite Hnow in Hget.
  assert (isLockedUnsafe (store st) = false) as Hl.
  { destruct Hu as [Hc Hk _ _ _]. unfold isLockedUnsafe, IsUnlocked.
    rewrite Hc, Hk. reflexivity. }
  assert (isLockedUnsafe (store st') = false) as Hl'.
  { destruct Hu as [_ Hk _ _ _]. unfold isLockedUnsafe, IsUnlocked.
    rewrite Hc', Hk. reflexivity. }
  destruct (stamp_times now (request_secret req)) as (T1 & T2).
  exists st', (json_view (stamp now (request_secret req))).
  split; [|split; [exact Hget|split; [|split; [|split]]]].
  - unfold handleSecret. rewrite TrimPrefix_secret.
    rewrite bool_decide_eq_false_2 by exact Hp.
    unfold IsLocked, setSecret, new_object. go_unf. rewrite Hl.
    rewrite (bool_decide_eq_false_2 ("PUT" = "GET")) by discriminate.
    rewrite (bool_decide_eq_true_2 ("PUT" = "PUT")) by reflexivity.
    fold (request_secret req). fold st1. rewrite Hset. reflexivity.
  - cbn [json_view with_Metadata SecretMetadata CreatedAt]. rewrite T2. reflexivity.
  - cbn [json_view with_Metadata SecretMetadata ModifiedAt]. rewrite T1. reflexivity.
  - unfold handleSecret. rewrite TrimPrefix_secret.
    rewrite bool_decide_eq_false_2 by exact Hp.
    unfold IsLocked, getSecret. go_unf. rewrite Hl'.
    rewrite (bool_decide_eq_true_2 ("GET" = "GET")) by reflexivity. rewrite Hget.
    cbn [fst reply_created_at writeJSON body respCreatedAt json_view with_Metadata
         SecretMetadata CreatedAt].
    rewrite T2. reflexivity.
  - unfold handleSecret. rewrite TrimPrefix_secret.
    rewrite bool_decide_eq_false_2 by exact Hp.
    unfold IsLocked, getSecret. go_unf. rewrite Hl'.
    rewrite (bool_decide_eq_true_2 ("GET" = "GET")) by reflexivity. rewrite Hget.
    cbn [fst reply_updated_at writeJSON body respUpdatedAt json_view with_Metadata
         SecretMetadata ModifiedAt].
    rewrite T1. reflexivity.
Qed.
End PutSpec.

(** C6, as stated, fails: two successful [PUT]s to the same path, the first at
    clock reading 3.5 s and the second at 4.2 s.  After the first, [GET]
    reports [created_at] = 3 s; after the second it reports 4 s. *)
Lemma C6_counterexample :
  handleSecret (Ext := Ref.externals) "PUT" "/secret/db/pw" (Sample.put "s3cret")
    Sample.st_init
  = (Ret (writeJSON StatusOK (SuccessResponse true "secret saved")), Sample.st_s1)
  /\ handleSecret (Ext := Ref.externals) "PUT" "/secret/db/pw" (Sample.put "n3wer")
       Sample.st_s1
     = (Ret (writeJSON StatusOK (SuccessResponse true "secret saved")), Sample.st_s1')
  /\ reply_created_at
       (fst (handleSecret (Ext := Ref.externals) "GET" "/secret/db/pw" None Sample.st_s1))
     = Some 3000000000
  /\ reply_created_at
       (fst (handleSecret (Ext := Ref.externals) "GET" "/secret/db/pw" None Sample.st_s1'))
     = Some 4000000000.
Proof. repeat split; vm_compute; reflexivity. Qed.

Lemma C6_witness :
  exists st' got,
    handleSecret (Ext := Ref.externals) "PUT" "/secret/db/pw" (Sample.put "n3wer")
      Sample.st_s1
    = (Ret (writeJSON StatusOK (SuccessResponse true "secret saved")), st')
    /\ Get (Ext := Ref.externals) "db/pw" st' = (Ret got, st')
    /\ CreatedAt (SecretMetadata got) = Some 4000000000
    /\ ModifiedAt (SecretMetadata got) = Some 4000000000.
Proof.
  pose (c := default (init_crypto [] 0) (crypto (store Sample.st_s1))).
  pose (d := default Ref.zeroVaultData (data (store Sample.st_s1))).
  pose (k := default [] (heap (world Sample.st_s1) !! 0%nat)).
  destruct (C6_put_stamps_both_times (Ext := Ref.externals) Ref_laws Sample.st_s1
              c 0%nat k d "db/pw" {| reqValue := "n3wer"; reqFields := ∅; reqTags := ∅ |}
              (replicate 32 "c"%byte) (drop 4 (entropy Sample.w_fresh)))
    as (st' & got & H1 & H2 & H3 & H4 & _).
  - split; reflexivity.
  - discriminate.
  - reflexivity.
  - vm_compute. lia.
  - change ("/home/u/.omnivault" ∉ (∅ : gset string)). set_solver.
  - change (Sample.vault_enc ∉ (∅ : gset string)). set_solver.
  - apply Ref_json_roundtrips.
  - exists st', got. split; [exact H1|]. split; [exact H2|]. split; [exact H3 | exact H4].
Defined.

(* ===================================================================== *)
(** ** The states the store can reach *)
(* ===================================================================== *)

Lemma effect_ready (st st' : State) :
  store_ready st -> effect st st' -> store_ready st'.
Proof.
  unfold store_ready, effect.
  intros Hr [(Hc & Hm & Hd & zs & Hh)|[Hc|(c & Hc & Hs & Hm & Hd)]].
  - rewrite Hc. destruct (crypto (store st)) as [c|]; [|exact I].
    destruct Hr as ((Hv & a & k & Hk & Hb & Hok) & Hm' & Hd').
    split; [|split; [apply Hm, Hm' | apply Hd, Hd']].
    split; [exact Hv|]. exists a, k. split; [exact Hk|]. split; [|exact Hok].
    rewrite Hh. apply lookup_app_l_Some, Hb.
  - rewrite Hc. exact I.
  - rewrite Hc. auto.
Qed.

Lemma effect_same (st : State) : effect st st.
Proof.
  left. split; [reflexivity|]. split; [auto|]. split; [auto|].
  exists []. rewrite app_nil_r. reflexivity.
Qed.

(** The first case of [effect], for explicit states with the same session and
    the same memory. *)
Ltac effect_kept :=
  left; go_proj; split; [reflexivity|]; split; [eauto|]; split; [eauto|];
  exists []; rewrite app_nil_r; reflexivity.

Section Effects.
Context `{Ext : Externals}.

Lemma Get_effect (st : State) path : effect st (snd (Get path st)).
Proof.
  destruct st as [[? ? [[]|] ? ? ? ? ?] []];
    destruct (Get _ _) as [r st'] eqn:E; cbn [snd]; go_run; effect_kept.
Qed.

Lemma Exists_effect (st : State) path : effect st (snd (Store_Exists path st)).
Proof.
  destruct st as [[? ? [[]|] ? ? ? ? ?] []];
    destruct (Store_Exists _ _) as [r st'] eqn:E; cbn [snd]; go_run; effect_kept.
Qed.

Lemma List_effect (st : State) prefix : effect st (snd (Store_List prefix st)).
Proof.
  destruct st as [[? ? [[]|] ? ? ? ? ?] []];
    destruct (Store_List _ _) as [r st'] eqn:E; cbn [snd]; go_run; effect_kept.
Qed.

Lemma SecretCount_effect (st : State) : effect st (snd (SecretCount st)).
Proof.
  destruct st as [[? ? ? ? [] ? ? ?] []]; apply effect_same.
Qed.

Lemma Set_effect (st : State) path p : effect st (snd (Store_Set path p st)).
Proof.
  destruct st as [[? ? [[]|] ? ? ? ? ?] []];
    destruct (Store_Set _ _ _) as [r st'] eqn:E; cbn [snd]; go_run; effect_kept.
Qed.

Lemma Delete_effect (st : State) path : effect st (snd (Delete path st)).
Proof.
  destruct st as [[? ? [[]|] ? ? ? ? ?] []];
    destruct (Delete _ _) as [r st'] eqn:E; cbn [snd]; go_run; effect_kept.
Qed.

Lemma Lock_effect (st : State) : effect st (snd (Lock st)).
Proof.
  destruct st as [[? ? [[]|] ? ? ? ? ?] []];
    destruct (Lock _) as [r st'] eqn:E; cbn [snd]; go_run;
    first [effect_kept | right; left; reflexivity].
Qed.
End Effects.

Section SessionEffects.
Context `{Ext : Externals}.

(** [VerifyPassword] either derives, compares and wipes a temporary key, or
    panics in [argon2] before touching anything. *)
Lemma VerifyPassword_cases c password blob (w : World) :
  (valid_params (params c)
   /\ VerifyPassword c password blob w
      = (Ret (verify_with_key (derived_key c password) blob),
         set_heap (heap w ++ [zeroed (derived_key c password)]) w))
  \/ (exists p, VerifyPassword c password blob w = (Panic p, w)).
Proof.
  destruct (a2Time (params c) <? 1)%N eqn:Ht.
  { right. unfold VerifyPassword, DeriveKey. go_unf. rewrite Ht. eauto. }
  destruct (a2Threads (params c) <? 1)%N eqn:Hp.
  { right. unfold VerifyPassword, DeriveKey. go_unf. rewrite Ht, Hp. eauto. }
  destruct (a2KeyLen (params c) <? 1)%N eqn:Hl.
  { right. unfold VerifyPassword, DeriveKey. go_unf. rewrite Ht, Hp, Hl. eauto. }
  apply N.ltb_ge in Ht, Hp, Hl. left.
  assert (valid_params (params c)) as Hv by (repeat split; assumption).
  split; [exact Hv | apply VerifyPassword_run, Hv].
Qed.

Lemma Initialize_effect (st : State) password :
  effect st (snd (Initialize password st)).
Proof.
  destruct st as [s w]. destruct s as [vp mp c0 m0 d0 di au ut].
  destruct w as [fs wf rf sl hp ob en ck].
  unfold Initialize, VaultExists, os_Stat_ok. go_unf. go_proj.
  destruct (bool_decide (is_Some (fs !! mp))); [apply effect_same|].
  match goal with
  | |- context [NewCrypto None ?ps ?w1] =>
      destruct (NewCrypto_fresh_frame ps w1) as (rn & en1 & -> & Hrn)
  end.
  destruct rn as [nc|e|p]; [| |contradiction].
  2:{ cbn [snd]. effect_kept. }
  destruct Hrn as [Hps Hnk]. destruct nc as [ps ns nk]. go_proj. subst ps nk.
  rewrite Crypto_Unlock_run by apply valid_default_params.
  set (nc := {| params := DefaultArgon2Params; salt := ns; key := None |}).
  set (kn := derived_key nc password). go_proj.
  set (an := length hp).
  assert ((hp ++ [kn])%list !! an = Some kn) as Hbn by apply snoc_lookup.
  unfold CreateVerificationBlob, EncryptString.
  match goal with
  | |- context [Encrypt ?c1 ?pt ?w1] =>
      destruct (Encrypt_frame c1 an kn pt w1 eq_refl Hbn) as (rv & en2 & -> & Hrv & Hok)
  end.
  go_proj.
  destruct rv as [verification|e|p]; [| |exfalso; eapply Hrv; reflexivity].
  2:{ erewrite Crypto_Lock_run; [|reflexivity|exact Hbn]. go_proj. cbn [snd].
      left. go_proj.
      split; [reflexivity|]. split; [auto|]. split; [auto|].
      exists [zeroed kn]. subst an.
      replace (length hp) with (length hp + 0)%nat at 1 by lia.
      rewrite insert_app_r. reflexivity. }
  rewrite !time_Now_run. go_proj.
  match goal with
  | |- context [saveMeta {| store := ?s1; world := ?w1 |}] =>
      destruct (saveMeta_outcome s1 w1) as (rm & w2 & -> & Hh2 & Hrm)
  end.
  assert (forall w', heap w' = (hp ++ [kn])%list ->
                     session_ready (set_key (Some an) nc) w') as Hready.
  { intros w' Hw'. split; [apply valid_default_params|].
    exists an, kn. split; [reflexivity|]. split; [|eapply Hok; reflexivity].
    rewrite Hw'. exact Hbn. }
  destruct rm as [[]|e|p]; [| |exfalso; eapply Hrm; reflexivity].
  2:{ cbn [snd]. right. right. eexists. go_proj.
      split; [reflexivity|]. split; [apply Hready, Hh2|].
      split; eexists; reflexivity. }
  match goal with
  | |- context [saveData {| store := ?s1; world := ?w1 |}] =>
      destruct (saveData_outcome s1 w1)
        as (rd & s3 & w3 & -> & Hds & Hrd & Hcs & Hms & Hh3)
  end.
  assert (forall st0, effect st0 {| store := s3; world := w3 |}) as Heff.
  { intros st0. right. right. eexists. go_proj. split; [exact Hcs|].
    split; [apply Hready; rewrite Hh3, Hh2; reflexivity|].
    rewrite Hms, Hds. split; eexists; reflexivity. }
  destruct rd as [[]|e|p]; apply Heff.
Qed.

Lemma NewCrypto_frame salt0 ps (w : World) :
  exists r en,
    NewCrypto salt0 ps w = (r, set_entropy en w)
    /\ match r with
       | Ret c => params c = ps /\ key c = None
       | Fail _ => True
       | Panic _ => False
       end.
Proof.
  destruct salt0 as [s|].
  - unfold NewCrypto. go_unf.
    destruct (length s <? 16)%nat; eexists _, (entropy w);
      rewrite set_entropy_id; (split; [reflexivity|]); repeat split.
  - destruct (NewCrypto_fresh_frame ps w) as (r & en & Hr & Hc).
    exists r, en. split; [exact Hr|]. destruct r; auto.
Qed.

Lemma Unlock_effect (st : State) password :
  effect st (snd (Unlock password st)).
Proof.
  destruct st as [s w]. destruct s as [vp mp c0 m0 d0 di au ut].
  destruct w as [fs wf rf sl hp ob en ck].
  unfold Unlock, VaultExists, os_Stat_ok, loadMeta, os_ReadFile. go_unf. go_proj.
  destruct (bool_decide (is_Some (fs !! mp))); go_unf; [|apply effect_same].
  destruct (fs !! mp) as [text|]; go_unf; [|apply effect_same].
  destruct (bool_decide (mp ∈ rf)); go_unf; [apply effect_same|].
  destruct (json_Unmarshal_VaultMeta text) as [m|]; go_unf; go_proj;
    [|apply effect_same].
  match goal with
  | |- context [NewCrypto ?s0 ?ps ?w1] =>
      destruct (NewCrypto_frame s0 ps w1) as (rn & en1 & -> & Hrn)
  end.
  destruct rn as [nc|e|p]; [| |contradiction]; go_proj.
  2:{ cbn [snd]. effect_kept. }
  destruct Hrn as [Hps Hnk].
  match goal with
  | |- context [VerifyPassword ?c1 ?pw ?blob ?w1] =>
      destruct (VerifyPassword_cases c1 pw blob w1) as [[Hv ->]|[p ->]]
  end.
  2:{ cbn [snd]. effect_kept. }
  go_proj. set (zt := zeroed (derived_key nc password)).
  destruct (verify_with_key (derived_key nc password) (metaVerification m)) eqn:Hver.
  2:{ go_unf. cbn [snd]. left. go_proj.
      split; [reflexivity|]. split; [eauto|]. split; [auto|].
      exists [zt]. reflexivity. }
  apply verify_with_key_true_iff in Hver. destruct Hver as (ct & _ & Hok & _).
  go_unf. rewrite Crypto_Unlock_run by exact Hv. go_proj.
  rewrite time_Now_run. go_proj.
  set (kn := derived_key nc password) in *.
  set (an := length (hp ++ [zt])%list).
  assert (((hp ++ [zt]) ++ [kn])%list !! an = Some kn) as Hbn by apply snoc_lookup.
  assert (forall w', heap w' = ((hp ++ [zt]) ++ [kn])%list ->
                     session_ready (set_key (Some an) nc) w') as Hready.
  { intros w' Hw'. split; [destruct nc; exact Hv|].
    exists an, kn. split; [destruct nc; reflexivity|]. split; [|exact Hok].
    rewrite Hw'. exact Hbn. }
  unfold loadData, os_ReadFile. go_unf. go_proj.
  destruct (fs !! vp) as [text'|]; go_unf; go_proj.
  - destruct (bool_decide (vp ∈ rf)); go_unf; go_proj.
    + cbv [os_IsNotExist io_error]. rewrite bool_decide_eq_false_2 by discriminate.
      go_unf. go_proj.
      erewrite Crypto_Lock_run; [|destruct nc; reflexivity|exact Hbn].
      cbn [snd]. right. left. reflexivity.
    + destruct (json_Unmarshal_VaultData text') as [vd|]; go_unf; go_proj.
      * cbn [snd]. right. right. eexists. go_proj. split; [reflexivity|].
        split; [apply Hready; reflexivity|]. split; eexists; reflexivity.
      * erewrite Crypto_Lock_run; [|destruct nc; reflexivity|exact Hbn].
        cbn [snd]. right. left. reflexivity.
  - cbv [os_IsNotExist ErrNotExist]. rewrite bool_decide_eq_true_2 by reflexivity.
    go_unf. go_proj. cbn [snd]. right. right. eexists. go_proj.
    split; [reflexivity|].
    split; [apply Hready; reflexivity|]. split; eexists; reflexivity.
Qed.

Section WithLaws.
Context (Laws : ExternalLaws Ext).

Lemma ChangePassword_effect (st : State) oldPassword newPassword :
  store_ready st -> effect st (snd (ChangePassword oldPassword newPassword st)).
Proof.
  intros Hr. unfold store_ready in Hr.
  destruct (crypto (store st)) as [c|] eqn:Hc.
  - destruct Hr as ((Hv & a & k & Hk & Hb & _) & (m & Hm) & (d & Hd)).
    destruct (ChangePassword_cases Laws st oldPassword newPassword c a k m d
                Hc Hk Hb Hm Hd Hv) as (r & st' & -> & Hcases).
    cbn [snd].
    destruct Hcases as [(e & en & zs & _ & _ & Hs & Hw & _)
                       |(_ & _ & (ns & Hdata & _) & c' & Hc' & Hs' & Hm')].
    + left. rewrite Hs, Hw. split; [reflexivity|]. split; [auto|]. split; [auto|].
      exists zs. destruct (world st); reflexivity.
    + right. right. exists c'. split; [exact Hc'|]. split; [exact Hs'|].
      split; [exact Hm'|]. rewrite Hdata. eexists; reflexivity.
  - destruct st as [s w]. destruct s as [vp mp c0 m0 d0 di au ut]. go_proj.
    subst c0. unfold ChangePassword. go_unf. go_proj.
    destruct m0; apply effect_same.
Qed.
End WithLaws.
End SessionEffects.

Section Reachable.
Context `{Ext : Externals} (Laws : ExternalLaws Ext).

Lemma call_effect (c : Call) (st : State) :
  store_ready st -> effect st (after c st).
Proof.
  intros Hr. destruct c; cbn [after].
  - apply Initialize_effect.
  - apply Unlock_effect.
  - apply Lock_effect.
  - apply Get_effect.
  - apply Set_effect.
  - apply Delete_effect.
  - apply Exists_effect.
  - apply List_effect.
  - apply SecretCount_effect.
  - apply effect_same.
  - apply Lock_effect.
  - apply (ChangePassword_effect Laws), Hr.
Qed.

(** Whatever calls were made and however they ended, a store that has a
    session has a ready one, with metadata and secrets loaded: the
    assumptions of the statements about an unlocked store hold in every
    state the interface can produce. *)
Theorem reachable_ready (st : State) : reachable st -> store_ready st.
Proof.
  induction 1 as [vp mp w|c st _ IH|st w _ IH Hh].
  - exact I.
  - exact (effect_ready st _ IH (call_effect c st IH)).
  - unfold store_ready in *. cbn [store world].
    destruct (crypto (store st)); [|exact I].
    destruct IH as ((Hv & a & k & Hk & Hb & Hok) & Hm & Hd).
    split; [|split; assumption]. split; [exact Hv|].
    exists a, k. rewrite Hh. auto.
Qed.

(** X30.  Unlocked means usable.  In every state the store can reach
    through its interface, if [isLockedUnsafe] is false then the store has
    a session whose key buffer is allocated, its metadata and its secrets
    are loaded, and the session's parameters are ones [argon2] accepts:
    no call leaves the store unlocked but half set up. *)
Corollary reachable_unlocked (st : State) :
  reachable st -> isLockedUnsafe (store st) = false ->
  exists c a k m d,
    unlocked_with st c a k d /\ meta (store st) = Some m /\ valid_params (params c).
Proof.
  intros Hr%reachable_ready Hl. unfold store_ready in Hr. unfold isLockedUnsafe in Hl.
  destruct (crypto (store st)) as [c|] eqn:Hc; [|discriminate].
  destruct Hr as ((Hv & a & k & Hk & Hb & Hok) & (m & Hm) & (d & Hd)).
  exists c, a, k, m, d. split; [|split; assumption].
  constructor; assumption.
Qed.
End Reachable.

(* ===================================================================== *)
(** ** More on the crypto session *)
(* ===================================================================== *)

Section CryptoMore.
Context `{Ext : Externals}.


Section WithLaws.
Context (Laws : ExternalLaws Ext).

(** X2.  Encryption round trip.  On an unlocked session whose key has an
    AES size, with the random source delivering a nonce, [Encrypt]
    succeeds and [Decrypt] of its result gives the plaintext back, for
    every plaintext, the empty one included; neither call touches the
    key, and [Decrypt] leaves the environment as it is. *)
Theorem Encrypt_Decrypt_roundtrip (c : Crypto) (a : nat) (k plaintext : list byte)
        (w : World) (r : list byte) (rest : list (list byte)) :
  key c = Some a -> heap w !! a = Some k -> aes_key_ok k = true ->
  entropy w = r :: rest -> (NonceSize <= length r)%nat ->
  exists encoded w',
    Encrypt c plaintext w = (Ret encoded, w')
    /\ Decrypt c encoded w' = (Ret plaintext, w')
    /\ heap w' = heap w.
Proof.
  intros Hk Hb Hok He Hn.
  exists (envelope k (take NonceSize r) plaintext), (set_entropy rest w).
  split; [apply (Encrypt_run c a k); assumption|].
  split; [|destruct w; reflexivity].
  apply (Decrypt_envelope Laws c a k); try assumption.
  rewrite length_take. lia.
Qed.

(** X3.  The verification blob.  A session with parameters [argon2]
    accepts and a key length of 16, 24 or 32 bytes, unlocked with a
    password, creates a verification blob that [VerifyPassword] accepts
    for that password, also on a session that is locked.  The check
    derives a temporary key, leaves it zeroed, and does not touch the
    session's own key. *)
Theorem VerifyPassword_accepts_creator (c : Crypto) (password : string) (w : World)
        (r : list byte) (rest : list (list byte)) :
  valid_params (params c) ->
  a2KeyLen (params c) ∈ [16; 24; 32]%N ->
  entropy w = r :: rest -> (NonceSize <= length r)%nat ->
  let k := derived_key c password in
  exists c' blob w1 w2 w3,
    Crypto_Unlock c password w = (Ret c', w1)
    /\ CreateVerificationBlob c' w1 = (Ret blob, w2)
    /\ VerifyPassword c password blob w2 = (Ret true, w3)
    /\ key c' = Some (length (heap w))
    /\ heap w3 = (heap w ++ [k; zeroed k])%list.
Proof.
  intros Hv Hlen He Hn k.
  assert (aes_key_ok k = true) as Hok.
  { unfold aes_key_ok, k, derived_key. rewrite argon2_length.
    rewrite !elem_of_cons in Hlen.
    destruct Hlen as [->|[->|[->|Hlen]]]; [reflexivity..|].
    apply elem_of_nil in Hlen. contradiction. }
  destruct w as [fs wf rf sl hp ob en ck]. cbn [entropy heap] in *. subst en.
  eexists _, _, _, _, _.
  split; [apply Crypto_Unlock_run; exact Hv|]. cbn [heap set_heap].
  split.
  { unfold CreateVerificationBlob, EncryptString.
    apply (Encrypt_run _ (length hp) k);
      [reflexivity | apply snoc_lookup | exact Hok | reflexivity | exact Hn]. }
  split.
  { rewrite VerifyPassword_run by exact Hv. fold k.
    rewrite (verify_with_key_envelope Laws) by (try exact Hok; rewrite length_take; lia).
    reflexivity. }
  split; [reflexivity|].
  cbn. rewrite <- app_assoc. reflexivity.
Qed.
End WithLaws.
End CryptoMore.

(* ===================================================================== *)
(** ** More on the store: reading, deleting, overwriting *)
(* ===================================================================== *)

Section Readers.
Context `{Ext : Externals}.

(** X4.  Reading does not write.  [Get], [Exists], [List], [SecretCount]
    and [IsLocked] leave the store and its environment (files, key
    buffers, random source, clock, callers' objects) exactly as they were,
    whatever they return, in every state. *)
Theorem readers_leave_state (st : State) (path prefix : string) :
  snd (Get path st) = st
  /\ snd (Store_Exists path st) = st
  /\ snd (Store_List prefix st) = st
  /\ snd (SecretCount st) = st
  /\ snd (IsLocked st) = st.
Proof.
  split; [apply Get_pure|]. destruct st as [s w].
  unfold Store_Exists, Store_List, SecretCount, IsLocked. go_unf. cbn [store world].
  repeat split; go_cases; reflexivity.
Qed.
End Readers.

Section Writers.
Context `{Ext : Externals}.

Lemma Exists_run (st : State) c a k d path :
  unlocked_with st c a k d ->
  Store_Exists path st = (Ret (bool_decide (is_Some (Secrets d !! path))), st).
Proof.
  intros [Hc Hk Hb Hok Hd]. destruct st as [s w]. cbn [store world] in *.
  unfold Store_Exists, isLockedUnsafe, IsUnlocked. go_unf. cbn [store world].
  rewrite Hc, Hk, Hd. reflexivity.
Qed.

Lemma Get_missing (st : State) c a k d path :
  unlocked_with st c a k d -> Secrets d !! path = None ->
  Get path st = (Fail ErrSecretNotFound, st).
Proof.
  intros [Hc Hk Hb Hok Hd] Hp. destruct st as [s w]. cbn [store world] in *.
  unfold Get, isLockedUnsafe, IsUnlocked. go_unf. cbn [store world].
  rewrite Hc, Hk, Hd. go_unf. rewrite Hp. reflexivity.
Qed.

Lemma SecretCount_run (st : State) d :
  data (store st) = Some d -> SecretCount st = (Ret (size (Secrets d)), st).
Proof.
  intros Hd. destruct st as [s w]. cbn [store] in Hd.
  unfold SecretCount. go_unf. cbn [store]. rewrite Hd. reflexivity.
Qed.

(** A successful [Delete]: what it leaves behind. *)
Lemma Delete_run (st : State) c a k d path :
  unlocked_with st c a k d ->
  (filepath_Dir (vaultPath (store st)) ∉ wfault (world st)) ->
  (vaultPath (store st) ∉ wfault (world st)) ->
  exists st',
    Delete path st = (Ret tt, st')
    /\ unlocked_with st' c a k {| Secrets := delete path (Secrets d) |}
    /\ heap (world st') = heap (world st)
    /\ meta (store st') = meta (store st)
    /\ (autoSave (store st) = true ->
        dirty (store st') = false
        /\ files (world st') !! vaultPath (store st)
           = Some (json_Marshal_VaultData
                     (Some {| Secrets := delete path (Secrets d) |}))).
Proof.
  intros [Hc Hk Hb Hok Hd] Hw1 Hw2.
  destruct st as [s w]. destruct s as [vp mp c0 m0 d0 di au ut].
  destruct w as [fs wf rf sl hp ob en ck]. go_proj. subst c0 d0.
  unfold Delete, isLockedUnsafe, IsUnlocked. go_unf. go_proj.
  rewrite Hk. go_unf. go_proj. destruct au.
  - match goal with
    | |- context [saveData {| store := ?s; world := ?w |}] =>
        rewrite (saveData_run s w Hw1 Hw2)
    end.
    go_proj. eexists. split; [reflexivity|].
    split; [split; go_proj; auto|]. split; [reflexivity|]. split; [reflexivity|].
    intros _. split; [reflexivity|]. go_proj. apply lookup_insert_eq.
  - eexists. split; [reflexivity|].
    split; [split; go_proj; auto|]. split; [reflexivity|]. split; [reflexivity|].
    discriminate.
Qed.

(** X5.  Deleting.  On an unlocked store whose data file can be written,
    [Delete(path)] succeeds whether or not the path holds a secret;
    afterwards [Exists(path)] is false and [Get(path)] returns
    [ErrSecretNotFound], every other path reads and exists as before, and
    (with auto-save, as every store has it) the data file holds the map
    without the path. *)
Theorem Delete_then_absent (st : State) c a k d (path : string) :
  unlocked_with st c a k d ->
  (filepath_Dir (vaultPath (store st)) ∉ wfault (world st)) ->
  (vaultPath (store st) ∉ wfault (world st)) ->
  exists st',
    Delete path st = (Ret tt, st')
    /\ Store_Exists path st' = (Ret false, st')
    /\ Get path st' = (Fail ErrSecretNotFound, st')
    /\ (forall path', path' <> path ->
          fst (Get path' st') = fst (Get path' st)
          /\ fst (Store_Exists path' st') = fst (Store_Exists path' st))
    /\ fst (SecretCount st')
       = Ret (size (Secrets d) - (if Secrets d !! path is Some _ then 1 else 0))%nat
    /\ (autoSave (store st) = true ->
        files (world st') !! vaultPath (store st)
        = Some (json_Marshal_VaultData (Some {| Secrets := delete path (Secrets d) |}))).
Proof.
  intros Hu Hw1 Hw2.
  destruct (Delete_run st c a k d path Hu Hw1 Hw2) as (st' & HD & Hu' & Hh & _ & Hsave).
  exists st'. split; [exact HD|].
  split.
  { rewrite (Exists_run st' c a k _ path Hu'). cbn [Secrets].
    rewrite lookup_delete_eq, bool_decide_eq_false_2; [reflexivity|].
    intros [? ?]; discriminate. }
  split; [apply (Get_missing st' c a k _ path Hu'); apply lookup_delete_eq|].
  split.
  { intros path' Hne. split.
    - apply Get_agree.
      + rewrite (uw_crypto _ _ _ _ _ Hu), (uw_crypto _ _ _ _ _ Hu'). reflexivity.
      + exact Hh.
      + rewrite (uw_data _ _ _ _ _ Hu), (uw_data _ _ _ _ _ Hu'). split; discriminate.
      + intros d1 d2 H1 H2.
        rewrite (uw_data _ _ _ _ _ Hu') in H1. rewrite (uw_data _ _ _ _ _ Hu) in H2.
        injection H1 as <-. injection H2 as <-. cbn [Secrets].
        apply lookup_delete_ne. congruence.
    - rewrite (Exists_run st' c a k _ path' Hu'), (Exists_run st c a k d path' Hu).
      cbn [fst Secrets]. rewrite lookup_delete_ne by congruence. reflexivity. }
  split.
  { rewrite (SecretCount_run st' _ (uw_data _ _ _ _ _ Hu')). cbn [fst Secrets]. f_equal.
    destruct (Secrets d !! path) as [v|] eqn:Hp.
    - rewrite map_size_delete_Some by eauto. lia.
    - rewrite delete_id by exact Hp. lia. }
  intros Hau. apply Hsave, Hau.
Qed.

(** X6.  Storing leaves the other secrets alone.  After a successful
    [Set(path, secret)] the path exists, every other path reads and exists
    exactly as before, and the number of secrets has grown by one when the
    path is new and is unchanged when the path was overwritten. *)
Theorem Set_keeps_other_paths (st : State) c a k d (path : string) (p : nat)
        (sec : Secret) (text : string) (r : list byte) (rest : list (list byte)) :
  unlocked_with st c a k d ->
  objects (world st) !! p = Some sec ->
  json_Marshal_Secret (stamp (next_time (world st)) sec) = Some text ->
  entropy (world st) = r :: rest -> (NonceSize <= length r)%nat ->
  (filepath_Dir (vaultPath (store st)) ∉ wfault (world st)) ->
  (vaultPath (store st) ∉ wfault (world st)) ->
  exists st',
    Store_Set path p st = (Ret tt, st')
    /\ Store_Exists path st' = (Ret true, st')
    /\ (forall path', path' <> path ->
          fst (Get path' st') = fst (Get path' st)
          /\ fst (Store_Exists path' st') = fst (Store_Exists path' st))
    /\ fst (SecretCount st')
       = Ret (size (Secrets d) + (if Secrets d !! path is Some _ then 0 else 1))%nat.
Proof.
  intros Hu Ho Hj He Hn Hw1 Hw2.
  destruct (Store_Set_run st c a k d path p sec text r rest Hu Ho Hj He Hn Hw1 Hw2)
    as (st' & HS & Hc' & Hd' & _ & _ & _ & _ & Hh & _).
  assert (unlocked_with st' c a k
            {| Secrets := <[path := envelope k (take NonceSize r) (list_byte_of_string text)]>
                            (Secrets d) |}) as Hu'.
  { destruct Hu as [Hc Hk Hb Hok Hd].
    split; [exact Hc' | exact Hk | rewrite Hh; exact Hb | exact Hok | exact Hd']. }
  exists st'. split; [exact HS|].
  split.
  { rewrite (Exists_run st' c a k _ path Hu'). cbn [Secrets].
    rewrite lookup_insert_eq, bool_decide_eq_true_2 by eauto. reflexivity. }
  split.
  { intros path' Hne. split.
    - apply Get_agree.
      + rewrite (uw_crypto _ _ _ _ _ Hu), Hc'. reflexivity.
      + exact Hh.
      + rewrite (uw_data _ _ _ _ _ Hu), Hd'. split; discriminate.
      + intros d1 d2 H1 H2. rewrite Hd' in H1. rewrite (uw_data _ _ _ _ _ Hu) in H2.
        injection H1 as <-. injection H2 as <-. cbn [Secrets].
        apply lookup_insert_ne. congruence.
    - rewrite (Exists_run st' c a k _ path' Hu'), (Exists_run st c a k d path' Hu).
      cbn [fst Secrets]. rewrite lookup_insert_ne by congruence. reflexivity. }
  rewrite (SecretCount_run st' _ Hd'). cbn [fst Secrets]. f_equal.
  destruct (Secrets d !! path) as [v|] eqn:Hp.
  - rewrite map_size_insert_Some by eauto. lia.
  - rewrite map_size_insert_None by exact Hp. lia.
Qed.

(** X19.  A failed save is not undone.  With auto-save on and the data file
    (or its directory) not writable, [Set] and [Delete] return the error of
    the file system, but the change has already been made in memory: the
    store is dirty, [Exists] answers for the new map, and the files are as
    before.  For [Set] the caller's secret has been stamped as well. *)
Theorem save_failure_keeps_change (st : State) c a k d (path : string) :
  unlocked_with st c a k d ->
  autoSave (store st) = true ->
  (filepath_Dir (vaultPath (store st)) ∈ wfault (world st)
   \/ vaultPath (store st) ∈ wfault (world st)) ->
  (exists e st',
     Delete path st = (Fail e, st')
     /\ dirty (store st') = true
     /\ data (store st') = Some {| Secrets := delete path (Secrets d) |}
     /\ Store_Exists path st' = (Ret false, st')
     /\ files (world st') = files (world st))
  /\ (forall p sec text r rest,
        objects (world st) !! p = Some sec ->
        json_Marshal_Secret (stamp (next_time (world st)) sec) = Some text ->
        entropy (world st) = r :: rest -> (NonceSize <= length r)%nat ->
        exists e st',
          Store_Set path p st = (Fail e, st')
          /\ dirty (store st') = true
          /\ data (store st')
             = Some {| Secrets := <[path := envelope k (take NonceSize r)
                                               (list_byte_of_string text)]> (Secrets d) |}
          /\ Store_Exists path st' = (Ret true, st')
          /\ objects (world st') !! p = Some (stamp (next_time (world st)) sec)
          /\ files (world st') = files (world st)).
Proof.
  intros [Hc Hk Hb Hok Hd] Hau Hw.
  destruct st as [s w]. destruct s as [vp mp c0 m0 d0 di au ut].
  destruct w as [fs wf rf sl hp ob en ck]. unfold next_time. go_proj. subst c0 d0 au.
  split.
  - unfold Delete, isLockedUnsafe, IsUnlocked. go_unf. go_proj. rewrite Hk. go_unf. go_proj.
    match goal with
    | |- context [saveData {| store := ?s; world := ?w |}] =>
        destruct (saveData_blocked s w Hw) as (e & l & ->)
    end.
    go_proj. eexists _, _. split; [reflexivity|]. go_proj.
    split; [reflexivity|]. split; [reflexivity|]. split; [|reflexivity].
    erewrite Exists_run; [|split; go_proj; eauto]. cbn [Secrets].
    rewrite lookup_delete_eq, bool_decide_eq_false_2; [reflexivity|].
    intros [? ?]; discriminate.
  - intros p sec text r rest Ho Hj -> Hn.
    unfold Store_Set, isLockedUnsafe, IsUnlocked, vault_Now. go_unf. go_proj.
    rewrite Hk. go_unf. rewrite time_Now_run. unfold next_time. go_proj.
    unfold write_object, read_object. go_unf. go_proj.
    rewrite Ho. go_unf. go_proj. rewrite Ho. go_unf. go_proj.
    rewrite list_lookup_insert_eq by (eapply lookup_lt_Some; eassumption).
    go_unf. rewrite Hj. go_unf.
    unfold EncryptString.
    erewrite Encrypt_run; [ | eassumption | eassumption | assumption | reflexivity | assumption ].
    go_proj.
    match goal with
    | |- context [saveData {| store := ?s; world := ?w |}] =>
        destruct (saveData_blocked s w Hw) as (e & l & ->)
    end.
    go_proj. eexists _, _. split; [reflexivity|]. go_proj.
    split; [reflexivity|]. split; [reflexivity|].
    split; [|split; [|reflexivity]].
    + erewrite Exists_run; [|split; go_proj; eauto]. cbn [Secrets].
      rewrite lookup_insert_eq, bool_decide_eq_true_2 by eauto. reflexivity.
    + apply list_lookup_insert_eq. eapply lookup_lt_Some; eassumption.
Qed.
End Writers.

(* ===================================================================== *)
(** ** Unlocking: what is loaded, what a failed load leaves, persistence *)
(* ===================================================================== *)

Section UnlockMore.
Context `{Ext : Externals}.

(** [Unlock] up to the point where it loads the data file. *)
Lemma Unlock_upto_load (st : State) (password : string) (m : VaultMeta)
      (slt : list byte) :
  meta_on_disk st m slt ->
  password_matches (session_of m slt) password (metaVerification m) ->
  let k := derived_key (session_of m slt) password in
  let a := S (length (heap (world st))) in
  let c := set_key (Some a) (session_of m slt) in
  Unlock password st
  = catch loadData
          (fun err => io (Crypto_Lock c);;;
                      upd (set_crypto None);;;
                      fail (fmt_Errorf "failed to load vault data" err))
      {| store := set_unlockTime (next_time (world st))
                    (set_crypto (Some c) (set_meta (Some m) (store st)));
         world := set_clock (tail (clock (world st)))
                    (set_heap (heap (world st) ++ [zeroed k; k]) (world st)) |}.
Proof.
  intros (text & Hf & Hr & Hj & Hs & Hl & Hv) Hm k a c.
  destruct st as [s w]. destruct s as [vp mp c0 m0 d0 di au ut].
  destruct w as [fs wf rf sl hp ob en ck]. go_proj.
  unfold Unlock at 1, VaultExists, os_Stat_ok, loadMeta. go_unf. go_proj.
  rewrite Hf, bool_decide_eq_true_2 by eauto. go_unf.
  match goal with
  | |- context [os_ReadFile mp ?w] => rewrite (os_ReadFile_run mp text w Hf Hr)
  end.
  rewrite Hj. go_unf. go_proj.
  rewrite Hs. rewrite NewCrypto_given_run by exact Hl.
  fold (session_of m slt).
  rewrite VerifyPassword_run by exact Hv. fold k.
  apply verify_with_key_true_iff in Hm. fold k in Hm. rewrite Hm. go_unf. go_proj.
  rewrite Crypto_Unlock_run by exact Hv. go_proj. fold k.
  rewrite time_Now_run. unfold next_time. go_proj.
  rewrite length_app. cbn [length].
  replace (length hp + 1)%nat with (S (length hp)) by lia.
  rewrite <- app_assoc. reflexivity.
Qed.

(** A successful [Unlock]: the store it leaves. *)
Lemma Unlock_run (st : State) (password : string) (m : VaultMeta)
      (slt : list byte) (d : VaultData) :
  meta_on_disk st m slt ->
  password_matches (session_of m slt) password (metaVerification m) ->
  data_on_disk st d
  \/ (files (world st) !! vaultPath (store st) = None /\ d = {| Secrets := ∅ |}) ->
  let k := derived_key (session_of m slt) password in
  let a := S (length (heap (world st))) in
  exists st',
    Unlock password st = (Ret tt, st')
    /\ unlocked_with st' (set_key (Some a) (session_of m slt)) a k d
    /\ meta (store st') = Some m
    /\ heap (world st') = (heap (world st) ++ [zeroed k; k])%list
    /\ files (world st') = files (world st)
    /\ syslog (world st') = syslog (world st)
    /\ dirty (store st') = dirty (store st).
Proof.
  intros Hmeta Hm Hdata k a.
  rewrite (Unlock_upto_load st password m slt Hmeta Hm). fold k a.
  assert (aes_key_ok k = true) as Hok.
  { destruct Hm as (ct & _ & Hok & _). exact Hok. }
  destruct st as [s w]. destruct s as [vp mp c0 m0 d0 di au ut].
  destruct w as [fs wf rf sl hp ob en ck]. unfold data_on_disk in Hdata. go_proj.
  unfold loadData, os_ReadFile. go_unf. go_proj.
  assert (((hp ++ [zeroed k; k])%list !! a) = Some k) as Hbuf.
  { subst a. cbn [heap world].
    change [zeroed k; k] with ([zeroed k] ++ [k])%list. rewrite app_assoc.
    replace (S (length hp)) with (length (hp ++ [zeroed k])%list)
      by (rewrite length_app; cbn; lia).
    apply snoc_lookup. }
  destruct Hdata as [(text & Hf & Hr & Hj)|(Hf & ->)].
  - rewrite Hf. rewrite bool_decide_eq_false_2 by exact Hr. go_unf. rewrite Hj.
    go_unf. go_proj. eexists. split; [reflexivity|]. go_proj.
    split; [split; go_proj; auto|]. repeat split; reflexivity.
  - rewrite Hf. go_unf. cbv [os_IsNotExist ErrNotExist].
    rewrite bool_decide_eq_true_2 by reflexivity. go_unf. go_proj.
    eexists. split; [reflexivity|]. go_proj.
    split; [split; go_proj; auto|]. repeat split; reflexivity.
Qed.

(** X7.  A vault without a data file.  When the metadata file is there and
    the password matches, but the data file does not exist ([loadData]:
    "new vault, no data yet"), [Unlock] succeeds and the store is unlocked
    with an empty secrets map: it counts no secret, lists nothing and
    [Get] finds nothing. *)
Theorem Unlock_without_data_file (st : State) (password : string) (m : VaultMeta)
        (slt : list byte) :
  meta_on_disk st m slt ->
  password_matches (session_of m slt) password (metaVerification m) ->
  files (world st) !! vaultPath (store st) = None ->
  exists st',
    Unlock password st = (Ret tt, st')
    /\ fst (IsLocked st') = Ret false
    /\ fst (SecretCount st') = Ret 0%nat
    /\ (forall path, fst (Get path st') = Fail ErrSecretNotFound)
    /\ (forall path, fst (Store_Exists path st') = Ret false)
    /\ files (world st') = files (world st).
Proof.
  intros Hmeta Hm Hf.
  destruct (Unlock_run st password m slt {| Secrets := ∅ |} Hmeta Hm (or_intror (conj Hf eq_refl)))
    as (st' & HU & Hu & _ & _ & Hfs & _).
  exists st'. split; [exact HU|].
  split.
  { destruct Hu as [Hc Hk _ _ _]. destruct st' as [s' w']. cbn [store] in Hc.
    unfold IsLocked, isLockedUnsafe, IsUnlocked. go_unf. cbn [store fst].
    rewrite Hc, Hk. reflexivity. }
  split; [rewrite (SecretCount_run st' _ (uw_data _ _ _ _ _ Hu)); reflexivity|].
  split.
  { intros path. erewrite Get_missing; [reflexivity|exact Hu|apply lookup_empty]. }
  split; [|exact Hfs].
  intros path. erewrite Exists_run by exact Hu. cbn [fst Secrets].
  rewrite lookup_empty, bool_decide_eq_false_2; [reflexivity|].
  intros [? ?]; discriminate.
Qed.

(** X8.  A data file that cannot be loaded.  When the password matches but
    the data file exists and cannot be read or does not parse, [Unlock]
    returns "failed to load vault data: ..." and leaves the store locked:
    the session it had installed is dropped again, the key derived for it
    is zeroed like the temporary one of the password check, the secrets map
    in memory and the files are as before. *)
Theorem Unlock_load_failure (st : State) (password : string) (m : VaultMeta)
        (slt : list byte) :
  meta_on_disk st m slt ->
  password_matches (session_of m slt) password (metaVerification m) ->
  data_unusable st ->
  let k := derived_key (session_of m slt) password in
  exists cause st',
    Unlock password st = (Fail (fmt_Errorf "failed to load vault data" cause), st')
    /\ crypto (store st') = None
    /\ fst (IsLocked st') = Ret true
    /\ heap (world st') = (heap (world st) ++ [zeroed k; zeroed k])%list
    /\ data (store st') = data (store st)
    /\ files (world st') = files (world st).
Proof.
  intros Hmeta Hm (text & Hf & Hbad) k.
  rewrite (Unlock_upto_load st password m slt Hmeta Hm). fold k.
  destruct st as [s w]. destruct s as [vp mp c0 m0 d0 di au ut].
  destruct w as [fs wf rf sl hp ob en ck]. go_proj.
  unfold loadData, os_ReadFile. go_unf. go_proj. rewrite Hf.
  assert (((hp ++ [zeroed k; k])%list !! S (length hp)) = Some k) as Hbuf.
  { change [zeroed k; k] with ([zeroed k] ++ [k])%list. rewrite app_assoc.
    replace (S (length hp)) with (length (hp ++ [zeroed k])%list)
      by (rewrite length_app; cbn; lia).
    apply snoc_lookup. }
  assert (<[S (length hp) := zeroed k]> (hp ++ [zeroed k; k])%list
          = (hp ++ [zeroed k; zeroed k])%list) as Hins.
  { replace (S (length hp)) with (length hp + 1)%nat by lia.
    rewrite insert_app_r. reflexivity. }
  destruct (bool_decide (vp ∈ rf)) eqn:Hr.
  - go_unf. cbv [os_IsNotExist io_error]. rewrite bool_decide_eq_false_2 by discriminate.
    go_unf. go_proj.
    erewrite Crypto_Lock_run; [|reflexivity|exact Hbuf]. go_proj. rewrite Hins.
    eexists _, _. split; [reflexivity|]. repeat split; reflexivity.
  - apply bool_decide_eq_false in Hr. destruct Hbad as [Hbad|Hbad]; [contradiction|].
    go_unf. rewrite Hbad. go_unf. go_proj.
    erewrite Crypto_Lock_run; [|reflexivity|exact Hbuf]. go_proj. rewrite Hins.
    eexists _, _. split; [reflexivity|]. repeat split; reflexivity.
Qed.

(** X18.  Unlocking an unlocked store.  [Unlock] does not look at the
    session the store already has.  Called with the matching password on a
    store that is unlocked, it succeeds: the store gets a new session with
    a key in a fresh buffer, the secrets map in memory is replaced by the
    one read from the data file, and the buffer of the previous key is left
    as it is, not zeroed. *)
Theorem Unlock_again (st : State) (password : string) c a k (m : VaultMeta)
        (slt : list byte) (d : VaultData) :
  crypto (store st) = Some c -> key c = Some a -> heap (world st) !! a = Some k ->
  meta_on_disk st m slt ->
  password_matches (session_of m slt) password (metaVerification m) ->
  data_on_disk st d ->
  exists st' c' a',
    Unlock password st = (Ret tt, st')
    /\ crypto (store st') = Some c' /\ key c' = Some a' /\ a' <> a
    /\ heap (world st') !! a' = Some (derived_key (session_of m slt) password)
    /\ heap (world st') !! a = Some k
    /\ data (store st') = Some d.
Proof.
  intros Hc Hk Hb Hmeta Hm Hdata.
  destruct (Unlock_run st password m slt d Hmeta Hm (or_introl Hdata))
    as (st' & HU & [Hc' Hk' Hb' _ Hd'] & _ & Hh & _).
  eexists st', _, _. split; [exact HU|]. split; [exact Hc'|]. split; [exact Hk'|].
  split; [apply lookup_lt_Some in Hb; lia|]. split; [exact Hb'|].
  split; [|exact Hd']. rewrite Hh. apply lookup_app_l_Some. exact Hb.
Qed.
End UnlockMore.

(* ===================================================================== *)
(** ** Persistence: lock, unlock, read again *)
(* ===================================================================== *)

Section Persistence.
Context `{Ext : Externals}.

(** What [Decrypt] returns depends on the bytes of the key, not on where
    they are kept. *)
Lemma Decrypt_same_key c1 c2 a1 a2 k encoded (w1 w2 : World) :
  key c1 = Some a1 -> heap w1 !! a1 = Some k ->
  key c2 = Some a2 -> heap w2 !! a2 = Some k ->
  fst (Decrypt c1 encoded w1) = fst (Decrypt c2 encoded w2).
Proof.
  intros Hk1 Hb1 Hk2 Hb2. unfold Decrypt, read_buf, new_gcm.
  rewrite Hk1, Hk2. go_unf. rewrite Hb1, Hb2. go_unf.
  go_cases; reflexivity.
Qed.

Lemma Get_same_key path (st1 st2 : State) c1 a1 c2 a2 k d1 d2 :
  unlocked_with st1 c1 a1 k d1 -> unlocked_with st2 c2 a2 k d2 ->
  Secrets d1 !! path = Secrets d2 !! path ->
  fst (Get path st1) = fst (Get path st2).
Proof.
  intros [Hc1 Hk1 Hb1 _ Hd1] [Hc2 Hk2 Hb2 _ Hd2] Hp.
  destruct st1 as [s1 w1], st2 as [s2 w2]. cbn [store world] in *.
  unfold Get, DecryptString, isLockedUnsafe, IsUnlocked. go_unf. cbn [store world].
  rewrite Hc1, Hc2, Hk1, Hk2, Hd1, Hd2. go_unf. rewrite <- Hp.
  destruct (Secrets d1 !! path) as [enc|]; [|reflexivity]. go_unf. cbn [store world].
  pose proof (Decrypt_same_key c1 c2 a1 a2 k enc w1 w2 Hk1 Hb1 Hk2 Hb2) as HD.
  destruct (Decrypt c1 enc w1) as [r1 w1'], (Decrypt c2 enc w2) as [r2 w2'].
  cbn [fst] in HD. subst r2. destruct r1; [|reflexivity..].
  destruct (json_Unmarshal_Secret _); reflexivity.
Qed.

Lemma List_run (st : State) c a k d prefix :
  unlocked_with st c a k d ->
  Store_List prefix st
  = (Ret (sort_Strings (collect_paths prefix (map_range (Secrets d)))), st).
Proof.
  intros [Hc Hk Hb Hok Hd]. destruct st as [s w]. cbn [store world] in *.
  unfold Store_List, isLockedUnsafe, IsUnlocked. go_unf. cbn [store world].
  rewrite Hc, Hk, Hd. reflexivity.
Qed.

(** [Lock] on an unlocked store that has nothing to save. *)
Lemma Lock_clean_run (st : State) c a k d :
  unlocked_with st c a k d -> dirty (store st) = false ->
  Lock st
  = (Ret tt,
     {| store := set_dirty false (set_data None (set_crypto None (store st)));
        world := set_heap (<[a := zeroed k]> (heap (world st))) (world st) |}).
Proof.
  intros [Hc Hk Hb Hok Hd] Hdi.
  destruct st as [s w]. destruct s as [vp mp c0 m0 d0 di au ut]. go_proj. subst c0 d0 di.
  unfold Lock. go_unf. go_proj.
  rewrite (Crypto_Lock_run c a k w Hk Hb). reflexivity.
Qed.

(** X9.  Secrets persist across lock and unlock.  Take an unlocked store
    with nothing left to save, whose key is the one derived from the
    password, and whose two files parse to the metadata and to the secrets
    map it holds.  Then [Lock] succeeds and the store answers "vault is
    locked"; [Unlock] with the password succeeds; and afterwards every
    [Get], [Exists] and [List] returns what it returned before the lock. *)
Theorem Lock_Unlock_restores (st : State) (password : string) c a (m : VaultMeta)
        (d : VaultData) :
  unlocked_with st c a (derived_key c password) d ->
  dirty (store st) = false ->
  meta_on_disk st m (salt c) ->
  metaArgon2Params m = params c ->
  password_matches c password (metaVerification m) ->
  data_on_disk st d ->
  exists st1 st2,
    Lock st = (Ret tt, st1)
    /\ (forall path, Get path st1 = (Fail errLocked, st1))
    /\ Unlock password st1 = (Ret tt, st2)
    /\ (forall path, fst (Get path st2) = fst (Get path st))
    /\ (forall path, fst (Store_Exists path st2) = fst (Store_Exists path st))
    /\ (forall prefix, fst (Store_List prefix st2) = fst (Store_List prefix st))
    /\ fst (SecretCount st2) = fst (SecretCount st).
Proof.
  intros Hu Hdi Hmeta Hps Hm Hdata.
  assert (forall pw, derived_key (session_of m (salt c)) pw = derived_key c pw) as Hdk.
  { intros pw. unfold derived_key, session_of. cbn [params salt]. rewrite Hps. reflexivity. }
  assert (password_matches (session_of m (salt c)) password (metaVerification m)) as Hm'.
  { unfold password_matches. rewrite Hdk. exact Hm. }
  pose (st1 := {| store := set_dirty false (set_data None (set_crypto None (store st)));
                  world := set_heap (<[a := zeroed (derived_key c password)]>
                                       (heap (world st))) (world st) |}).
  assert (meta_on_disk st1 m (salt c)) as Hmeta1.
  { destruct st as [[] []]. exact Hmeta. }
  assert (data_on_disk st1 d) as Hdata1.
  { destruct st as [[] []]. exact Hdata. }
  destruct (Unlock_run st1 password m (salt c) d Hmeta1 Hm' (or_introl Hdata1))
    as (st2 & HU & Hu2 & _).
  rewrite Hdk in Hu2.
  exists st1, st2. split; [apply (Lock_clean_run st c a _ d Hu Hdi)|].
  split.
  { intros path. apply locked_store_refuses. destruct st as [[] ?]; reflexivity. }
  split; [exact HU|].
  split; [intros path; apply (Get_same_key path st2 st _ _ _ _ _ d d Hu2 Hu); reflexivity|].
  split.
  { intros path. rewrite (Exists_run st2 _ _ _ d path Hu2), (Exists_run st c a _ d path Hu).
    reflexivity. }
  split.
  { intros prefix. rewrite (List_run st2 _ _ _ d prefix Hu2), (List_run st c a _ d prefix Hu).
    reflexivity. }
  rewrite (SecretCount_run st2 d (uw_data _ _ _ _ _ Hu2)),
          (SecretCount_run st d (uw_data _ _ _ _ _ Hu)).
  reflexivity.
Qed.
End Persistence.

(* ===================================================================== *)
(** ** A successful change of password *)
(* ===================================================================== *)

Section ChangeMore.
Context `{Ext : Externals}.

(** What a successful [Encrypt] returned. *)
Lemma Encrypt_success c a k plaintext (w w' : World) encoded :
  key c = Some a -> heap w !! a = Some k ->
  Encrypt c plaintext w = (Ret encoded, w') ->
  aes_key_ok k = true
  /\ exists r rest,
       entropy w = r :: rest /\ (NonceSize <= length r)%nat
       /\ encoded = envelope k (take NonceSize r) plaintext
       /\ w' = set_entropy rest w.
Proof.
  intros Hk Hb. unfold Encrypt, read_buf, new_gcm, rand_Read. rewrite Hk. go_unf.
  rewrite Hb. go_unf. destruct (aes_key_ok k); [|discriminate]. go_unf.
  destruct (entropy w) as [|r rest] eqn:He; [discriminate|].
  destruct (NonceSize <=? length r)%nat eqn:Hn; [|discriminate].
  intros [= <- <-]. split; [reflexivity|]. apply Nat.leb_le in Hn.
  exists r, rest. repeat split; assumption.
Qed.

(** What [Get] returns for a path whose entry decrypts to [plaintext]. *)
Lemma Get_decrypted (st : State) c a d path encrypted plaintext :
  crypto (store st) = Some c -> key c = Some a -> data (store st) = Some d ->
  Secrets d !! path = Some encrypted ->
  fst (Decrypt c encrypted (world st)) = Ret plaintext ->
  fst (Get path st)
  = match json_Unmarshal_Secret (string_of_list_byte plaintext) with
    | Some secret => Ret secret
    | None => Fail (fmt_Errorf "failed to unmarshal secret"
                      (errors_New "invalid character in secret"))
    end.
Proof.
  intros Hc Hk Hd Hp HD. destruct st as [s w]. cbn [store world] in *.
  unfold Get, DecryptString, isLockedUnsafe, IsUnlocked. go_unf. cbn [store world].
  rewrite Hc, Hk, Hd. go_unf. rewrite Hp. go_unf. cbn [store world].
  destruct (Decrypt c encrypted w) as [r w']. cbn [fst] in HD. subst r.
  destruct (json_Unmarshal_Secret _); reflexivity.
Qed.

Lemma Get_absent (st : State) c a d path :
  crypto (store st) = Some c -> key c = Some a -> data (store st) = Some d ->
  Secrets d !! path = None ->
  fst (Get path st) = Fail ErrSecretNotFound.
Proof.
  intros Hc Hk Hd Hp. destruct st as [s w]. cbn [store world] in *.
  unfold Get, isLockedUnsafe, IsUnlocked. go_unf. cbn [store world].
  rewrite Hc, Hk, Hd. go_unf. rewrite Hp. reflexivity.
Qed.

Lemma Exists_unlocked (st : State) c a d path :
  crypto (store st) = Some c -> key c = Some a -> data (store st) = Some d ->
  fst (Store_Exists path st) = Ret (bool_decide (is_Some (Secrets d !! path))).
Proof.
  intros Hc Hk Hd. destruct st as [s w]. cbn [store world] in *.
  unfold Store_Exists, isLockedUnsafe, IsUnlocked. go_unf. cbn [store world].
  rewrite Hc, Hk, Hd. reflexivity.
Qed.

Section WithLaws.
Context (Laws : ExternalLaws Ext).

(** The re-encryption loop, when it succeeds: it has only consumed random
    bytes; every entry visited decrypted under the old key, and the new
    map holds for its path an envelope of the same plaintext under the
    new key; the other paths are as in the map the loop started from. *)
Lemma reencrypt_lookup old ao ko new an kn kvs acc (w w' : World) newSecrets :
  key old = Some ao -> heap w !! ao = Some ko ->
  key new = Some an -> heap w !! an = Some kn ->
  NoDup (kvs.*1) ->
  reencrypt old new kvs acc w = (Ret newSecrets, w') ->
  (exists en, w' = set_entropy en w)
  /\ forall path,
       match (list_to_map kvs : gmap string string) !! path with
       | Some encrypted =>
           exists plaintext nonce,
             fst (Decrypt old encrypted w) = Ret plaintext
             /\ length nonce = NonceSize
             /\ newSecrets !! path = Some (envelope kn nonce plaintext)
       | None => newSecrets !! path = acc !! path
       end.
Proof.
  intros Hko Hbo Hkn Hbn. revert acc w Hbo Hbn.
  induction kvs as [|[p encrypted] kvs IH]; intros acc w Hbo Hbn Hnd HR.
  - cbn in HR. injection HR as <- <-. split.
    + exists (entropy w). symmetry. apply set_entropy_id.
    + intros path. cbn. rewrite lookup_empty. reflexivity.
  - cbn [reencrypt] in HR. unfold DecryptString, EncryptString in HR.
    cbv beta iota zeta delta [bind ret fail catch] in HR.
    destruct (Decrypt_frame old ao ko encrypted w Hko Hbo) as (rd & HD & _).
    rewrite HD in HR. destruct rd as [pt|e|msg].
    2:{ rewrite (Crypto_Lock_run new an kn w Hkn Hbn) in HR. discriminate. }
    2:{ discriminate. }
    rewrite list_byte_of_string_of_list_byte in HR.
    destruct (Encrypt new pt w) as [re w1] eqn:HE. destruct re as [ct|e|msg].
    2:{ destruct (Encrypt_frame new an kn pt w Hkn Hbn) as (r0 & en0 & HE0 & _).
        rewrite HE in HE0. injection HE0 as _ ->.
        rewrite (Crypto_Lock_run new an kn (set_entropy en0 w) Hkn) in HR
          by (destruct w; exact Hbn).
        discriminate. }
    2:{ discriminate. }
    destruct (Encrypt_success new an kn pt w w1 ct Hkn Hbn HE)
      as (_ & r & rest & He & Hn & -> & ->).
    rewrite fmap_cons in Hnd. apply NoDup_cons in Hnd.
    destruct Hnd as [Hnotin Hnd]. cbn [fst] in Hnotin.
    assert (heap (set_entropy rest w) !! ao = Some ko) as Hbo' by (destruct w; exact Hbo).
    assert (heap (set_entropy rest w) !! an = Some kn) as Hbn' by (destruct w; exact Hbn).
    destruct (IH _ (set_entropy rest w) Hbo' Hbn' Hnd HR) as ((en & ->) & Hall).
    split; [exists en; apply set_entropy_twice|].
    intros path. cbn [list_to_map foldr]. specialize (Hall path).
    destruct (decide (p = path)) as [<-|Hne].
    + rewrite lookup_insert_eq.
      assert ((list_to_map kvs : gmap string string) !! p = None) as Hnone.
      { apply not_elem_of_list_to_map_1. exact Hnotin. }
      rewrite Hnone in Hall. rewrite Hall, lookup_insert_eq.
      exists pt, (take NonceSize r). cbn [snd]. rewrite HD. split; [reflexivity|].
      split; [rewrite length_take; lia | reflexivity].
    + rewrite lookup_insert_ne by exact Hne.
      destruct ((list_to_map kvs : gmap string string) !! path) as [enc'|].
      * destruct Hall as (pt' & nonce & HD' & Hl & Hs).
        exists pt', nonce. split; [|split; assumption].
        rewrite <- HD'. apply Decrypt_heap. destruct w; reflexivity.
      * rewrite Hall. apply lookup_insert_ne. exact Hne.
Qed.

Lemma map_range_NoDup (m : gmap string string) : NoDup ((map_range m).*1).
Proof. rewrite (map_range_perm m). apply NoDup_fst_map_to_list. Qed.

Lemma map_range_lookup (m : gmap string string) :
  (list_to_map (map_range m) : gmap string string) = m.
Proof.
  apply map_eq. intros i. apply option_eq. intros x.
  rewrite <- elem_of_list_to_map by apply map_range_NoDup.
  rewrite (map_range_perm m). apply elem_of_map_to_list.
Qed.

(** X10.  Changing the password keeps the secrets.  When [ChangePassword]
    returns without error on an unlocked store: every path reads and
    exists as before, and the secrets are as many; the store now holds a session keyed by the new
    password, and the verification blob in the metadata opens under that
    key (so the new password will be accepted); the salt in the metadata
    is the new session's; and the buffer of the old key is zeroed. *)
Theorem ChangePassword_preserves_secrets (st st' : State)
        (oldPassword newPassword : string) c a k m d :
  crypto (store st) = Some c -> key c = Some a -> heap (world st) !! a = Some k ->
  meta (store st) = Some m -> data (store st) = Some d ->
  valid_params (params c) ->
  ChangePassword oldPassword newPassword st = (Ret tt, st') ->
  (forall path, fst (Get path st') = fst (Get path st))
  /\ (forall path, fst (Store_Exists path st') = fst (Store_Exists path st))
  /\ fst (SecretCount st') = fst (SecretCount st)
  /\ heap (world st') !! a = Some (zeroed k)
  /\ exists c' a' m',
       crypto (store st') = Some c'
       /\ key c' = Some a'
       /\ heap (world st') !! a' = Some (derived_key c' newPassword)
       /\ meta (store st') = Some m'
       /\ metaSalt m' = Some (salt c')
       /\ metaArgon2Params m' = params c'
       /\ password_matches c' newPassword (metaVerification m').
Proof.
  intros Hc Hk Hb Hm Hd Hv HCP.
  destruct st as [s w]. destruct s as [vp mp c0 m0 d0 di au ut].
  destruct w as [fs wf rf sl hp ob en ck].
  cbn [store world crypto meta data heap] in Hc, Hb, Hm, Hd. subst c0 m0 d0.
  unfold ChangePassword in HCP. go_unf_in HCP. go_proj_in HCP.
  rewrite VerifyPassword_run in HCP by exact Hv.
  set (zt := zeroed (derived_key c oldPassword)) in *.
  destruct (verify_with_key (derived_key c oldPassword) (metaVerification m));
    [|discriminate].
  go_unf_in HCP.
  match type of HCP with
  | context [NewCrypto None ?ps ?w1] =>
      destruct (NewCrypto_fresh_frame ps w1) as (rn & en1 & HN & Hrn)
  end.
  rewrite HN in HCP. destruct rn as [nc|e|p]; [|discriminate|contradiction].
  destruct Hrn as [Hps Hnk]. destruct nc as [ps ns nk].
  cbn [params key] in Hps, Hnk. subst ps nk.
  rewrite Crypto_Unlock_run in HCP by apply valid_default_params.
  set (nc := {| params := DefaultArgon2Params; salt := ns; key := None |}) in *.
  set (kn := derived_key nc newPassword) in *.
  go_proj_in HCP.
  rewrite length_app in HCP. cbn [length] in HCP.
  set (an := (length hp + 1)%nat) in *.
  assert (((hp ++ [zt]) ++ [kn])%list !! an = Some kn) as Hbn.
  { subst an. rewrite <- app_assoc. cbn [app].
    rewrite lookup_app_r by lia.
    replace (length hp + 1 - length hp)%nat with 1%nat by lia. reflexivity. }
  assert (((hp ++ [zt]) ++ [kn])%list !! a = Some k) as Hbo.
  { rewrite <- app_assoc. apply lookup_app_l_Some. exact Hb. }
  assert (a <> an) as Hne.
  { apply lookup_lt_Some in Hb. subst an. lia. }
  unfold CreateVerificationBlob, EncryptString in HCP.
  match type of HCP with
  | context [Encrypt ?c1 ?pt ?w1] =>
      destruct (Encrypt c1 pt w1) as [rv w2] eqn:HE
  end.
  destruct rv as [verification|e|p]; [| |discriminate].
  2:{ match type of HCP with
      | context [Crypto_Lock ?c1 ?w1] =>
          destruct (Crypto_Lock c1 w1) as [[]] eqn:HL in HCP; discriminate
      end. }
  apply (Encrypt_success _ an kn) in HE; [|reflexivity|exact Hbn].
  destruct HE as (Hok & r & rest & He & Hn & -> & ->). go_proj_in HCP.
  match type of HCP with
  | context [reencrypt ?c1 ?c2 ?kvs ?acc ?w1] =>
      destruct (reencrypt c1 c2 kvs acc w1) as [rr w3] eqn:HR
  end.
  destruct rr as [newSecrets|e|p]; [|discriminate..].
  apply (reencrypt_lookup c a k _ an kn) in HR;
    [|exact Hk|exact Hbo|reflexivity|exact Hbn|apply map_range_NoDup].
  destruct HR as ((en3 & ->) & Hall). rewrite map_range_lookup in Hall.
  go_proj_in HCP.
  erewrite Crypto_Lock_run in HCP; [|exact Hk|exact Hbo]. go_proj_in HCP.
  match type of HCP with
  | context [saveMeta {| store := ?s1; world := ?w1 |}] =>
      destruct (saveMeta_outcome s1 w1) as (rm & w4 & HM & Hh4 & _)
  end.
  rewrite HM in HCP. destruct rm as [[]|e|p]; [|discriminate..].
  match type of HCP with
  | context [saveData {| store := ?s1; world := ?w1 |}] =>
      destruct (saveData_outcome s1 w1)
        as (rd & s5 & w5 & HS & Hds & _ & Hcs & Hms & Hh5)
  end.
  rewrite HS in HCP. destruct rd as [[]|e|p]; [|discriminate..].
  injection HCP as <-.
  assert (heap w5 = <[a := zeroed k]> ((hp ++ [zt]) ++ [kn])%list) as Hheap
    by (rewrite Hh5, Hh4; reflexivity).
  assert (heap w5 !! an = Some kn) as Hbn5.
  { rewrite Hheap, list_lookup_insert_ne by exact Hne. exact Hbn. }
  set (nc' := set_key (Some an) nc) in *.
  set (stold := {| store := Build_EncryptedStore vp mp (Some c) (Some m) (Some d) di au ut;
                   world := Build_World fs wf rf sl hp ob en ck |}).
  set (stnew := {| store := s5; world := w5 |}).
  assert (crypto (store stnew) = Some nc') as Hcn by exact Hcs.
  assert (data (store stnew) = Some {| Secrets := newSecrets |}) as Hdn by exact Hds.
  assert (forall path,
            match Secrets d !! path with
            | Some encrypted =>
                exists plaintext nonce,
                  fst (Decrypt c encrypted (world stold)) = Ret plaintext
                  /\ length nonce = NonceSize
                  /\ newSecrets !! path = Some (envelope kn nonce plaintext)
            | None => newSecrets !! path = None
            end) as Hall'.
  { intros path. specialize (Hall path).
    destruct (Secrets d !! path) as [enc|].
    - destruct Hall as (pt & nonce & HD & Hl & Hs). exists pt, nonce.
      split; [|split; assumption]. rewrite <- HD.
      apply (Decrypt_same_key c c a a k enc); assumption.
    - rewrite Hall. apply lookup_empty. }
  split.
  { intros path. specialize (Hall' path).
    destruct (Secrets d !! path) as [enc|] eqn:Hp.
    - destruct Hall' as (pt & nonce & HD & Hl & Hs).
      rewrite (Get_decrypted stold c a d path enc pt eq_refl Hk eq_refl Hp HD).
      apply (Get_decrypted stnew nc' an _ path _ pt Hcn eq_refl Hdn Hs).
      change (world stnew) with w5.
      rewrite (Decrypt_envelope Laws nc' an kn nonce pt w5 eq_refl Hbn5 Hok Hl).
      reflexivity.
    - rewrite (Get_absent stold c a d path eq_refl Hk eq_refl Hp).
      apply (Get_absent stnew nc' an _ path Hcn eq_refl Hdn Hall'). }
  split.
  { intros path. specialize (Hall' path).
    rewrite (Exists_unlocked stnew nc' an _ path Hcn eq_refl Hdn).
    rewrite (Exists_unlocked stold c a d path eq_refl Hk eq_refl).
    cbn [Secrets]. destruct (Secrets d !! path) as [enc|].
    - destruct Hall' as (pt & nonce & _ & _ & ->). reflexivity.
    - rewrite Hall'. reflexivity. }
  split.
  { rewrite (SecretCount_run stnew _ Hdn), (SecretCount_run stold d eq_refl).
    cbn [fst Secrets]. f_equal. rewrite <- !size_dom. f_equal.
    apply set_eq. intros path. rewrite !elem_of_dom. specialize (Hall' path).
    destruct (Secrets d !! path) as [enc|].
    - destruct Hall' as (pt & nonce & _ & _ & ->). split; eauto.
    - rewrite Hall'. reflexivity. }
  split.
  { change (world stnew) with w5. rewrite Hheap. apply list_lookup_insert_eq.
    eapply lookup_lt_Some, Hbo. }
  eexists nc', an, _. split; [exact Hcn|]. split; [reflexivity|].
  split; [exact Hbn5|]. split; [exact Hms|].
  split; [reflexivity|]. split; [reflexivity|].
  cbn [metaVerification]. unfold password_matches.
  apply verify_with_key_true_iff.
  apply (verify_with_key_envelope Laws); [exact Hok|rewrite length_take; lia].
Qed.
End WithLaws.
End ChangeMore.

(* ===================================================================== *)
(** ** No panics in the states the store can reach *)
(* ===================================================================== *)

Section NoPanic.
Context `{Ext : Externals}.

Lemma Initialize_no_panic (st : State) password : ~ panics (Initialize password st).
Proof.
  intros [msg HP].
  destruct st as [s w]. destruct s as [vp mp c0 m0 d0 di au ut].
  destruct w as [fs wf rf sl hp ob en ck].
  unfold Initialize, VaultExists, os_Stat_ok in HP. go_unf_in HP. go_proj_in HP.
  destruct (bool_decide (is_Some (fs !! mp))); [discriminate|].
  match type of HP with
  | context [NewCrypto None ?ps ?w1] =>
      destruct (NewCrypto_fresh_frame ps w1) as (rn & en1 & HN & Hrn)
  end.
  rewrite HN in HP. destruct rn as [nc|e|p]; [|discriminate|contradiction].
  destruct Hrn as [Hps Hnk]. destruct nc as [ps ns nk].
  cbn [params key] in Hps, Hnk. subst ps nk.
  rewrite Crypto_Unlock_run in HP by apply valid_default_params.
  go_proj_in HP.
  set (nc := {| params := DefaultArgon2Params; salt := ns; key := None |}) in *.
  set (kn := derived_key nc password) in *.
  assert ((hp ++ [kn])%list !! length hp = Some kn) as Hbn by apply snoc_lookup.
  unfold CreateVerificationBlob, EncryptString in HP.
  match type of HP with
  | context [Encrypt ?c1 ?pt ?w1] =>
      destruct (Encrypt_frame c1 (length hp) kn pt w1 eq_refl Hbn)
        as (rv & en2 & HE & Hrv & _)
  end.
  rewrite HE in HP. go_proj_in HP.
  destruct rv as [verification|e|p]; [| |exfalso; eapply Hrv; reflexivity].
  2:{ erewrite Crypto_Lock_run in HP; [|reflexivity|exact Hbn]. discriminate. }
  rewrite !time_Now_run in HP. go_proj_in HP.
  match type of HP with
  | context [saveMeta {| store := ?s1; world := ?w1 |}] =>
      destruct (saveMeta_outcome s1 w1) as (rm & w2 & HM & _ & Hrm)
  end.
  rewrite HM in HP. destruct rm as [[]|e|p]; [|discriminate|exfalso; eapply Hrm; reflexivity].
  match type of HP with
  | context [saveData {| store := ?s1; world := ?w1 |}] =>
      destruct (saveData_outcome s1 w1) as (rd & s3 & w3 & HS & _ & Hrd & _)
  end.
  rewrite HS in HP.
  destruct rd as [[]|e|p]; [discriminate|discriminate|exfalso; eapply Hrd; reflexivity].
Qed.

(** On a ready store the methods that need the key find it. *)
Lemma ready_no_panic (st : State) :
  store_ready st ->
  (forall path, ~ panics (Get path st))
  /\ (forall path p, is_Some (objects (world st) !! p) -> ~ panics (Store_Set path p st))
  /\ (forall path, ~ panics (Delete path st))
  /\ (forall path, ~ panics (Store_Exists path st))
  /\ (forall prefix, ~ panics (Store_List prefix st))
  /\ ~ panics (Lock st).
Proof.
  unfold store_ready, session_ready.
  destruct st as [s w]. destruct s as [vp mp c0 m0 d0 di au ut].
  destruct w as [fs wf rf sl hp ob en ck]. cbn [store world crypto meta data heap objects].
  destruct c0 as [[ps slt ka]|].
  2:{ intros _. repeat split; intros; intros [msg HP]; cbn in HP; discriminate. }
  intros ((_ & a & k & Hk & Hb & _) & (m & ->) & (d & ->)).
  cbn [key] in Hk. subst ka.
  repeat split.
  - intros path [msg HP]. unfold Get, DecryptString, isLockedUnsafe, IsUnlocked in HP.
    go_unf_in HP. go_proj_in HP.
    destruct (Secrets d !! path) as [enc|]; [|discriminate]. go_unf_in HP. go_proj_in HP.
    match type of HP with
    | context [Decrypt ?c1 enc ?w1] =>
        destruct (Decrypt_frame c1 a k enc w1 eq_refl Hb) as (rd & HD & Hrd)
    end.
    rewrite HD in HP. destruct rd; [| |exfalso; eapply Hrd; reflexivity].
    + destruct (json_Unmarshal_Secret _); discriminate.
    + discriminate.
  - intros path p [sec Ho] [msg HP].
    unfold Store_Set, isLockedUnsafe, IsUnlocked, vault_Now, write_object, read_object in HP.
    go_unf_in HP. go_proj_in HP. rewrite time_Now_run in HP. go_proj_in HP.
    rewrite Ho in HP. go_unf_in HP. go_proj_in HP.
    rewrite Ho in HP. go_unf_in HP. go_proj_in HP.
    rewrite list_lookup_insert_eq in HP by (eapply lookup_lt_Some; exact Ho).
    go_unf_in HP.
    destruct (json_Marshal_Secret _) as [text|]; [|discriminate]. go_unf_in HP.
    unfold EncryptString in HP.
    match type of HP with
    | context [Encrypt ?c1 ?pt ?w1] =>
        destruct (Encrypt_frame c1 a k pt w1 eq_refl Hb) as (re & en2 & HE & Hre & _)
    end.
    rewrite HE in HP. destruct re; [|discriminate|exfalso; eapply Hre; reflexivity].
    go_proj_in HP. destruct au; [|discriminate].
    match type of HP with
    | context [saveData {| store := ?s1; world := ?w1 |}] =>
        destruct (saveData_outcome s1 w1) as (rd & s3 & w3 & HS & _ & Hrd & _)
    end.
    rewrite HS in HP. cbn [fst] in HP. subst rd. eapply Hrd; reflexivity.
  - intros path [msg HP]. unfold Delete, isLockedUnsafe, IsUnlocked in HP.
    go_unf_in HP. go_proj_in HP. destruct au; [|discriminate].
    match type of HP with
    | context [saveData {| store := ?s1; world := ?w1 |}] =>
        destruct (saveData_outcome s1 w1) as (rd & s3 & w3 & HS & _ & Hrd & _)
    end.
    rewrite HS in HP. cbn [fst] in HP. subst rd. eapply Hrd; reflexivity.
  - intros path [msg HP]. cbn in HP. discriminate.
  - intros prefix [msg HP]. cbn in HP. discriminate.
  - intros [msg HP]. unfold Lock in HP. go_unf_in HP. go_proj_in HP.
    destruct di.
    + match type of HP with
      | context [saveData {| store := ?s1; world := ?w1 |}] =>
          destruct (saveData_outcome s1 w1)
            as (rd & s3 & w3 & HS & _ & Hrd & _ & _ & Hh3)
      end.
      rewrite HS in HP. destruct rd as [[]|e|p]; [|discriminate|eapply Hrd; reflexivity].
      go_proj_in HP.
      erewrite Crypto_Lock_run in HP; [|reflexivity|rewrite Hh3; exact Hb]. discriminate.
    + erewrite Crypto_Lock_run in HP; [|reflexivity|exact Hb]. discriminate.
Qed.

(** [Unlock] does not panic when the parameters in the metadata file are
    ones [argon2] accepts. *)
Lemma Unlock_no_panic (st : State) password :
  (forall text m,
     files (world st) !! metaPath (store st) = Some text ->
     json_Unmarshal_VaultMeta text = Some m ->
     valid_params (metaArgon2Params m)) ->
  ~ panics (Unlock password st).
Proof.
  intros Hvalid [msg HP].
  destruct st as [s w]. destruct s as [vp mp c0 m0 d0 di au ut].
  destruct w as [fs wf rf sl hp ob en ck]. cbn [store world files metaPath] in Hvalid.
  unfold Unlock, VaultExists, os_Stat_ok, loadMeta, os_ReadFile in HP.
  go_unf_in HP. go_proj_in HP.
  destruct (bool_decide (is_Some (fs !! mp))); go_unf_in HP; [|discriminate].
  destruct (fs !! mp) as [text|] eqn:Hf; go_unf_in HP; [|discriminate].
  destruct (bool_decide (mp ∈ rf)); go_unf_in HP; [discriminate|].
  destruct (json_Unmarshal_VaultMeta text) as [m|] eqn:Hj; go_unf_in HP; go_proj_in HP;
    [|discriminate].
  specialize (Hvalid text m eq_refl Hj).
  match type of HP with
  | context [NewCrypto ?s0 ?ps ?w1] =>
      destruct (NewCrypto_frame s0 ps w1) as (rn & en1 & HN & Hrn)
  end.
  rewrite HN in HP. destruct rn as [nc|e|p]; [|discriminate|contradiction].
  go_proj_in HP. destruct Hrn as [Hps Hnk].
  rewrite VerifyPassword_run in HP by (rewrite Hps; exact Hvalid). go_proj_in HP.
  destruct (verify_with_key _ _); go_unf_in HP; [|discriminate].
  rewrite Crypto_Unlock_run in HP by (rewrite Hps; exact Hvalid). go_proj_in HP.
  rewrite time_Now_run in HP. go_proj_in HP.
  unfold loadData, os_ReadFile in HP. go_unf_in HP. go_proj_in HP.
  set (zt := zeroed (derived_key nc password)) in *.
  set (kn := derived_key nc password) in *.
  assert (((hp ++ [zt]) ++ [kn])%list !! length (hp ++ [zt])%list = Some kn) as Hbn
    by apply snoc_lookup.
  destruct (fs !! vp) as [text'|]; go_unf_in HP; go_proj_in HP.
  - destruct (bool_decide (vp ∈ rf)); go_unf_in HP; go_proj_in HP.
    + cbv [os_IsNotExist io_error] in HP.
      rewrite bool_decide_eq_false_2 in HP by discriminate.
      go_unf_in HP. go_proj_in HP.
      erewrite Crypto_Lock_run in HP; [|destruct nc; reflexivity|exact Hbn].
      discriminate.
    + destruct (json_Unmarshal_VaultData text'); go_unf_in HP; go_proj_in HP;
        [discriminate|].
      erewrite Crypto_Lock_run in HP; [|destruct nc; reflexivity|exact Hbn].
      discriminate.
  - cbv [os_IsNotExist ErrNotExist] in HP.
    rewrite bool_decide_eq_true_2 in HP by reflexivity. discriminate.
Qed.

Section WithLaws.
Context (Laws : ExternalLaws Ext).

Lemma ChangePassword_no_panic (st : State) oldPassword newPassword :
  store_ready st -> isLockedUnsafe (store st) = false ->
  ~ panics (ChangePassword oldPassword newPassword st).
Proof.
  unfold store_ready, isLockedUnsafe. intros Hr Hl [msg HP].
  destruct (crypto (store st)) as [c|] eqn:Hc; [|discriminate].
  destruct Hr as ((Hv & a & k & Hk & Hb & _) & (m & Hm) & (d & Hd)).
  destruct (ChangePassword_cases Laws st oldPassword newPassword c a k m d
              Hc Hk Hb Hm Hd Hv) as (r & st' & HCP & Hcases).
  rewrite HCP in HP. cbn [fst] in HP. subst r.
  destruct Hcases as [(e & _ & _ & ? & _)|(_ & [?|(e & ? & _)] & _)]; discriminate.
Qed.

(** X11.  No panics.  In every state the store can reach through its
    interface, whatever the environment did in between: [Initialize],
    [Get], [Delete], [Exists], [List] and [Lock] return normally, with a
    value or an error; so does [Set] when it is given a secret (not a nil
    pointer); so does [ChangePassword] when the store is unlocked; and so
    does [Unlock] when the parameters in the metadata file are ones
    [argon2] accepts (passes, parallelism and key length of at least
    one). *)
Theorem reachable_no_panic (st : State) :
  reachable st ->
  (forall password, ~ panics (Initialize password st))
  /\ (forall path, ~ panics (Get path st))
  /\ (forall path p, is_Some (objects (world st) !! p) -> ~ panics (Store_Set path p st))
  /\ (forall path, ~ panics (Delete path st))
  /\ (forall path, ~ panics (Store_Exists path st))
  /\ (forall prefix, ~ panics (Store_List prefix st))
  /\ ~ panics (Lock st)
  /\ (forall oldPassword newPassword,
        isLockedUnsafe (store st) = false ->
        ~ panics (ChangePassword oldPassword newPassword st))
  /\ (forall password,
        (forall text m,
           files (world st) !! metaPath (store st) = Some text ->
           json_Unmarshal_VaultMeta text = Some m ->
           valid_params (metaArgon2Params m)) ->
        ~ panics (Unlock password st)).
Proof.
  intros Hr%(reachable_ready Laws).
  destruct (ready_no_panic st Hr) as (H1 & H2 & H3 & H4 & H5 & H6).
  split; [intros; apply Initialize_no_panic|].
  split; [exact H1|]. split; [exact H2|]. split; [exact H3|].
  split; [exact H4|]. split; [exact H5|]. split; [exact H6|].
  split; [intros; apply ChangePassword_no_panic; assumption|].
  intros. apply Unlock_no_panic. assumption.
Qed.
End WithLaws.
End NoPanic.

(* ===================================================================== *)
(** ** The daemon's handlers *)
(* ===================================================================== *)

Section DaemonMore.
Context `{Ext : Externals}.

Lemma unlocked_not_locked (st : State) c a k d :
  unlocked_with st c a k d -> isLockedUnsafe (store st) = false.
Proof.
  intros [Hc Hk _ _ _]. unfold isLockedUnsafe, IsUnlocked. rewrite Hc, Hk. reflexivity.
Qed.

Lemma handleSecret_unlocked (st : State) method path req :
  path <> "" -> isLockedUnsafe (store st) = false ->
  handleSecret method ("/secret/" ++ path) req st
  = (if bool_decide (method = "GET") then getSecret path
     else if bool_decide (method = "PUT") then setSecret path req
     else if bool_decide (method = "DELETE") then deleteSecret path
     else ret (writeError StatusMethodNotAllowed "method not allowed" "")) st.
Proof.
  intros Hp Hl. unfold handleSecret. rewrite TrimPrefix_secret.
  rewrite bool_decide_eq_false_2 by exact Hp.
  unfold IsLocked. go_unf. rewrite Hl. reflexivity.
Qed.

(** X12.  A locked vault answers nothing.  While the store is locked, every
    request to [/secret/...], whatever its method and body, is answered
    400 (no path after the prefix) or 403 [VAULT_LOCKED], and every request
    to [/secrets] is answered 405 (not a GET) or 403 [VAULT_LOCKED]; no
    secret is read and the store and its environment stay as they are. *)
Theorem locked_daemon_refuses (st : State) (method urlPath prefix : string)
        (req : option SetSecretRequest) :
  locked st ->
  handleSecret method urlPath req st
  = (Ret (if bool_decide (strings_TrimPrefix urlPath "/secret/" = "")
          then writeError StatusBadRequest "path is required" ErrCodeInvalidRequest
          else writeError StatusForbidden "vault is locked" ErrCodeVaultLocked), st)
  /\ handleSecrets method prefix st
     = (Ret (if bool_decide (method = "GET")
             then {| listStatus := StatusForbidden;
                     listBody := ListError "vault is locked" ErrCodeVaultLocked |}
             else {| listStatus := StatusMethodNotAllowed;
                     listBody := ListError "method not allowed" "" |}), st).
Proof.
  unfold locked. intros Hl. split.
  - unfold handleSecret. destruct (bool_decide (_ = "")); [reflexivity|].
    unfold IsLocked. go_unf. rewrite Hl. reflexivity.
  - unfold handleSecrets. destruct (bool_decide (method = "GET")); [|reflexivity].
    unfold IsLocked. go_unf. rewrite Hl. reflexivity.
Qed.

(** X13.  [DELETE /secret/<path>].  On an unlocked store whose data file
    can be written the reply is 200 "secret deleted" whether or not the
    path held a secret, and a [GET] of the path is then answered 404
    [SECRET_NOT_FOUND]. *)
Theorem daemon_delete_then_get (st : State) c a k d (path : string) :
  unlocked_with st c a k d ->
  path <> "" ->
  (filepath_Dir (vaultPath (store st)) ∉ wfault (world st)) ->
  (vaultPath (store st) ∉ wfault (world st)) ->
  exists st',
    handleSecret "DELETE" ("/secret/" ++ path) None st
    = (Ret (writeJSON StatusOK (SuccessResponse true "secret deleted")), st')
    /\ handleSecret "GET" ("/secret/" ++ path) None st'
       = (Ret (writeError StatusNotFound "secret not found" ErrCodeSecretNotFound), st').
Proof.
  intros Hu Hp Hw1 Hw2.
  destruct (Delete_run st c a k d path Hu Hw1 Hw2) as (st' & HD & Hu' & _).
  exists st'. split.
  - rewrite handleSecret_unlocked by eauto using unlocked_not_locked.
    rewrite (bool_decide_eq_false_2 ("DELETE" = "GET")) by discriminate.
    rewrite (bool_decide_eq_false_2 ("DELETE" = "PUT")) by discriminate.
    rewrite (bool_decide_eq_true_2 ("DELETE" = "DELETE")) by reflexivity.
    unfold deleteSecret. go_unf. rewrite HD. reflexivity.
  - rewrite handleSecret_unlocked by eauto using unlocked_not_locked.
    rewrite (bool_decide_eq_true_2 ("GET" = "GET")) by reflexivity.
    unfold getSecret. go_unf.
    rewrite (Get_missing st' c a k _ path Hu') by apply lookup_delete_eq.
    reflexivity.
Qed.

(** X14.  [POST /init].  The reply is 200 exactly when the method is POST,
    the body decodes, the password has at least 8 bytes, no metadata file
    exists and [Initialize] returns without error.  A request refused with
    405, 400 or 409 leaves the store and the files as they are: in
    particular a password shorter than 8 bytes never creates a vault.  The
    handler never panics. *)
Theorem handleInit_replies (st : State) (method : string) (req : option string) :
  exists reply,
    fst (handleInit method req st) = Ret reply
    /\ (status reply = StatusOK <->
        method = "POST"
        /\ exists password,
             req = Some password
             /\ (8 <= String.length password)%nat
             /\ files (world st) !! metaPath (store st) = None
             /\ fst (Initialize password st) = Ret tt)
    /\ (status reply ∈ [StatusMethodNotAllowed; StatusBadRequest; StatusConflict] ->
        snd (handleInit method req st) = st).
Proof.
  unfold handleInit.
  destruct (bool_decide (method = "POST")) eqn:Hm; cbn [negb].
  2:{ apply bool_decide_eq_false in Hm. eexists. split; [reflexivity|].
      split; [|reflexivity]. split; [discriminate|]. intros [? _]. contradiction. }
  apply bool_decide_eq_true in Hm.
  destruct req as [password|].
  2:{ eexists. split; [reflexivity|]. split; [|reflexivity].
      split; [discriminate|]. intros (_ & ? & ? & _). discriminate. }
  destruct (String.length password <? 8)%nat eqn:Hl.
  { apply Nat.ltb_lt in Hl. eexists. split; [reflexivity|]. split; [|reflexivity].
    split; [discriminate|]. intros (_ & ? & [= <-] & ? & _). lia. }
  apply Nat.ltb_ge in Hl.
  unfold VaultExists, os_Stat_ok. go_unf.
  destruct (files (world st) !! metaPath (store st)) as [text|] eqn:Hf.
  { rewrite bool_decide_eq_true_2 by eauto. eexists. split; [reflexivity|].
    split; [|destruct st; reflexivity].
    split; [discriminate|]. intros (_ & ? & _ & _ & ? & _). discriminate. }
  rewrite bool_decide_eq_false_2 by (intros [? ?]; discriminate).
  replace {| store := store st; world := world st |} with st by (destruct st; reflexivity).
  pose proof (Initialize_no_panic st password) as HP.
  destruct (Initialize password st) as [r st'] eqn:HI.
  destruct r as [[]|e|msg]; [| |exfalso; apply HP; eexists; reflexivity].
  - eexists. split; [reflexivity|]. split.
    + split; [|reflexivity]. intros _. split; [exact Hm|].
      exists password. rewrite HI. auto.
    + cbn [fst status writeJSON]. rewrite !elem_of_cons, elem_of_nil.
      intros [?|[?|[?|[]]]]; discriminate.
  - eexists. split; [reflexivity|]. split.
    + split; [discriminate|]. intros (_ & ? & [= <-] & _ & _ & HR).
      rewrite HI in HR. discriminate.
    + cbn [fst status writeJSON writeError]. rewrite !elem_of_cons, elem_of_nil.
      intros [?|[?|[?|[]]]]; discriminate.
Qed.

(** [Unlock] with a password that does not match. *)
Lemma Unlock_mismatch_run (st : State) (password : string) (m : VaultMeta)
      (slt : list byte) :
  meta_on_disk st m slt ->
  ~ password_matches (session_of m slt) password (metaVerification m) ->
  Unlock password st
  = (Fail (errors_New "invalid password"),
     {| store := set_meta (Some m) (store st);
        world := set_heap (heap (world st)
                           ++ [zeroed (derived_key (session_of m slt) password)])
                   (world st) |}).
Proof.
  intros (text & Hf & Hr & Hj & Hs & Hl & Hv) Hm.
  destruct st as [s w]. destruct s as [vp mp c0 m0 d0 di au ut].
  destruct w as [fs wf rf sl hp ob en ck]. go_proj.
  unfold Unlock, VaultExists, os_Stat_ok, loadMeta. go_unf. go_proj.
  rewrite Hf, bool_decide_eq_true_2 by eauto. go_unf.
  match goal with
  | |- context [os_ReadFile mp ?w] => rewrite (os_ReadFile_run mp text w Hf Hr)
  end.
  rewrite Hj. go_unf. go_proj.
  rewrite Hs. rewrite NewCrypto_given_run by exact Hl.
  fold (session_of m slt).
  rewrite VerifyPassword_run by exact Hv.
  rewrite verify_with_key_mismatch by exact Hm. reflexivity.
Qed.

(** X15.  [POST /unlock].  Without a metadata file the reply is 404
    [VAULT_NOT_FOUND] and nothing changes.  With a password that does not
    match the reply is 401 [INVALID_PASSWORD], the store keeps the session
    state it had (a locked store stays locked) and the files are untouched.
    With the matching password and a data file that loads (or none) the
    reply is 200 and the store is unlocked. *)
Theorem handleUnlock_replies (st : State) (password : string) :
  (files (world st) !! metaPath (store st) = None ->
   handleUnlock "POST" (Some password) st
   = (Ret (writeError StatusNotFound "vault does not exist, run init first"
             ErrCodeVaultNotFound), st))
  /\ (forall m slt,
        meta_on_disk st m slt ->
        ~ password_matches (session_of m slt) password (metaVerification m) ->
        exists st',
          handleUnlock "POST" (Some password) st
          = (Ret (writeError StatusUnauthorized "invalid password" ErrCodeInvalidPassword),
             st')
          /\ crypto (store st') = crypto (store st)
          /\ data (store st') = data (store st)
          /\ files (world st') = files (world st))
  /\ (forall m slt d,
        meta_on_disk st m slt ->
        password_matches (session_of m slt) password (metaVerification m) ->
        data_on_disk st d
        \/ (files (world st) !! vaultPath (store st) = None /\ d = {| Secrets := ∅ |}) ->
        exists st',
          handleUnlock "POST" (Some password) st
          = (Ret (writeJSON StatusOK (SuccessResponse true "vault unlocked")), st')
          /\ isLockedUnsafe (store st') = false
          /\ data (store st') = Some d).
Proof.
  split; [|split].
  - intros Hf. unfold handleUnlock, VaultExists, os_Stat_ok.
    rewrite (bool_decide_eq_true_2 ("POST" = "POST")) by reflexivity. go_unf.
    rewrite Hf, bool_decide_eq_false_2 by (intros [? ?]; discriminate).
    destruct st; reflexivity.
  - intros m slt Hmeta Hm.
    pose proof (Unlock_mismatch_run st password m slt Hmeta Hm) as HU.
    destruct Hmeta as (text & Hf & _).
    unfold handleUnlock, VaultExists, os_Stat_ok.
    rewrite (bool_decide_eq_true_2 ("POST" = "POST")) by reflexivity. go_unf.
    rewrite Hf, bool_decide_eq_true_2 by eauto. go_unf.
    replace {| store := store st; world := world st |} with st by (destruct st; reflexivity).
    rewrite HU. eexists. split; [reflexivity|].
    destruct st as [[] []]; repeat split.
  - intros m slt d Hmeta Hm Hdata.
    destruct (Unlock_run st password m slt d Hmeta Hm Hdata) as (st' & HU & Hu & _).
    destruct Hmeta as (text & Hf & _).
    unfold handleUnlock, VaultExists, os_Stat_ok.
    rewrite (bool_decide_eq_true_2 ("POST" = "POST")) by reflexivity. go_unf.
    rewrite Hf, bool_decide_eq_true_2 by eauto. go_unf.
    replace {| store := store st; world := world st |} with st by (destruct st; reflexivity).
    rewrite HU. exists st'. split; [reflexivity|].
    split; [eapply unlocked_not_locked, Hu | apply (uw_data _ _ _ _ _ Hu)].
Qed.

(** The loop of [handleSecrets] on a store that holds its key: the state
    does not change, and the items are those of the readable paths, in
    order. *)
Lemma list_items_run (st : State) c a k d (paths : list string)
      (items : list SecretListItem) :
  unlocked_with st c a k d ->
  exists more,
    list_items paths items st = (Ret (items ++ more)%list, st)
    /\ itemPath <$> more = filter (fun p => readable st p = true) paths
    /\ Forall (fun item =>
                 exists secret,
                   Get (itemPath item) st = (Ret secret, st)
                   /\ item = list_item (itemPath item) secret) more.
Proof.
  intros Hu. revert items. induction paths as [|path rest IH]; intros items.
  - exists []. rewrite app_nil_r. repeat split. constructor.
  - cbn [list_items]. go_unf. unfold readable.
    pose proof (Get_pure path st) as Hp.
    destruct (Get path st) as [r st1] eqn:HG. cbn [snd] in Hp. subst st1.
    rewrite filter_cons. unfold readable. rewrite HG. cbn [fst].
    destruct r as [secret|e|msg].
    + destruct (IH (items ++ [list_item path secret])%list) as (more & HL & Hpaths & Hall).
      exists (list_item path secret :: more). rewrite HL.
      split; [rewrite <- app_assoc; reflexivity|].
      rewrite decide_True by reflexivity.
      split; [cbn; f_equal; exact Hpaths|].
      constructor; [|exact Hall]. exists secret. cbn [itemPath list_item]. auto.
    + destruct (IH items) as (more & HL & Hpaths & Hall).
      exists more. rewrite HL. rewrite decide_False by discriminate. auto.
    + exfalso.
      destruct Hu as [Hc Hk Hb _ Hd]. destruct st as [s w]. cbn [store world] in *.
      unfold Get, DecryptString, isLockedUnsafe, IsUnlocked in HG.
      go_unf_in HG. cbn [store world] in HG. rewrite Hc, Hk, Hd in HG. go_unf_in HG.
      destruct (Secrets d !! path) as [enc|]; [|discriminate].
      go_unf_in HG. cbn [store world] in HG.
      destruct (Decrypt_frame c a k enc w Hk Hb) as (rd & HD & Hrd).
      rewrite HD in HG. destruct rd; [| |eapply Hrd; reflexivity].
      * destruct (json_Unmarshal_Secret _); discriminate.
      * discriminate.
Qed.

(** X16.  [GET /secrets].  On an unlocked store the reply is 200; the list
    holds one item for every path with the prefix whose secret can be read,
    in sorted order of the paths, and skips the paths whose secret cannot
    be decrypted or decoded; [count] is the number of items, not of paths;
    each item is built from what [Get] returns for its path.  Nothing is
    changed. *)
Theorem handleSecrets_lists (st : State) c a k d (prefix : string) :
  unlocked_with st c a k d ->
  exists items,
    handleSecrets "GET" prefix st
    = (Ret {| listStatus := StatusOK;
              listBody := ListOK {| listSecrets := items;
                                    listCount := length items |} |}, st)
    /\ itemPath <$> items
       = filter (fun p => readable st p = true)
                (sort_Strings (collect_paths prefix (map_range (Secrets d))))
    /\ Forall (fun item =>
                 exists secret,
                   Get (itemPath item) st = (Ret secret, st)
                   /\ item = list_item (itemPath item) secret) items.
Proof.
  intros Hu. unfold handleSecrets.
  rewrite (bool_decide_eq_true_2 ("GET" = "GET")) by reflexivity. cbn [negb].
  unfold IsLocked. go_unf. rewrite (unlocked_not_locked st c a k d Hu).
  rewrite (List_run st c a k d prefix Hu).
  destruct (list_items_run st c a k d
              (sort_Strings (collect_paths prefix (map_range (Secrets d)))) [] Hu)
    as (items & HL & Hpaths & Hall).
  rewrite HL. exists items. repeat split; assumption.
Qed.

Section WithLaws.
Context (Laws : ExternalLaws Ext).

(** X17.  [PUT] then [GET].  On an unlocked store, after a
    [PUT /secret/<path>] that can draw its nonce and write the data file,
    [GET /secret/<path>] answers 200 with the path, the value, the fields
    and the tags of the request body, and with the time of the write (in
    whole seconds) as [created_at] and [updated_at]; the [GET] changes
    nothing. *)
Theorem daemon_put_then_get (st : State) c a k d (path : string)
        (req : SetSecretRequest) (r : list byte) (rest : list (list byte)) :
  unlocked_with st c a k d ->
  path <> "" ->
  entropy (world st) = r :: rest -> (NonceSize <= length r)%nat ->
  (filepath_Dir (vaultPath (store st)) ∉ wfault (world st)) ->
  (vaultPath (store st) ∉ wfault (world st)) ->
  let now := next_time (world st) in
  json_roundtrips (stamp now (request_secret req)) ->
  exists st',
    handleSecret "PUT" ("/secret/" ++ path) (Some req) st
    = (Ret (writeJSON StatusOK (SuccessResponse true "secret saved")), st')
    /\ handleSecret "GET" ("/secret/" ++ path) None st'
       = (Ret (writeJSON StatusOK
                 (SecretBody {| respPath := path;
                                respValue := reqValue req;
                                respFields := reqFields req;
                                respTags := reqTags req;
                                respCreatedAt := Some (rfc3339 now);
                                respUpdatedAt := Some (rfc3339 now) |})), st').
Proof.
  intros Hu Hp He Hn Hw1 Hw2 now Hj.
  pose (st1 := {| store := store st;
                  world := set_objects (objects (world st) ++ [request_secret req])
                             (world st) |}).
  assert (unlocked_with st1 c a k d) as Hu1.
  { destruct Hu as [Hc Hk Hb Hok Hd]. destruct st as [s w]. destruct w.
    split; assumption. }
  destruct (Get_after_Set Laws st1 c a k d path (length (objects (world st)))
              (request_secret req) r rest Hu1)
    as (st' & Hset & Hget & _ & Hc').
  { destruct st as [s w]. destruct w. apply snoc_lookup. }
  { destruct st as [s w]. destruct w. exact Hj. }
  { destruct st as [s w]. destruct w. exact He. }
  { exact Hn. }
  { destruct st as [s w]. destruct w. exact Hw1. }
  { destruct st as [s w]. destruct w. exact Hw2. }
  assert (next_time (world st1) = now) as Hnow
    by (destruct st as [s w]; destruct w; reflexivity).
  rewrite Hnow in Hget.
  assert (isLockedUnsafe (store st') = false) as Hl'.
  { destruct Hu as [_ Hk _ _ _]. unfold isLockedUnsafe, IsUnlocked.
    rewrite Hc', Hk. reflexivity. }
  exists st'. split.
  - rewrite handleSecret_unlocked by eauto using unlocked_not_locked.
    rewrite (bool_decide_eq_false_2 ("PUT" = "GET")) by discriminate.
    rewrite (bool_decide_eq_true_2 ("PUT" = "PUT")) by reflexivity.
    unfold setSecret, new_object. go_unf.
    fold (request_secret req). fold st1. rewrite Hset. reflexivity.
  - rewrite handleSecret_unlocked by assumption.
    rewrite (bool_decide_eq_true_2 ("GET" = "GET")) by reflexivity.
    unfold getSecret. go_unf. rewrite Hget.
    destruct (stamp_times now (request_secret req)) as (T1 & T2).
    destruct (stamp_payload now (request_secret req)) as (F1 & F2 & F3 & F4).
    unfold Secret_String.
    cbn [json_view with_Metadata SecretMetadata CreatedAt ModifiedAt Tags
         Value ValueBytes Fields].
    rewrite T1, T2, F1, F2, F3, F4. reflexivity.
Qed.
End WithLaws.
End DaemonMore.

(* ===================================================================== *)
(** ** package vault: secret references and fields *)
(* ===================================================================== *)

Lemma append_cons c (s t : string) : String c s ++ t = String c (s ++ t).
Proof. reflexivity. Qed.

Lemma append_nil_l (s : string) : "" ++ s = s.
Proof. reflexivity. Qed.

Lemma append_assoc (s t u : string) : s ++ (t ++ u) = (s ++ t) ++ u.
Proof. induction s as [|c s IH]; [reflexivity|]. rewrite !append_cons, IH. reflexivity. Qed.

Lemma not_occurs_nil ch : ~ occurs ch "".
Proof. intros ([|? ?] & post & H); discriminate. Qed.

Lemma not_occurs_cons ch c s :
  ~ occurs ch (String c s) <-> c <> ch /\ ~ occurs ch s.
Proof.
  split.
  - intros H. split.
    + intros ->. apply H. exists "", s. reflexivity.
    + intros (pre & post & ->). apply H. exists (String c pre), post. reflexivity.
  - intros [Hne Hs] (pre & post & H). destruct pre as [|c' pre].
    + injection H as -> _. contradiction.
    + injection H as _ ->. apply Hs. eexists _, _. reflexivity.
Qed.

Lemma before_first_append ch (pre post : string) :
  ~ occurs ch pre -> before_first ch (pre ++ String ch post) = Some pre.
Proof.
  induction pre as [|c pre IH]; intros Hno.
  - rewrite append_nil_l. cbn [before_first]. rewrite Ascii.eqb_refl. reflexivity.
  - apply not_occurs_cons in Hno. destruct Hno as [Hne Hno].
    rewrite append_cons. cbn [before_first].
    apply Ascii.eqb_neq in Hne. rewrite Hne, IH by exact Hno. reflexivity.
Qed.

Lemma before_first_None ch (s : string) :
  before_first ch s = None <-> ~ occurs ch s.
Proof.
  induction s as [|c s IH].
  - split; [intros _; apply not_occurs_nil | reflexivity].
  - cbn [before_first]. rewrite not_occurs_cons.
    destruct (Ascii.eqb c ch) eqn:E.
    + apply Ascii.eqb_eq in E. split; [discriminate|]. intros [? _]. contradiction.
    + apply Ascii.eqb_neq in E. rewrite fmap_None, IH. tauto.
Qed.

Lemma before_first_Some ch (s pre : string) :
  before_first ch s = Some pre ->
  ~ occurs ch pre /\ exists post, s = pre ++ String ch post.
Proof.
  revert pre. induction s as [|c s IH]; intros pre; [discriminate|].
  cbn [before_first]. destruct (Ascii.eqb c ch) eqn:E.
  - apply Ascii.eqb_eq in E. subst c. intros [= <-].
    split; [apply not_occurs_nil|]. exists s. reflexivity.
  - apply Ascii.eqb_neq in E.
    destruct (before_first ch s) as [p|]; [|discriminate]. intros [= <-].
    destruct (IH p eq_refl) as (Hno & post & ->).
    split; [apply not_occurs_cons; auto|]. exists post. reflexivity.
Qed.

Lemma after_last_append ch (pre post : string) :
  ~ occurs ch post -> after_last ch (pre ++ String ch post) = Some post.
Proof.
  intros Hno. apply before_first_None in Hno.
  assert (after_last ch post = None) as Hpost.
  { clear pre. induction post as [|c post IH]; [reflexivity|].
    cbn [before_first] in Hno. cbn [after_last].
    destruct (Ascii.eqb c ch); [discriminate|].
    apply fmap_None in Hno. rewrite IH by exact Hno. reflexivity. }
  induction pre as [|c pre IH].
  - rewrite append_nil_l. cbn [after_last]. rewrite Hpost, Ascii.eqb_refl. reflexivity.
  - rewrite append_cons. cbn [after_last]. rewrite IH. reflexivity.
Qed.

Lemma after_last_None ch (s : string) :
  after_last ch s = None <-> ~ occurs ch s.
Proof.
  induction s as [|c s IH].
  - split; [intros _; apply not_occurs_nil | reflexivity].
  - cbn [after_last]. rewrite not_occurs_cons.
    destruct (after_last ch s) as [t|].
    + split; [discriminate|]. intros [_ H]. apply IH in H. discriminate.
    + destruct (Ascii.eqb c ch) eqn:E.
      * apply Ascii.eqb_eq in E. split; [discriminate|]. intros [? _]. contradiction.
      * apply Ascii.eqb_neq in E. split; [|reflexivity]. intros _. split; [exact E|].
        apply IH. reflexivity.
Qed.

Lemma after_separator_append (pre post : string) :
  ~ occurs ":" pre -> after_separator (pre ++ "://" ++ post) = Some post.
Proof.
  induction pre as [|c pre IH]; intros Hno.
  - rewrite append_nil_l.
    change ("://" ++ post) with (String ":" (String "/" (String "/" post))).
    cbn. destruct post; reflexivity.
  - apply not_occurs_cons in Hno. destruct Hno as [Hne Hno].
    rewrite append_cons. cbn [after_separator].
    apply Ascii.eqb_neq in Hne. rewrite Hne. cbn [andb]. apply IH, Hno.
Qed.

Lemma prefix_split (p s : string) :
  String.prefix p s = true -> exists t, s = p ++ t.
Proof.
  revert s. induction p as [|c p IH]; intros s.
  - intros _. exists s. reflexivity.
  - destruct s as [|c' s]; [discriminate|]. cbn [String.prefix].
    destruct (ascii_dec c c') as [<-|]; [|discriminate].
    intros H. destruct (IH s H) as (t & ->). exists t. reflexivity.
Qed.

Lemma after_separator_None (s : string) :
  after_separator s = None <-> ~ occurs_in "://" s.
Proof.
  induction s as [|c s IH].
  - split; [|reflexivity]. intros _ ([|? ?] & post & H); discriminate.
  - cbn [after_separator].
    destruct (Ascii.eqb c ":" && String.prefix "//" s) eqn:E.
    + apply andb_true_iff in E. destruct E as [E1 E2].
      apply Ascii.eqb_eq in E1. subst c. destruct (prefix_split _ _ E2) as (t & ->).
      split; [discriminate|]. intros H. exfalso. apply H. exists "", t. reflexivity.
    + rewrite IH. split.
      * intros Hno (pre & post & H). destruct pre as [|c' pre].
        -- rewrite append_nil_l in H. injection H as -> ->.
           cbn in E. destruct post; discriminate E.
        -- injection H as _ ->. apply Hno. exists pre, post. reflexivity.
      * intros Hno (pre & post & ->). apply Hno.
        exists (String c pre), post. reflexivity.
Qed.

(** X20.  Parsing a secret reference.  For a reference
    [scheme://path#fragment] whose scheme has no [':'] and whose path and
    fragment have no ['#'], [Scheme], [Path] and [Fragment] return the three
    parts.  For [scheme://path], with no ['#'] at all, [Path] returns the
    path and [Fragment] the empty string. *)
Theorem SecretRef_parts (scheme path fragment : string) :
  ~ occurs ":" scheme -> ~ occurs "#" path -> ~ occurs "#" fragment ->
  (let r := scheme ++ "://" ++ path ++ "#" ++ fragment in
   SecretRef_Scheme r = scheme
   /\ SecretRef_Path r = path
   /\ SecretRef_Fragment r = fragment)
  /\ (let r := scheme ++ "://" ++ path in
      SecretRef_Scheme r = scheme
      /\ SecretRef_Path r = path
      /\ (~ occurs "#" scheme -> SecretRef_Fragment r = "")).
Proof.
  intros Hs Hp Hf. split; cbv zeta.
  - split; [|split].
    + unfold SecretRef_Scheme.
      change (scheme ++ "://" ++ path ++ "#" ++ fragment)
        with (scheme ++ String ":" ("//" ++ path ++ "#" ++ fragment)).
      rewrite before_first_append by exact Hs. reflexivity.
    + unfold SecretRef_Path. rewrite after_separator_append by exact Hs.
      change (path ++ "#" ++ fragment) with (path ++ String "#" fragment).
      rewrite before_first_append by exact Hp. reflexivity.
    + unfold SecretRef_Fragment.
      replace (scheme ++ "://" ++ path ++ "#" ++ fragment)
        with ((scheme ++ "://" ++ path) ++ String "#" fragment).
      * rewrite after_last_append by exact Hf. reflexivity.
      * rewrite <- !append_assoc. reflexivity.
  - split; [|split].
    + unfold SecretRef_Scheme.
      change (scheme ++ "://" ++ path) with (scheme ++ String ":" ("//" ++ path)).
      rewrite before_first_append by exact Hs. reflexivity.
    + unfold SecretRef_Path. rewrite after_separator_append by exact Hs.
      apply before_first_None in Hp. rewrite Hp. reflexivity.
    + intros Hs'. unfold SecretRef_Fragment.
      assert (~ occurs "#" (scheme ++ "://" ++ path)) as Hno.
      { clear Hs Hf. induction scheme as [|c scheme IH].
        - rewrite append_nil_l. change ("://" ++ path) with (String ":" (String "/" (String "/" path))).
          rewrite !not_occurs_cons. repeat split; try discriminate. exact Hp.
        - apply not_occurs_cons in Hs'. destruct Hs' as [Hne Hs'].
          rewrite append_cons. apply not_occurs_cons. split; [exact Hne|]. apply IH, Hs'. }
      apply after_last_None in Hno. rewrite Hno. reflexivity.
Qed.

Lemma length_append (s t : string) :
  String.length (s ++ t) = (String.length s + String.length t)%nat.
Proof. induction s as [|c s IH]; [reflexivity|]. rewrite append_cons. cbn. rewrite IH. reflexivity. Qed.

(** X21.  References without the usual shape.  [Path] returns the whole
    reference when ["://"] does not occur in it (so [env:NAME] has the path
    [env:NAME]); [Scheme] is empty exactly when the reference has no [':'] or
    starts with one; [Fragment] is empty when there is no ['#']. *)
Theorem SecretRef_degenerate (r : string) :
  (~ occurs_in "://" r -> SecretRef_Path r = r)
  /\ (SecretRef_Scheme r = "" <-> ~ occurs ":" r \/ exists rest, r = String ":" rest)
  /\ (~ occurs "#" r -> SecretRef_Fragment r = "").
Proof.
  split; [|split].
  - intros H. apply after_separator_None in H. unfold SecretRef_Path. rewrite H. reflexivity.
  - unfold SecretRef_Scheme. destruct (before_first ":" r) as [scheme|] eqn:E.
    + destruct (before_first_Some _ _ _ E) as (Hno & post & ->). split.
      * intros ->. right. exists post. reflexivity.
      * intros [H|(rest & H)].
        -- exfalso. apply H. exists scheme, post. reflexivity.
        -- destruct scheme as [|c scheme]; [reflexivity|].
           rewrite append_cons in H. injection H as -> _.
           exfalso. apply Hno. exists "", scheme. reflexivity.
    + apply before_first_None in E. split; auto.
  - intros H. apply after_last_None in H. unfold SecretRef_Fragment. rewrite H. reflexivity.
Qed.

(** X22.  What counts as a secret reference.  [IsSecretRef(s)] holds exactly
    when [s] is a non-empty scheme without [':'], then [':'], then at least
    three more bytes.  The two slashes are not checked: ["a:bcd"] counts. *)
Theorem IsSecretRef_iff (s : string) :
  IsSecretRef s = true
  <-> exists scheme rest,
        s = scheme ++ String ":" rest
        /\ scheme <> "" /\ ~ occurs ":" scheme /\ (3 <= String.length rest)%nat.
Proof.
  unfold IsSecretRef, SecretRef_Scheme. split.
  - intros H. apply andb_true_iff in H. destruct H as [H1 H2].
    apply negb_true_iff, bool_decide_eq_false in H1. apply Nat.ltb_lt in H2.
    destruct (before_first ":" s) as [scheme|] eqn:E; [|contradiction].
    destruct (before_first_Some _ _ _ E) as (Hno & post & ->).
    exists scheme, post. split; [reflexivity|]. split; [exact H1|]. split; [exact Hno|].
    rewrite length_append in H2. cbn [String.length] in H2. lia.
  - intros (scheme & rest & -> & Hne & Hno & Hl).
    rewrite before_first_append by exact Hno.
    rewrite bool_decide_eq_false_2 by exact Hne. cbn [negb andb].
    apply Nat.ltb_lt. rewrite length_append. cbn [String.length]. lia.
Qed.

(** X23.  Fields of a secret.  After [SetField(name, value)],
    [GetField(name')] returns [value] when the two names denote the same
    slot (equal names, or both among [""] and ["value"], which name the main
    value), and what it returned before otherwise.  [SetField] never touches
    the bytes: a secret with non-empty [ValueBytes] keeps printing them. *)
Theorem SetField_GetField (s : Secret) (name value name' : string) :
  (same_slot name name' ->
   Secret_GetField (Secret_SetField name value s) name' = value)
  /\ (~ same_slot name name' ->
      Secret_GetField (Secret_SetField name value s) name' = Secret_GetField s name')
  /\ ValueBytes (Secret_SetField name value s) = ValueBytes s
  /\ ((0 < length (ValueBytes s))%nat ->
      Secret_String (Secret_SetField name value s) = Secret_String s).
Proof.
  assert (forall n, bool_decide (n = "") || bool_decide (n = "value") = true
                    <-> main_value_name n) as Hmain.
  { intros n. unfold main_value_name.
    rewrite orb_true_iff, !bool_decide_eq_true. reflexivity. }
  unfold same_slot, Secret_GetField, Secret_SetField, Secret_String.
  destruct (bool_decide (name = "") || bool_decide (name = "value")) eqn:E;
    destruct (bool_decide (name' = "") || bool_decide (name' = "value")) eqn:E';
    cbn [Value Fields ValueBytes].
  - apply Hmain in E, E'. split; [reflexivity|].
    split; [intros H; exfalso; apply H; right; split; assumption|].
    split; [reflexivity|]. intros H. apply Nat.ltb_lt in H. rewrite H. reflexivity.
  - apply Hmain in E.
    assert (~ main_value_name name') as N' by (rewrite <- Hmain, E'; discriminate).
    split; [intros [<-|[_ ?]]; contradiction|]. split; [reflexivity|].
    split; [reflexivity|]. intros H. apply Nat.ltb_lt in H. rewrite H. reflexivity.
  - apply Hmain in E'.
    assert (~ main_value_name name) as N by (rewrite <- Hmain, E; discriminate).
    split; [intros [->|[? _]]; contradiction|]. split; [reflexivity|].
    split; reflexivity.
  - assert (~ main_value_name name) as N by (rewrite <- Hmain, E; discriminate).
    split; [|split; [|split; reflexivity]].
    + intros [->|[? _]]; [|contradiction]. rewrite lookup_insert_eq. reflexivity.
    + intros H. rewrite lookup_insert_ne; [reflexivity|]. intros ->. apply H. left. reflexivity.
Qed.

(** X24.  The value as text and as bytes.  [String()] and [Bytes()] always
    denote the same bytes: non-empty [ValueBytes] wins over [Value] in both,
    and otherwise both give [Value]. *)
Theorem Secret_String_Bytes (s : Secret) :
  Secret_Bytes s = list_byte_of_string (Secret_String s)
  /\ Secret_String s = string_of_list_byte (Secret_Bytes s)
  /\ (ValueBytes s = [] -> Secret_String s = Value s)
  /\ (ValueBytes s <> [] -> Secret_Bytes s = ValueBytes s).
Proof.
  unfold Secret_Bytes, Secret_String. destruct (ValueBytes s) as [|b bs] eqn:E.
  - cbn [length Nat.ltb Nat.leb].
    rewrite string_of_list_byte_of_string. repeat split. intros H. contradiction.
  - cbn [length Nat.ltb Nat.leb].
    rewrite list_byte_of_string_of_list_byte. repeat split. discriminate.
Qed.

(* ===================================================================== *)
(** ** The in-memory provider *)
(* ===================================================================== *)

Lemma copySecret_id (s : Secret) : copySecret s = s.
Proof.
  destruct s as [v vb f [ca ma ea ve ta la pr pa ex]]. unfold copySecret.
  cbn [Value ValueBytes Fields SecretMetadata CreatedAt ModifiedAt ExpiresAt Version
       Tags Labels Provider Path Extra].
  destruct vb; reflexivity.
Qed.

Lemma read_clock_run (w : World) :
  read_clock w = (next_time w, set_clock (tail (clock w)) w).
Proof. unfold read_clock. rewrite time_Now_run. reflexivity. Qed.

(** X25.  The memory provider: store and read back.  On an open provider,
    [Set(path, secret)] succeeds and [Get(path)] then returns a secret with
    the value, bytes, fields, tags, labels, expiry, version and extra data of
    the one given, with [Provider] set to ["memory"] and [Path] to the path.
    [CreatedAt] is the one given or, when none is given, a reading of the
    clock; [ModifiedAt] is the next reading of the clock, so the two differ
    for a fresh secret whenever the clock has moved.  The other paths read
    as before. *)
Theorem Mem_Set_then_Get (p : MemProvider) (m : gmap string Secret) (w : World)
        (path : string) (secret : Secret) :
  memClosed p = false -> memSecrets p = Some m ->
  exists p' w' got,
    Mem_Set path (Some secret) p w = (VOk tt, p', w')
    /\ Mem_Get path p' = VOk got
    /\ Mem_Exists path p' = VOk true
    /\ Value got = Value secret /\ ValueBytes got = ValueBytes secret
    /\ Fields got = Fields secret
    /\ Tags (SecretMetadata got) = Tags (SecretMetadata secret)
    /\ Labels (SecretMetadata got) = Labels (SecretMetadata secret)
    /\ ExpiresAt (SecretMetadata got) = ExpiresAt (SecretMetadata secret)
    /\ Version (SecretMetadata got) = Version (SecretMetadata secret)
    /\ Extra (SecretMetadata got) = Extra (SecretMetadata secret)
    /\ Provider (SecretMetadata got) = "memory"
    /\ Path (SecretMetadata got) = path
    /\ match CreatedAt (SecretMetadata secret) with
       | Some t =>
           CreatedAt (SecretMetadata got) = Some t
           /\ ModifiedAt (SecretMetadata got) = Some (hd 0 (clock w))
           /\ clock w' = tail (clock w)
       | None =>
           CreatedAt (SecretMetadata got) = Some (hd 0 (clock w))
           /\ ModifiedAt (SecretMetadata got) = Some (hd 0 (tail (clock w)))
           /\ clock w' = tail (tail (clock w))
       end
    /\ (forall path', path' <> path -> Mem_Get path' p' = Mem_Get path' p).
Proof.
  intros Hc Hm. destruct p as [ms cl]. cbn [memClosed memSecrets] in Hc, Hm. subst ms cl.
  unfold Mem_Set. cbn [memClosed memSecrets]. rewrite copySecret_id.
  destruct secret as [v vb f [ca ma ea ve ta la pr pa ex]].
  cbn [SecretMetadata CreatedAt Value ValueBytes Fields ExpiresAt Version Tags Labels Extra].
  destruct ca as [t|].
  - rewrite read_clock_run. unfold next_time.
    eexists _, _, _. split; [reflexivity|].
    unfold Mem_Get, Mem_Exists. cbn [memClosed memSecrets from_option id].
    rewrite lookup_insert_eq, copySecret_id.
    split; [reflexivity|]. split; [rewrite bool_decide_eq_true_2 by eauto; reflexivity|].
    cbn. repeat split; try reflexivity; try (destruct w; reflexivity).
    intros path' Hne. unfold Mem_Get. cbn [memClosed memSecrets from_option id].
      rewrite lookup_insert_ne by congruence. reflexivity.
  - rewrite !read_clock_run. unfold next_time.
    eexists _, _, _. split; [reflexivity|].
    unfold Mem_Get, Mem_Exists. cbn [memClosed memSecrets from_option id].
    rewrite lookup_insert_eq, copySecret_id.
    split; [reflexivity|]. split; [rewrite bool_decide_eq_true_2 by eauto; reflexivity|].
    cbn. repeat split; try reflexivity; try (destruct w; reflexivity).
    intros path' Hne. unfold Mem_Get. cbn [memClosed memSecrets from_option id].
      rewrite lookup_insert_ne by congruence. reflexivity.
Qed.

(** X26.  The memory provider, closed.  After [Close] every operation
    returns a [VaultError] naming the operation, the path and the provider
    and wrapping [ErrClosed] (so [errors.Is(err, ErrClosed)] holds), whatever
    the provider held; [Set] does not read the clock; the secrets are gone
    ([Count] is 0); and [Clear] does not open the provider again. *)
Theorem Mem_closed_refuses `{SecretRange} (p : MemProvider) (path prefix : string)
        (secret : option Secret) (w : World) :
  let c := Mem_Close p in
  Mem_Get path c = VErr (NewVaultError "Get" path "memory" ErrClosed)
  /\ Mem_Set path secret c w = (VErr (NewVaultError "Set" path "memory" ErrClosed), c, w)
  /\ Mem_Delete path c = (VErr (NewVaultError "Delete" path "memory" ErrClosed), c)
  /\ Mem_Exists path c = VErr (NewVaultError "Exists" path "memory" ErrClosed)
  /\ Mem_List prefix c = VErr (NewVaultError "List" prefix "memory" ErrClosed)
  /\ Mem_Count c = 0%nat
  /\ Mem_Get path (Mem_Clear c) = VErr (NewVaultError "Get" path "memory" ErrClosed)
  /\ (forall op, VaultError_Is (NewVaultError op path "memory" ErrClosed) ErrClosed = true)
  /\ (forall op, VaultError_Is (NewVaultError op path "memory" ErrClosed) ErrSecretNotFound
                 = false)
  /\ (path <> "" ->
      VaultError_Error (NewVaultError "Get" path "memory" ErrClosed)
      = "memory: Get " ++ path ++ ": vault is closed").
Proof.
  cbv zeta. repeat split.
  intros Hp. unfold VaultError_Error. cbn [vePath].
  rewrite bool_decide_eq_false_2 by exact Hp. reflexivity.
Qed.

Lemma filter_all {A} (P : A -> Prop) `{forall x, Decision (P x)} (l : list A) :
  (forall x, P x) -> filter P l = l.
Proof.
  intros HP. induction l as [|x l IH]; [reflexivity|].
  rewrite filter_cons, decide_True by apply HP. rewrite IH. reflexivity.
Qed.

Section MemList.
Context `{Range : SecretRange}.
Hypothesis secret_range_perm : forall m, secret_range m ≡ₚ map_to_list m.

Lemma mem_collect_filter prefix (kvs : list (string * Secret)) (acc : list string) :
  foldl (fun results kv =>
           if strings_HasPrefix (fst kv) prefix
           then (results ++ [fst kv])%list else results) acc kvs
  = (acc ++ filter (fun k => strings_HasPrefix k prefix = true) (kvs.*1))%list.
Proof.
  revert acc. induction kvs as [|[k v] kvs IH]; intros acc; simpl.
  - rewrite app_nil_r. reflexivity.
  - rewrite IH, filter_cons. simpl.
    destruct (strings_HasPrefix k prefix) eqn:E.
    + rewrite decide_True by reflexivity. rewrite <- app_assoc. reflexivity.
    + rewrite decide_False by discriminate. reflexivity.
Qed.

(** X27.  The memory provider: listing.  On an open provider
    [List(prefix)] returns exactly the stored paths that start with the
    prefix, each once, in whatever order the map is visited (the list is
    not sorted); with the empty prefix these are all the paths, as many as
    [Count] says.  A path is listed exactly when [Exists] holds of it and
    it has the prefix. *)
Theorem Mem_List_exact (p : MemProvider) (m : gmap string Secret) (prefix : string) :
  memClosed p = false -> memSecrets p = Some m ->
  exists paths,
    Mem_List prefix p = VOk paths
    /\ paths ≡ₚ filter (fun k => strings_HasPrefix k prefix = true) ((map_to_list m).*1)
    /\ NoDup paths
    /\ (forall k, k ∈ paths <->
                  Mem_Exists k p = VOk true /\ strings_HasPrefix k prefix = true)
    /\ (prefix = "" -> length paths = Mem_Count p).
Proof.
  intros Hc Hm. destruct p as [ms cl]. cbn [memClosed memSecrets] in Hc, Hm. subst ms cl.
  unfold Mem_List. cbn [memClosed memSecrets from_option id].
  rewrite mem_collect_filter, app_nil_l.
  set (paths := filter (fun k => strings_HasPrefix k prefix = true) ((secret_range m).*1)).
  set (keys := filter (fun k => strings_HasPrefix k prefix = true) ((map_to_list m).*1)).
  assert (paths ≡ₚ keys) as Hperm.
  { apply filter_Permutation, fmap_Permutation, secret_range_perm. }
  assert (forall k, k ∈ keys <-> is_Some (m !! k) /\ strings_HasPrefix k prefix = true)
    as Hkeys.
  { intros k. unfold keys. rewrite list_elem_of_filter.
    rewrite <- elem_of_dom, dom_alt, elem_of_list_to_set. tauto. }
  exists paths. split; [reflexivity|]. split; [exact Hperm|].
  split.
  { rewrite Hperm. apply NoDup_filter, NoDup_fst_map_to_list. }
  split.
  - intros k.
    assert (k ∈ paths <-> k ∈ keys) as -> by (rewrite Hperm; reflexivity).
    rewrite Hkeys. unfold Mem_Exists. cbn [memClosed memSecrets from_option id].
    split.
    + intros [Hk Hp]. split; [|exact Hp]. rewrite bool_decide_eq_true_2 by exact Hk.
      reflexivity.
    + intros [He Hp]. split; [|exact Hp].
      injection He as He. apply bool_decide_eq_true in He. exact He.
  - intros ->. rewrite Hperm. unfold keys, Mem_Count. cbn [memSecrets from_option id].
    rewrite filter_all by (intros; apply HasPrefix_empty).
    rewrite length_fmap. apply length_map_to_list.
Qed.
End MemList.

(* ===================================================================== *)
(** ** The resolver *)
(* ===================================================================== *)

Lemma not_occurs_append ch (s t : string) :
  ~ occurs ch s -> ~ occurs ch t -> ~ occurs ch (s ++ t).
Proof.
  intros Hs Ht. induction s as [|c s IH]; [exact Ht|].
  apply not_occurs_cons in Hs. destruct Hs as [Hne Hs].
  rewrite append_cons. apply not_occurs_cons. auto.
Qed.

Section ResolverSpec.
Context {V S E : Type} (vault_Get : V -> string -> S -> (E + option Secret) * S).

(** X28.  Resolving a reference.  Let a provider be registered for a
    scheme, and let it return a secret for a path.  Then
    [Resolve("scheme://path")] returns the secret's text ([String()]: the
    bytes when there are any), and [Resolve("scheme://path#field")] returns
    what [GetField(field)] gives: the field of that name, the main [Value]
    for the field name ["value"], and the empty string, without error, for
    a field the secret does not have.  The state is the one the provider
    left. *)
Theorem Resolve_reference (r : gmap string V) (v : V) (scheme path : string)
        (sec : Secret) (st st' : S) :
  scheme <> "" -> ~ occurs ":" scheme -> ~ occurs "#" scheme -> ~ occurs "#" path ->
  r !! scheme = Some v ->
  vault_Get v path st = (inr (Some sec), st') ->
  Resolve vault_Get r (scheme ++ "://" ++ path) st = (ROk (Secret_String sec), st')
  /\ forall field,
       field <> "" -> ~ occurs "#" field ->
       Resolve vault_Get r (scheme ++ "://" ++ path ++ "#" ++ field) st
       = (ROk (Secret_GetField sec field), st')
       /\ (Fields sec !! field = None -> field <> "value" ->
           Secret_GetField sec field = "")
       /\ (field = "value" -> Secret_GetField sec field = Value sec).
Proof.
  intros Hne Hs Hs' Hp Hr HG. split.
  - set (uri := scheme ++ "://" ++ path).
    assert (SecretRef_Scheme uri = scheme) as HS.
    { unfold SecretRef_Scheme, uri.
      change (scheme ++ "://" ++ path) with (scheme ++ String ":" ("//" ++ path)).
      rewrite before_first_append by exact Hs. reflexivity. }
    assert (SecretRef_Path uri = path) as HP.
    { unfold SecretRef_Path, uri. rewrite after_separator_append by exact Hs.
      apply before_first_None in Hp. rewrite Hp. reflexivity. }
    assert (SecretRef_Fragment uri = "") as HF.
    { unfold SecretRef_Fragment, uri.
      assert (after_last "#" (scheme ++ "://" ++ path) = None) as ->; [|reflexivity].
      apply after_last_None. apply not_occurs_append; [exact Hs'|].
      change ("://" ++ path) with (String ":" (String "/" (String "/" path))).
      rewrite !not_occurs_cons. repeat split; try discriminate. exact Hp. }
    unfold Resolve, ResolveSecret. cbv zeta. rewrite HS, HP, HF.
    rewrite bool_decide_eq_false_2 by exact Hne. rewrite Hr, HG.
    rewrite bool_decide_eq_true_2 by reflexivity. reflexivity.
  - intros field Hf Hfn. split; [|split].
    + set (uri := scheme ++ "://" ++ path ++ "#" ++ field).
      assert (SecretRef_Scheme uri = scheme) as HS.
      { unfold SecretRef_Scheme, uri.
        change (scheme ++ "://" ++ path ++ "#" ++ field)
          with (scheme ++ String ":" ("//" ++ path ++ "#" ++ field)).
        rewrite before_first_append by exact Hs. reflexivity. }
      assert (SecretRef_Path uri = path) as HP.
      { unfold SecretRef_Path, uri. rewrite after_separator_append by exact Hs.
        change (path ++ "#" ++ field) with (path ++ String "#" field).
        rewrite before_first_append by exact Hp. reflexivity. }
      assert (SecretRef_Fragment uri = field) as HF.
      { unfold SecretRef_Fragment, uri.
        replace (scheme ++ "://" ++ path ++ "#" ++ field)
          with ((scheme ++ "://" ++ path) ++ String "#" field)
          by (rewrite <- !append_assoc; reflexivity).
        rewrite after_last_append by exact Hfn. reflexivity. }
      unfold Resolve, ResolveSecret. cbv zeta. rewrite HS, HP, HF.
      rewrite bool_decide_eq_false_2 by exact Hne. rewrite Hr, HG.
      rewrite bool_decide_eq_false_2 by exact Hf. cbn [negb].
      unfold Secret_String. reflexivity.
    + intros Hnone Hnv. unfold Secret_GetField.
      rewrite !bool_decide_eq_false_2 by assumption. cbn [orb]. rewrite Hnone. reflexivity.
    + intros ->. reflexivity.
Qed.

(** X29.  Strings that may be references.  [ResolveString] returns a
    string that is not of the reference shape (see [IsSecretRef]) as it is,
    without consulting a provider.  A string of that shape is resolved:
    when no provider is registered for what precedes its first [':'], the
    call fails with "provider not registered" and changes nothing, so a
    configuration value such as a URL is not passed through. *)
Theorem ResolveString_cases (r : gmap string V) (s : string) (st : S) :
  (IsSecretRef s = false -> ResolveString vault_Get r s st = (ROk s, st))
  /\ (IsSecretRef s = true ->
      ResolveString vault_Get r s st = Resolve vault_Get r s st
      /\ (r !! SecretRef_Scheme s = None ->
          ResolveString vault_Get r s st
          = (RErr (ProviderNotRegistered (SecretRef_Scheme s)), st)))
  /\ (forall rest,
        r !! "https" = None ->
        ResolveString vault_Get r ("https://" ++ rest) st
        = (if bool_decide (rest = "") then ROk "https://"
           else RErr (ProviderNotRegistered "https"), st)).
Proof.
  split; [|split].
  - intros H. unfold ResolveString. rewrite H. reflexivity.
  - intros H. unfold ResolveString. rewrite H. cbn [negb]. split; [reflexivity|].
    intros Hr. unfold Resolve, ResolveSecret.
    unfold IsSecretRef in H. apply andb_true_iff in H. destruct H as [H _].
    apply negb_true_iff in H. rewrite H, Hr. reflexivity.
  - intros rest Hr. unfold ResolveString, IsSecretRef, Resolve, ResolveSecret.
    assert (SecretRef_Scheme ("https://" ++ rest) = "https") as -> by reflexivity.
    rewrite (bool_decide_eq_false_2 ("https" = "")) by discriminate. cbn [negb andb].
    destruct rest as [|c rest].
    + reflexivity.
    + rewrite Hr. cbn. reflexivity.
Qed.
End ResolverSpec.

(* ===================================================================== *)
(** ** The statements above, on the sample runs *)
(* ===================================================================== *)


Lemma Encrypt_Decrypt_roundtrip_witness :
  exists encoded w',
    Encrypt (Ext := Ref.externals)
      {| params := DefaultArgon2Params; salt := replicate 32 "s"%byte; key := Some 0%nat |}
      ["h"%byte; "i"%byte] (world Sample.st_s1) = (Ret encoded, w')
    /\ Decrypt (Ext := Ref.externals)
         {| params := DefaultArgon2Params; salt := replicate 32 "s"%byte; key := Some 0%nat |}
         encoded w' = (Ret ["h"%byte; "i"%byte], w')
    /\ heap w' = heap (world Sample.st_s1).
Proof.
  apply (Encrypt_Decrypt_roundtrip (Ext := Ref.externals) Ref_laws _ 0%nat
           (default [] (heap (world Sample.st_s1) !! 0%nat)) _ _
           (replicate 32 "c"%byte) (drop 4 (entropy Sample.w_fresh))).
  - reflexivity.
  - reflexivity.
  - vm_compute. reflexivity.
  - reflexivity.
  - vm_compute. lia.
Defined.

Lemma VerifyPassword_accepts_creator_witness :
  exists c' blob w1 w2 w3,
    Crypto_Unlock (Ext := Ref.externals)
      {| params := DefaultArgon2Params; salt := replicate 32 "s"%byte; key := None |}
      "correcthorse" Sample.w_fresh = (Ret c', w1)
    /\ CreateVerificationBlob c' w1 = (Ret blob, w2)
    /\ VerifyPassword (Ext := Ref.externals)
         {| params := DefaultArgon2Params; salt := replicate 32 "s"%byte; key := None |}
         "correcthorse" blob w2 = (Ret true, w3)
    /\ key c' = Some 0%nat.
Proof.
  destruct (VerifyPassword_accepts_creator (Ext := Ref.externals) Ref_laws
              {| params := DefaultArgon2Params; salt := replicate 32 "s"%byte; key := None |}
              "correcthorse" Sample.w_fresh
              (replicate 32 "s"%byte) (drop 1 (entropy Sample.w_fresh)))
    as (c' & blob & w1 & w2 & w3 & H1 & H2 & H3 & H4 & _).
  - vm_compute. repeat split; discriminate.
  - vm_compute. set_solver.
  - reflexivity.
  - vm_compute. lia.
  - exists c', blob, w1, w2, w3. auto.
Defined.

Lemma Delete_then_absent_witness :
  exists st',
    Delete (Ext := Ref.externals) "db/pw" Sample.st_s1 = (Ret tt, st')
    /\ Store_Exists "db/pw" st' = (Ret false, st')
    /\ Get (Ext := Ref.externals) "db/pw" st' = (Fail ErrSecretNotFound, st')
    /\ fst (SecretCount st') = Ret 0%nat.
Proof.
  pose (c := default (init_crypto [] 0) (crypto (store Sample.st_s1))).
  pose (d := default Ref.zeroVaultData (data (store Sample.st_s1))).
  pose (k := default [] (heap (world Sample.st_s1) !! 0%nat)).
  destruct (Delete_then_absent (Ext := Ref.externals) Sample.st_s1 c 0%nat k d "db/pw")
    as (st' & H1 & H2 & H3 & _ & H5 & _).
  - split; reflexivity.
  - exact (not_elem_of_empty (C := gset string) "/home/u/.omnivault").
  - exact (not_elem_of_empty (C := gset string) Sample.vault_enc).
  - exists st'. split; [exact H1|]. split; [exact H2|]. split; [exact H3|].
    rewrite H5. vm_compute. reflexivity.
Defined.

Lemma Set_keeps_other_paths_witness :
  exists st',
    Store_Set (Ext := Ref.externals) "api/key" 0 Sample.st_init_held = (Ret tt, st')
    /\ Store_Exists "api/key" st' = (Ret true, st')
    /\ fst (Get (Ext := Ref.externals) "db/pw" st')
       = fst (Get (Ext := Ref.externals) "db/pw" Sample.st_init_held)
    /\ fst (SecretCount st') = Ret 1%nat.
Proof.
  pose (c := default (init_crypto [] 0) (crypto (store Sample.st_init_held))).
  pose (d := default Ref.zeroVaultData (data (store Sample.st_init_held))).
  pose (k := default [] (heap (world Sample.st_init_held) !! 0%nat)).
  pose (text := Ref.Secret_to_text (stamp 3500000000 Sample.secret0)).
  destruct (Set_keeps_other_paths (Ext := Ref.externals) Sample.st_init_held c 0%nat k d
              "api/key" 0%nat Sample.secret0 text
              (replicate 32 "b"%byte) (drop 3 (entropy Sample.w_fresh)))
    as (st' & H1 & H2 & H3 & H4).
  - split; reflexivity.
  - reflexivity.
  - vm_compute. reflexivity.
  - reflexivity.
  - vm_compute. lia.
  - exact (not_elem_of_empty (C := gset string) "/home/u/.omnivault").
  - exact (not_elem_of_empty (C := gset string) Sample.vault_enc).
  - exists st'. split; [exact H1|]. split; [exact H2|].
    split; [apply (H3 "db/pw"); discriminate|].
    rewrite H4. vm_compute. reflexivity.
Defined.

Lemma save_failure_keeps_change_witness :
  exists e st',
    Delete (Ext := Ref.externals) "db/pw" Sample.st_ro_dirty = (Fail e, st')
    /\ dirty (store st') = true
    /\ Store_Exists "db/pw" st' = (Ret false, st')
    /\ files (world st') = files (world Sample.st_ro_dirty).
Proof.
  pose (c := default (init_crypto [] 0) (crypto (store Sample.st_ro_dirty))).
  pose (d := default Ref.zeroVaultData (data (store Sample.st_ro_dirty))).
  pose (k := default [] (heap (world Sample.st_ro_dirty) !! 0%nat)).
  destruct (save_failure_keeps_change (Ext := Ref.externals) Sample.st_ro_dirty c 0%nat k d
              "db/pw")
    as ((e & st' & H1 & H2 & _ & H4 & H5) & _).
  - split; reflexivity.
  - reflexivity.
  - right. change (Sample.vault_enc ∈ ({[Sample.vault_enc]} : gset string)). set_solver.
  - exists e, st'. auto.
Defined.

(** The metadata and data files of the sample states. *)
Ltac sample_meta text :=
  exists text; split; [reflexivity|];
  split; [exact (not_elem_of_empty (C := gset string) Sample.vault_meta)|];
  split; [vm_compute; reflexivity|];
  split; [reflexivity|];
  split; [vm_compute; lia | vm_compute; repeat split; discriminate].

Ltac sample_data text :=
  exists text; split; [reflexivity|];
  split; [exact (not_elem_of_empty (C := gset string) Sample.vault_enc)|];
  vm_compute; reflexivity.

Ltac sample_password :=
  apply verify_with_key_true_iff; vm_compute; reflexivity.

Lemma Unlock_without_data_file_witness :
  exists st',
    Unlock (Ext := Ref.externals) "correcthorse" Sample.st_ro_init = (Ret tt, st')
    /\ fst (IsLocked st') = Ret false
    /\ fst (SecretCount st') = Ret 0%nat
    /\ files (world st') = files (world Sample.st_ro_init).
Proof.
  pose (text := default "" (files (world Sample.st_ro_init) !! Sample.vault_meta)).
  pose (m := default Ref.zeroVaultMeta (Ref.VaultMeta_of_text text)).
  destruct (Unlock_without_data_file (Ext := Ref.externals) Sample.st_ro_init
              "correcthorse" m (replicate 32 "s"%byte))
    as (st' & H1 & H2 & H3 & _ & _ & H6).
  - sample_meta text.
  - sample_password.
  - reflexivity.
  - exists st'. auto.
Defined.

Lemma Unlock_load_failure_witness :
  exists cause st',
    Unlock (Ext := Ref.externals) "correcthorse"
      {| store := store Sample.st_locked;
         world := {| files := files (world Sample.st_locked);
                     wfault := ∅; rfault := {[Sample.vault_enc]};
                     syslog := []; heap := heap (world Sample.st_locked);
                     objects := []; entropy := []; clock := [] |} |}
    = (Fail (fmt_Errorf "failed to load vault data" cause), st')
    /\ crypto (store st') = None
    /\ fst (IsLocked st') = Ret true.
Proof.
  pose (text := default "" (files (world Sample.st_locked) !! Sample.vault_meta)).
  pose (m := default Ref.zeroVaultMeta (Ref.VaultMeta_of_text text)).
  destruct (Unlock_load_failure (Ext := Ref.externals)
              {| store := store Sample.st_locked;
                 world := {| files := files (world Sample.st_locked);
                             wfault := ∅; rfault := {[Sample.vault_enc]};
                             syslog := []; heap := heap (world Sample.st_locked);
                             objects := []; entropy := []; clock := [] |} |}
              "correcthorse" m (replicate 32 "s"%byte))
    as (cause & st' & H1 & H2 & H3 & _).
  - exists text. split; [reflexivity|].
    split; [change (Sample.vault_meta ∉ ({[Sample.vault_enc]} : gset string)); set_solver|].
    split; [vm_compute; reflexivity|].
    split; [reflexivity|].
    split; [vm_compute; lia | vm_compute; repeat split; discriminate].
  - sample_password.
  - exists (default "" (files (world Sample.st_locked) !! Sample.vault_enc)).
    split; [reflexivity|]. left.
    change (Sample.vault_enc ∈ ({[Sample.vault_enc]} : gset string)). set_solver.
  - exists cause, st'. auto.
Defined.

Lemma Unlock_again_witness :
  exists st' c' a',
    Unlock (Ext := Ref.externals) "correcthorse" Sample.st_s1 = (Ret tt, st')
    /\ crypto (store st') = Some c' /\ key c' = Some a' /\ a' <> 0%nat
    /\ heap (world st') !! 0%nat = heap (world Sample.st_s1) !! 0%nat.
Proof.
  pose (c := default (init_crypto [] 0) (crypto (store Sample.st_s1))).
  pose (d := default Ref.zeroVaultData (data (store Sample.st_s1))).
  pose (k := default [] (heap (world Sample.st_s1) !! 0%nat)).
  pose (text := default "" (files (world Sample.st_s1) !! Sample.vault_meta)).
  pose (m := default Ref.zeroVaultMeta (Ref.VaultMeta_of_text text)).
  destruct (Unlock_again (Ext := Ref.externals) Sample.st_s1 "correcthorse" c 0%nat k m
              (replicate 32 "s"%byte) d)
    as (st' & c' & a' & H1 & H2 & H3 & H4 & _ & H6 & _).
  - reflexivity.
  - reflexivity.
  - reflexivity.
  - sample_meta text.
  - sample_password.
  - sample_data (default "" (files (world Sample.st_s1) !! Sample.vault_enc)).
  - exists st', c', a'. rewrite H6. auto.
Defined.

Lemma Lock_Unlock_restores_witness :
  exists st1 st2,
    Lock (Ext := Ref.externals) Sample.st_s1 = (Ret tt, st1)
    /\ Get (Ext := Ref.externals) "db/pw" st1 = (Fail errLocked, st1)
    /\ Unlock (Ext := Ref.externals) "correcthorse" st1 = (Ret tt, st2)
    /\ fst (Get (Ext := Ref.externals) "db/pw" st2)
       = fst (Get (Ext := Ref.externals) "db/pw" Sample.st_s1)
    /\ fst (Store_List "" st2) = fst (Store_List "" Sample.st_s1).
Proof.
  pose (c := default (init_crypto [] 0) (crypto (store Sample.st_s1))).
  pose (d := default Ref.zeroVaultData (data (store Sample.st_s1))).
  pose (text := default "" (files (world Sample.st_s1) !! Sample.vault_meta)).
  pose (m := default Ref.zeroVaultMeta (Ref.VaultMeta_of_text text)).
  destruct (Lock_Unlock_restores (Ext := Ref.externals) Sample.st_s1 "correcthorse" c 0%nat
              m d)
    as (st1 & st2 & H1 & H2 & H3 & H4 & _ & H6 & _).
  - split; vm_compute; reflexivity.
  - reflexivity.
  - sample_meta text.
  - reflexivity.
  - sample_password.
  - sample_data (default "" (files (world Sample.st_s1) !! Sample.vault_enc)).
  - exists st1, st2. auto 10.
Defined.

Lemma ChangePassword_preserves_secrets_witness :
  let st' := snd (ChangePassword (Ext := Ref.externals) "correcthorse" "tr0ub4dor"
                    Sample.st_s1) in
  fst (Get (Ext := Ref.externals) "db/pw" st')
  = fst (Get (Ext := Ref.externals) "db/pw" Sample.st_s1)
  /\ fst (SecretCount st') = fst (SecretCount Sample.st_s1)
  /\ heap (world st') !! 0%nat = Some (replicate 32 Byte.x00).
Proof.
  pose (c := default (init_crypto [] 0) (crypto (store Sample.st_s1))).
  pose (d := default Ref.zeroVaultData (data (store Sample.st_s1))).
  pose (k := default [] (heap (world Sample.st_s1) !! 0%nat)).
  pose (m := default Ref.zeroVaultMeta (meta (store Sample.st_s1))).
  destruct (ChangePassword_preserves_secrets (Ext := Ref.externals) Ref_laws Sample.st_s1
              (snd (ChangePassword (Ext := Ref.externals) "correcthorse" "tr0ub4dor"
                      Sample.st_s1))
              "correcthorse" "tr0ub4dor" c 0%nat k m d)
    as (H1 & _ & H3 & H4 & _).
  - reflexivity.
  - reflexivity.
  - reflexivity.
  - reflexivity.
  - reflexivity.
  - vm_compute. repeat split; discriminate.
  - vm_compute. reflexivity.
  - split; [apply H1|]. split; [exact H3|]. rewrite H4. vm_compute. reflexivity.
Defined.

Lemma reachable_no_panic_witness :
  ~ panics (Initialize (Ext := Ref.externals) "again" Sample.st_init)
  /\ ~ panics (Get (Ext := Ref.externals) "db/pw" Sample.st_init)
  /\ ~ panics (Lock (Ext := Ref.externals) Sample.st_init)
  /\ ~ panics (ChangePassword (Ext := Ref.externals) "correcthorse" "tr0ub4dor"
                 Sample.st_init).
Proof.
  destruct (reachable_no_panic (Ext := Ref.externals) Ref_laws Sample.st_init)
    as (H1 & H2 & _ & _ & _ & _ & H7 & H8 & _).
  - change Sample.st_init
      with (after (Ext := Ref.externals) (CallInitialize "correcthorse") Sample.st_fresh).
    apply reach_call, reach_new.
  - split; [apply H1|]. split; [apply H2|]. split; [exact H7|]. apply H8. reflexivity.
Defined.

Lemma reachable_unlocked_witness :
  exists c a k m d,
    unlocked_with Sample.st_init c a k d
    /\ meta (store Sample.st_init) = Some m /\ valid_params (params c).
Proof.
  apply (reachable_unlocked (Ext := Ref.externals) Ref_laws Sample.st_init).
  - change Sample.st_init
      with (after (Ext := Ref.externals) (CallInitialize "correcthorse") Sample.st_fresh).
    apply reach_call, reach_new.
  - reflexivity.
Defined.

Lemma locked_daemon_refuses_witness :
  handleSecret (Ext := Ref.externals) "GET" "/secret/db/pw" None Sample.st_locked
  = (Ret (writeError StatusForbidden "vault is locked" ErrCodeVaultLocked), Sample.st_locked)
  /\ handleSecrets (Ext := Ref.externals) "GET" "" Sample.st_locked
     = (Ret {| listStatus := StatusForbidden;
               listBody := ListError "vault is locked" ErrCodeVaultLocked |},
        Sample.st_locked).
Proof.
  destruct (locked_daemon_refuses (Ext := Ref.externals) Sample.st_locked
              "GET" "/secret/db/pw" "" None) as (H1 & H2).
  - reflexivity.
  - split; [exact H1 | exact H2].
Defined.

Lemma daemon_delete_then_get_witness :
  exists st',
    handleSecret (Ext := Ref.externals) "DELETE" "/secret/db/pw" None Sample.st_s1
    = (Ret (writeJSON StatusOK (SuccessResponse true "secret deleted")), st')
    /\ handleSecret (Ext := Ref.externals) "GET" "/secret/db/pw" None st'
       = (Ret (writeError StatusNotFound "secret not found" ErrCodeSecretNotFound), st').
Proof.
  pose (c := default (init_crypto [] 0) (crypto (store Sample.st_s1))).
  pose (d := default Ref.zeroVaultData (data (store Sample.st_s1))).
  pose (k := default [] (heap (world Sample.st_s1) !! 0%nat)).
  apply (daemon_delete_then_get (Ext := Ref.externals) Sample.st_s1 c 0%nat k d "db/pw").
  - split; reflexivity.
  - discriminate.
  - exact (not_elem_of_empty (C := gset string) "/home/u/.omnivault").
  - exact (not_elem_of_empty (C := gset string) Sample.vault_enc).
Defined.

Lemma handleSecrets_lists_witness :
  exists items,
    handleSecrets (Ext := Ref.externals) "GET" "a/" Sample.st_abc
    = (Ret {| listStatus := StatusOK;
              listBody := ListOK {| listSecrets := items; listCount := length items |} |},
       Sample.st_abc)
    /\ itemPath <$> items = ["a/1"; "a/2"].
Proof.
  pose (c := default (init_crypto [] 0) (crypto (store Sample.st_abc))).
  pose (d := default Ref.zeroVaultData (data (store Sample.st_abc))).
  pose (k := default [] (heap (world Sample.st_abc) !! 0%nat)).
  destruct (handleSecrets_lists (Ext := Ref.externals) Sample.st_abc c 0%nat k d "a/")
    as (items & H1 & H2 & _).
  - split; reflexivity.
  - exists items. split; [exact H1|]. rewrite H2. vm_compute. reflexivity.
Defined.

Lemma daemon_put_then_get_witness :
  exists st',
    handleSecret (Ext := Ref.externals) "PUT" "/secret/db/pw" (Sample.put "n3wer")
      Sample.st_s1
    = (Ret (writeJSON StatusOK (SuccessResponse true "secret saved")), st')
    /\ handleSecret (Ext := Ref.externals) "GET" "/secret/db/pw" None st'
       = (Ret (writeJSON StatusOK
                 (SecretBody {| respPath := "db/pw"; respValue := "n3wer";
                                respFields := ∅; respTags := ∅;
                                respCreatedAt := Some (rfc3339 4200000000);
                                respUpdatedAt := Some (rfc3339 4200000000) |})), st').
Proof.
  pose (c := default (init_crypto [] 0) (crypto (store Sample.st_s1))).
  pose (d := default Ref.zeroVaultData (data (store Sample.st_s1))).
  pose (k := default [] (heap (world Sample.st_s1) !! 0%nat)).
  apply (daemon_put_then_get (Ext := Ref.externals) Ref_laws Sample.st_s1
           c 0%nat k d "db/pw" {| reqValue := "n3wer"; reqFields := ∅; reqTags := ∅ |}
           (replicate 32 "c"%byte) (drop 4 (entropy Sample.w_fresh))).
  - split; reflexivity.
  - discriminate.
  - reflexivity.
  - vm_compute. lia.
  - exact (not_elem_of_empty (C := gset string) "/home/u/.omnivault").
  - exact (not_elem_of_empty (C := gset string) Sample.vault_enc).
  - apply Ref_json_roundtrips.
Defined.

Ltac no_occurrence :=
  repeat (apply not_occurs_cons; split; [discriminate|]); apply not_occurs_nil.

Lemma SecretRef_parts_witness :
  SecretRef_Scheme "op://vault/item#password" = "op"
  /\ SecretRef_Path "op://vault/item#password" = "vault/item"
  /\ SecretRef_Fragment "op://vault/item#password" = "password"
  /\ SecretRef_Path "op://vault/item" = "vault/item"
  /\ SecretRef_Fragment "op://vault/item" = "".
Proof.
  destruct (SecretRef_parts "op" "vault/item" "password")
    as ((H1 & H2 & H3) & (_ & H5 & H6)).
  - no_occurrence.
  - no_occurrence.
  - no_occurrence.
  - split; [exact H1|]. split; [exact H2|]. split; [exact H3|]. split; [exact H5|].
    apply H6. no_occurrence.
Defined.

Lemma Mem_Set_then_Get_witness :
  exists p' w' got,
    Mem_Set "TOKEN" (Some Sample.secret0) Mem_New Sample.w_fresh = (VOk tt, p', w')
    /\ Mem_Get "TOKEN" p' = VOk got
    /\ Mem_Exists "TOKEN" p' = VOk true
    /\ Value got = "s3cret"
    /\ Provider (SecretMetadata got) = "memory"
    /\ CreatedAt (SecretMetadata got) = Some 1000000000
    /\ ModifiedAt (SecretMetadata got) = Some 2000000000.
Proof.
  destruct (Mem_Set_then_Get Mem_New ∅ Sample.w_fresh "TOKEN" Sample.secret0)
    as (p' & w' & got & H1 & H2 & H3 & H4 & _ & _ & _ & _ & _ & _ & _ & H12 & _ & H14 & _).
  - reflexivity.
  - reflexivity.
  - exists p', w', got. split; [exact H1|]. split; [exact H2|]. split; [exact H3|].
    split; [exact H4|]. split; [exact H12|].
    destruct H14 as (Hc & Hm & _). split; [exact Hc | exact Hm].
Defined.

Lemma Mem_List_exact_witness :
  exists paths,
    Mem_List (H := map_to_list) "a/"
      {| memSecrets := Some {[ "a/1" := Sample.secret0 ]}; memClosed := false |}
    = VOk paths
    /\ NoDup paths
    /\ "a/1" ∈ paths.
Proof.
  destruct (Mem_List_exact (Range := map_to_list) (fun m => reflexivity (map_to_list m))
              {| memSecrets := Some {[ "a/1" := Sample.secret0 ]}; memClosed := false |}
              {[ "a/1" := Sample.secret0 ]} "a/")
    as (paths & H1 & _ & H3 & H4 & _).
  - reflexivity.
  - reflexivity.
  - exists paths. split; [exact H1|]. split; [exact H3|].
    apply H4. split; vm_compute; reflexivity.
Defined.

Lemma Resolve_reference_witness :
  let vault_Get := fun (p : MemProvider) (path : string) (st : unit) =>
                     (match Mem_Get path p with
                      | VOk secret => inr (Some secret)
                      | VErr e => inl e
                      | VPanic _ => inr None
                      end, st) in
  let r : gmap string MemProvider :=
    Resolver_Register "memory"
      {| memSecrets := Some {[ "TOKEN" := Sample.secret0 ]}; memClosed := false |} ∅ in
  Resolve vault_Get r "memory://TOKEN" tt = (ROk "key", tt)
  /\ Resolve vault_Get r "memory://TOKEN#user" tt = (ROk "admin", tt).
Proof.
  intros vault_Get r.
  destruct (Resolve_reference vault_Get r
              {| memSecrets := Some {[ "TOKEN" := Sample.secret0 ]}; memClosed := false |}
              "memory" "TOKEN" Sample.secret0 tt tt)
    as (H1 & H2).
  - discriminate.
  - no_occurrence.
  - no_occurrence.
  - no_occurrence.
  - reflexivity.
  - vm_compute. reflexivity.
  - split; [exact H1|].
    destruct (H2 "user") as (H3 & _).
    + discriminate.
    + no_occurrence.
    + exact H3.
Defined.

Lemma handleInit_replies_witness :
  exists reply,
    fst (handleInit (Ext := Ref.externals) "POST" (Some "correcthorse") Sample.st_fresh)
    = Ret reply
    /\ status reply = StatusOK.
Proof.
  destruct (handleInit_replies (Ext := Ref.externals) Sample.st_fresh "POST"
              (Some "correcthorse")) as (reply & H1 & H2 & _).
  exists reply. split; [exact H1|]. apply H2. split; [reflexivity|].
  exists "correcthorse". split; [reflexivity|]. split; [vm_compute; lia|].
  split; [reflexivity|]. vm_compute. reflexivity.
Defined.

Lemma handleUnlock_replies_witness :
  handleUnlock (Ext := Ref.externals) "POST" (Some "correcthorse") Sample.st_fresh
  = (Ret (writeError StatusNotFound "vault does not exist, run init first"
            ErrCodeVaultNotFound), Sample.st_fresh)
  /\ fst (handleUnlock (Ext := Ref.externals) "POST" (Some "correcthorse") Sample.st_locked)
     = Ret (writeJSON StatusOK (SuccessResponse true "vault unlocked")).
Proof.
  pose (text := default "" (files (world Sample.st_locked) !! Sample.vault_meta)).
  pose (m := default Ref.zeroVaultMeta (Ref.VaultMeta_of_text text)).
  pose (d := default Ref.zeroVaultData (data (store Sample.st_s1))).
  split.
  - apply (handleUnlock_replies (Ext := Ref.externals) Sample.st_fresh "correcthorse").
    reflexivity.
  - destruct (handleUnlock_replies (Ext := Ref.externals) Sample.st_locked "correcthorse")
      as (_ & _ & H).
    destruct (H m (replicate 32 "s"%byte) d) as (st' & H1 & _).
    + sample_meta text.
    + sample_password.
    + left. sample_data (default "" (files (world Sample.st_locked) !! Sample.vault_enc)).
    + rewrite H1. reflexivity.
Defined.

Lemma IsSecretRef_iff_witness :
  IsSecretRef "a:bcd" = true.
Proof.
  apply (IsSecretRef_iff "a:bcd"). exists "a", "bcd".
  split; [reflexivity|]. split; [discriminate|]. split; [no_occurrence | vm_compute; lia].
Defined.

Lemma ResolveString_cases_witness :
  let vault_Get := fun (p : MemProvider) (path : string) (st : unit) =>
                     (match Mem_Get path p with
                      | VOk secret => inr (Some secret)
                      | VErr e => inl e
                      | VPanic _ => inr None
                      end, st) in
  ResolveString vault_Get ∅ "plain text" tt = (ROk "plain text", tt)
  /\ ResolveString vault_Get ∅ "https://example.com" tt
     = (RErr (ProviderNotRegistered "https"), tt).
Proof.
  intros vault_Get.
  destruct (ResolveString_cases vault_Get ∅ "plain text" tt) as (H1 & _).
  destruct (ResolveString_cases vault_Get ∅ "" tt) as (_ & _ & H3).
  split; [apply H1; reflexivity|].
  apply (H3 "example.com"). reflexivity.
Defined.

(* ===================================================================== *)
(** ** The scenarios of the specification, run on the reference
       implementation *)
(* ===================================================================== *)

Section Scenarios.
Import Sample.

(** S1: init, set, get. *)
Example S1_init_set_get :
  fst (Initialize "correcthorse" st_fresh) = Ret tt
  /\ value_of (fst (Get "db/pw" st_s1)) = Some "s3cret"
  /\ fst (SecretCount st_s1) = Ret 1%nat.
Proof. repeat split; vm_compute; reflexivity. Qed.

(** S2: lock, then get is refused; unlock, then get answers again. *)
Example S2_lock_unlock :
  fst (Lock st_s1) = Ret tt
  /\ fst (Get "db/pw" st_locked) = Fail errLocked
  /\ reply_status (fst (handleSecret "GET" "/secret/db/pw" None st_locked))
     = Some StatusForbidden
  /\ fst (Unlock "correcthorse" st_locked) = Ret tt
  /\ value_of (fst ((Unlock "correcthorse";;; Get "db/pw") st_locked)) = Some "s3cret".
Proof. repeat split; vm_compute; reflexivity. Qed.

(** S3: a wrong password leaves the store locked. *)
Example S3_wrong_password :
  fst (Unlock "wronghorse" st_locked) = Fail (errors_New "invalid password")
  /\ fst (IsLocked (snd (Unlock "wronghorse" st_locked))) = Ret true.
Proof. repeat split; vm_compute; reflexivity. Qed.

(** S4: listing by prefix. *)
Example S4_prefix_list :
  fst (Store_List "a/" st_abc) = Ret ["a/1"; "a/2"]
  /\ fst (Store_List "" st_abc) = Ret ["a/1"; "a/2"; "b/1"].
Proof. repeat split; vm_compute; reflexivity. Qed.

(** S5: after a change of password the new one unlocks, the old one does
    not, and the secret reads as before. *)
Example S5_change_password :
  let changed := ChangePassword "correcthorse" "tr0ub4dor" st_s1 in
  let relocked := snd (Lock (snd changed)) in
  fst changed = Ret tt
  /\ value_of (fst (Get "db/pw" (snd changed))) = Some "s3cret"
  /\ fst (Unlock "correcthorse" relocked) = Fail (errors_New "invalid password")
  /\ value_of (fst ((Unlock "tr0ub4dor";;; Get "db/pw") relocked)) = Some "s3cret".
Proof. repeat split; vm_compute; reflexivity. Qed.

(** The sample states are states of the interface: a new store initialised,
    also when a caller has created an object in between, and locked again
    afterwards. *)
Example sample_states_reachable :
  reachable st_init /\ reachable st_init_held /\ reachable (snd (Lock st_init)).
Proof.
  assert (reachable st_fresh) as Hfresh by apply reach_new.
  assert (st_init = after (CallInitialize "correcthorse") st_fresh) as Hi
    by (vm_compute; reflexivity).
  assert (st_init_held = after (CallInitialize "correcthorse") st_held) as Hh
    by (vm_compute; reflexivity).
  split; [rewrite Hi; apply reach_call, Hfresh|].
  split.
  - rewrite Hh. apply reach_call.
    apply (reach_env st_fresh (world st_held) Hfresh). reflexivity.
  - apply (reach_call CallLock). rewrite Hi. apply reach_call, Hfresh.
Qed.
End Scenarios.
